(** * Cornucopia: primitive fitting (PrimitiveFitter.cpp)

    A shallow embedding of the candidate generator
    [DefaultPrimitiveFitter::_run], of the constrained refiner
    [DefaultPrimitiveFitter::adjustPrimitive] and of the least-squares
    problem [OneCurveProblem] it hands to the solver.

    Numbers.  The C++ code computes with [double].  In the first embedding
    a [double] is an exact rational ([Qc], canonical rationals, Leibniz
    equality): its statements are about which operations the code performs
    on which operands and in which order, not about rounding.  A division
    whose divisor is zero has no exact value there: it is the
    [DivisionByZero] branch of the error monad.  Reading or writing a vector
    entry outside its bounds (an Eigen assertion in the C++) is the
    [IndexOutOfRange] branch.

    Module [Doubles] embeds the same code over IEEE 754 binary64, with
    rounding, infinities and NaN.  What depends on rounding or on a zero
    divisor is stated there. *)

From Stdlib Require Import QArith Qcanon ZArith Lia Sorting.Sorted.
From Stdlib Require Floats.PrimFloat Floats.SpecFloat Floats.FloatOps Floats.FloatAxioms.
From stdpp Require Import base decidable option list numbers sorting.

Local Open Scope Qc_scope.

(** ** Faults and the error monad *)

Inductive fault : Set :=
| DivisionByZero
| IndexOutOfRange.

Inductive Result (A : Type) : Type :=
| Ok (a : A)
| Fault (f : fault).
Arguments Ok {A} a.
Arguments Fault {A} f.

#[global] Instance Result_ret : MRet Result := fun A a => Ok a.
#[global] Instance Result_bind : MBind Result := fun A B k m =>
  match m with
  | Ok a => k a
  | Fault f => Fault f
  end.

Definition succeeds {A} (m : Result A) : Prop := exists a, m = Ok a.

(** ** Numbers, vectors and matrices *)

Definition half : Qc := Q2Qc (1 # 2).

(** [a / b] in exact arithmetic, with the zero divisor made explicit.  The
    code itself gets an infinity or a NaN there and goes on: see [Doubles]. *)
Definition divide (a b : Qc) : Result Qc :=
  if decide (b = 0) then Fault DivisionByZero else Ok (a / b).

(** [a > b] and [a < b] on doubles. *)
Definition gtb (a b : Qc) : bool := bool_decide (b < a).
Definition ltb (a b : Qc) : bool := bool_decide (a < b).
Definition geb (a b : Qc) : bool := bool_decide (b ≤ a).

(** Eigen's [VectorXd]; [MatrixXd] is kept as the list of its columns, the
    way [errDer.col(j)] addresses it. *)
Abbreviation VectorXd := (list Qc) (only parsing).
Abbreviation MatrixXd := (list (list Qc)) (only parsing).
Abbreviation Vector2d := (Qc * Qc)%type (only parsing).

(** [v(i)] and [v(i) = a]. *)
Definition coeff {A} (v : list A) (i : nat) : Result A :=
  match v !! i with
  | Some a => Ok a
  | None => Fault IndexOutOfRange
  end.

Definition setCoeff {A} (v : list A) (i : nat) (a : A) : Result (list A) :=
  if decide (i < length v)%nat then Ok (<[i := a]> v) else Fault IndexOutOfRange.

(** [col *= s] and [col1 - col2]. *)
Definition vscale (v : VectorXd) (s : Qc) : VectorXd := (fun a => a * s) <$> v.
Definition vsub (v w : VectorXd) : VectorXd := zip_with Qcminus v w.

(** ** Curve primitives *)

Inductive PrimitiveType : Set := LINE | ARC | CLOTHOID.

#[global] Instance PrimitiveType_eq_dec : EqDecision PrimitiveType.
Proof. solve_decision. Defined.

(** The integer behind the enumerator: [LINE = 0], [ARC = 1],
    [CLOTHOID = 2]. *)
Definition type_index (t : PrimitiveType) : nat :=
  match t with LINE => 0 | ARC => 1 | CLOTHOID => 2 end.

(** Modelled from the spec: [CurvePrimitive] (CurvePrimitive.h is not part
    of the sources) is a primitive with a fixed type tag and a parameter
    vector, read by [params()] and replaced by [setParams()]. *)
Record CurvePrimitive : Type := mkCurve {
  getType : PrimitiveType;
  curve_params : VectorXd
}.

Definition curve_setParams (x : VectorXd) (c : CurvePrimitive) : CurvePrimitive :=
  {| getType := getType c; curve_params := x |}.

(** The three parameter slots [CurvePrimitive::LENGTH], [CURVATURE] and
    [DCURVATURE]: enumerators of one enumeration, hence pairwise distinct.
    Their values are declared in CurvePrimitive.h. *)
Class ParamLayout : Type := {
  LENGTH : nat;
  CURVATURE : nat;
  DCURVATURE : nat;
  LENGTH_CURVATURE : LENGTH ≠ CURVATURE;
  LENGTH_DCURVATURE : LENGTH ≠ DCURVATURE;
  CURVATURE_DCURVATURE : CURVATURE ≠ DCURVATURE
}.

(** Modelled from the spec: [FitPrimitive], the candidate primitive fit
    (PrimitiveFitter.h is not part of the sources): the curve, the covered
    span, the count of samples consumed, the sign of the curvature at the
    two ends, and the total squared error, not normalized by the span
    length.  PrimitiveFitter.cpp assigns each of these fields. *)
Record FitPrimitive : Type := mkFit {
  curve : CurvePrimitive;
  startIdx : nat;
  endIdx : nat;
  numPts : nat;
  startCurvSign : Z;
  endCurvSign : Z;
  error : Qc
}.

(** [LSBoxConstraint(index, value, sign)], as line 228 constructs it. *)
Record LSBoxConstraint : Type := mkBox {
  box_index : nat;
  box_value : Qc;
  box_sign : Z
}.

#[global] Instance LSBoxConstraint_eq_dec : EqDecision LSBoxConstraint.
Proof. solve_decision. Defined.

(** Modelled from the spec: a box constraint restricts one parameter to lie
    on one side of a bound value, the side given by its sign (Solver.h is
    not part of the sources). *)
Definition satisfies (x : VectorXd) (b : LSBoxConstraint) : Prop :=
  match x !! box_index b with
  | Some a => if decide (0 ≤ box_sign b)%Z then box_value b ≤ a else a ≤ box_value b
  | None => False
  end.

(** [ErrorComputer]: the total squared error of a curve over a span, and the
    residual vector with its Jacobian in the curve's raw parameters. *)
Record ErrorComputer : Type := {
  computeError : CurvePrimitive -> nat -> nat -> Qc;
  computeErrorVector : CurvePrimitive -> nat -> nat -> VectorXd * MatrixXd
}.

(** [LSDenseEvalData]: what [eval] fills in. *)
Record LSDenseEvalData : Type := mkEvalData {
  errVector : VectorXd;
  errDer : MatrixXd
}.

(** ** OneCurveProblem *)

Record OneCurveProblem : Type := mkProblem {
  _primitive : FitPrimitive;
  _errorComputer : ErrorComputer
}.

Definition with_curve (c : CurvePrimitive) (f : FitPrimitive) : FitPrimitive :=
  {| curve := c; startIdx := startIdx f; endIdx := endIdx f; numPts := numPts f;
     startCurvSign := startCurvSign f; endCurvSign := endCurvSign f; error := error f |}.

(** The curve is held through a shared pointer: [setParams] on the problem's
    copy of the primitive updates the one curve object. *)
Definition problem_with_curve (c : CurvePrimitive) (p : OneCurveProblem) : OneCurveProblem :=
  {| _primitive := with_curve c (_primitive p); _errorComputer := _errorComputer p |}.

Section OneCurveProblem.
Context `{ParamLayout}.

(** Lines 71-78 and 80-91 in exact arithmetic; [Doubles.OneCurveProblem_params]
    and [Doubles.OneCurveProblem_setParams] are the rounded ones. *)
Definition OneCurveProblem_params (p : OneCurveProblem) : Result VectorXd :=
  let c := curve (_primitive p) in
  if decide (getType c ≠ CLOTHOID) then Ok (curve_params c)
  else
    let out := curve_params c in
    k ← coeff out CURVATURE;
    l ← coeff out LENGTH;
    d ← coeff out DCURVATURE;
    setCoeff out DCURVATURE (k + l * d).

Definition OneCurveProblem_setParams (x : VectorXd) (p : OneCurveProblem)
  : Result OneCurveProblem :=
  let c := curve (_primitive p) in
  if decide (getType c ≠ CLOTHOID) then Ok (problem_with_curve (curve_setParams x c) p)
  else
    let xm := x in
    d ← coeff xm DCURVATURE;
    k ← coeff xm CURVATURE;
    l ← coeff xm LENGTH;
    q ← divide (d - k) l;
    xm ← setCoeff xm DCURVATURE q;
    Ok (problem_with_curve (curve_setParams xm c) p).

Definition OneCurveProblem_error (x : VectorXd) (p : OneCurveProblem)
  : Result (OneCurveProblem * Qc) :=
  p ← OneCurveProblem_setParams x p;
  Ok (p, computeError (_errorComputer p) (curve (_primitive p))
           (startIdx (_primitive p)) (endIdx (_primitive p))).

(** The chain-rule rewrite of the Jacobian in [eval], three column updates
    in the order of the source. *)
Definition reparametrize_jacobian (x : VectorXd) (errDer : MatrixXd) : Result MatrixXd :=
  l ← coeff x LENGTH;
  invLength ← divide 1 l;
  colD ← coeff errDer DCURVATURE;
  errDer ← setCoeff errDer DCURVATURE (vscale colD invLength);
  colK ← coeff errDer CURVATURE;
  colD ← coeff errDer DCURVATURE;
  errDer ← setCoeff errDer CURVATURE (vsub colK colD);
  xd ← coeff x DCURVATURE;
  xk ← coeff x CURVATURE;
  let dcurvature := (xd - xk) * invLength in
  colL ← coeff errDer LENGTH;
  colD ← coeff errDer DCURVATURE;
  setCoeff errDer LENGTH (vsub colL (vscale colD dcurvature)).

Definition OneCurveProblem_eval (x : VectorXd) (p : OneCurveProblem)
  : Result (OneCurveProblem * LSDenseEvalData) :=
  p ← OneCurveProblem_setParams x p;
  let '(errVec, errDer) :=
    computeErrorVector (_errorComputer p) (curve (_primitive p))
      (startIdx (_primitive p)) (endIdx (_primitive p)) in
  if decide (getType (curve (_primitive p)) = CLOTHOID) then
    errDer ← reparametrize_jacobian x errDer;
    Ok (p, mkEvalData errVec errDer)
  else Ok (p, mkEvalData errVec errDer).

End OneCurveProblem.

(** ** What the generator consumes *)

(** The entries of [Parameters] read by PrimitiveFitter.cpp;
    [cost_parameter t] is [Parameters::ParameterType(Parameters::LINE_COST + type)]. *)
Inductive ParameterType : Set :=
| LINE_COST | ARC_COST | CLOTHOID_COST
| INFLECTION_COST | ERROR_THRESHOLD | CURVE_ADJUST_DAMPING.

Definition cost_parameter (t : PrimitiveType) : ParameterType :=
  match t with LINE => LINE_COST | ARC => ARC_COST | CLOTHOID => CLOTHOID_COST end.

(** The geometry of the primitive families, the numerical core of the
    incremental fitters and the box-constrained solver live in other files
    of the library; the generator only calls them. *)
Class Geometry : Type := {
  startCurvature : CurvePrimitive -> Qc;
  endCurvature : CurvePrimitive -> Qc;
  curve_length : CurvePrimitive -> Qc;
  (** best fit of a family to the points fed so far *)
  bestFit : PrimitiveType -> list Vector2d -> CurvePrimitive;
  (** clothoid fit whose curvature vanishes at the given arc-length offset *)
  bestFitZeroCurvature : list Vector2d -> Qc -> CurvePrimitive;
  (** [LSSolver(&problem, constraints)], damping, iteration cap, start point *)
  LSSolver_solve : OneCurveProblem -> list LSBoxConstraint -> Qc -> nat -> VectorXd -> VectorXd;
  Parameters_infinity : Qc
}.

(** Modelled from the spec: an incremental fitter ([LineFitter], [ArcFitter],
    [ClothoidFitter]; PrimitiveFitUtils.h is not part of the sources)
    consumes points one at a time and produces the best-fit primitive of its
    family over all points seen so far. *)
Record FitterBase : Type := mkFitter {
  family : PrimitiveType;
  fed : list Vector2d
}.

Definition newFitter (t : PrimitiveType) : FitterBase := mkFitter t [].

Definition addPoint (f : FitterBase) (pt : Vector2d) : FitterBase :=
  mkFitter (family f) (fed f ++ [pt]).

Definition getPrimitive `{Geometry} (f : FitterBase) : CurvePrimitive :=
  bestFit (family f) (fed f).

Definition getCurveWithZeroCurvature `{Geometry} (f : FitterBase) (offset : Qc) : CurvePrimitive :=
  bestFitZeroCurvature (fed f) offset.

(** [FitterBasePtr fitters[3]], indexed by the primitive type. *)
Definition Fitters : Type := PrimitiveType -> FitterBase.

Definition fresh_fitters : Fitters := newFitter.

Definition set_fitter (fs : Fitters) (t : PrimitiveType) (f : FitterBase) : Fitters :=
  fun t' => if decide (t' = t) then f else fs t'.

(** What [_run] and [adjustPrimitive] read from the [Fitter]: the outputs of
    the resampling stage (corner flags, the polyline with its samples), the
    error computer and the parameters.  [circulator i] is the sequence of
    pairs ([circ.index()], [*circ]) that [pts.circulator(i)] yields until
    [circ.done()]. *)
Record Fitter : Type := {
  corners : nat -> bool;
  pts_size : nat;
  circulator : nat -> list (nat * Vector2d);
  lengthFromTo : nat -> nat -> Qc;
  idxToParam : nat -> Qc;
  errorComputer : ErrorComputer;
  scaledParameter : ParameterType -> Qc;
  params_get : ParameterType -> Qc
}.

(** The observable steps of the search, in program order: a candidate has
    been built and measured (lines 149-160), an inflection-split candidate
    has been built and measured (lines 184-190, 198-204), a candidate has
    been appended to [out.primitives]. *)
Inductive Event : Type :=
| Materialize (fit : FitPrimitive)
| Split (fit : FitPrimitive)
| PushBack (fit : FitPrimitive).

Definition event_fit (e : Event) : FitPrimitive :=
  match e with Materialize f | Split f | PushBack f => f end.

Definition pushed (e : Event) : option FitPrimitive :=
  match e with PushBack f => Some f | _ => None end.

Definition materialized (e : Event) : option FitPrimitive :=
  match e with Materialize f => Some f | _ => None end.

Definition split_tested (e : Event) : option FitPrimitive :=
  match e with Split f => Some f | _ => None end.

(** [out.primitives] *)
Definition primitives (trace : list Event) : list FitPrimitive := omap pushed trace.

Definition with_signs (s e : Z) (f : FitPrimitive) : FitPrimitive :=
  {| curve := curve f; startIdx := startIdx f; endIdx := endIdx f; numPts := numPts f;
     startCurvSign := s; endCurvSign := e; error := error f |}.

Definition with_error (err : Qc) (f : FitPrimitive) : FitPrimitive :=
  {| curve := curve f; startIdx := startIdx f; endIdx := endIdx f; numPts := numPts f;
     startCurvSign := startCurvSign f; endCurvSign := endCurvSign f; error := err |}.

(** The line candidate "with opposite curvature" (lines 171-172). *)
Definition mirrored (f : FitPrimitive) : FitPrimitive :=
  with_signs (- startCurvSign f) (- endCurvSign f) f.

Section Generator.
Context `{ParamLayout} `{Geometry}.
Variable _adjust : bool.

Definition inflectionAccounting (fitter : Fitter) : bool :=
  gtb (params_get fitter INFLECTION_COST) 0.

Definition needType (fitter : Fitter) (t : PrimitiveType) : bool :=
  ltb (params_get fitter (cost_parameter t)) Parameters_infinity.

(** *** adjustPrimitive *)

Definition adjust_constraints (primitive : FitPrimitive) (fitter : Fitter)
  : list LSBoxConstraint :=
  let constraints := [mkBox LENGTH (curve_length (curve primitive) * half) 1] in
  if inflectionAccounting fitter then
    let constraints :=
      if decide (type_index ARC ≤ type_index (getType (curve primitive)))%nat
      then constraints ++ [mkBox CURVATURE 0 (startCurvSign primitive)]
      else constraints in
    if decide (getType (curve primitive) = CLOTHOID)
    then constraints ++ [mkBox DCURVATURE 0 (endCurvSign primitive)]
    else constraints
  else constraints.

(** Returns the curve as the solver's answer leaves it: the candidate and
    the problem share the one curve object. *)
Definition adjustPrimitive (primitive : FitPrimitive) (fitter : Fitter)
  : Result CurvePrimitive :=
  let constraints := adjust_constraints primitive fitter in
  let problem := mkProblem primitive (errorComputer fitter) in
  x0 ← OneCurveProblem_params problem;
  let x := LSSolver_solve problem constraints
             (params_get fitter CURVE_ADJUST_DAMPING) 1 x0 in
  problem ← OneCurveProblem_setParams x problem;
  Ok (curve (_primitive problem)).

Definition adjusted (fit : FitPrimitive) (fitter : Fitter) : Result FitPrimitive :=
  if _adjust then c ← adjustPrimitive fit fitter; Ok (with_curve c fit) else Ok fit.

(** *** _run *)

(** [errorThreshold * errorThreshold], exact; [Doubles.exceeds_threshold]
    has the rounded product. *)
Definition threshold2 (fitter : Fitter) : Qc :=
  scaledParameter fitter ERROR_THRESHOLD * scaledParameter fitter ERROR_THRESHOLD.

(** One inflection-split candidate (lines 184-196 and 198-210): the curve
    and both signs are overwritten, the candidate is adjusted, measured and
    pushed when [fit.error / length < errorThreshold * errorThreshold]. *)
Definition split_candidate (fitter : Fitter) (fit : FitPrimitive)
    (c : CurvePrimitive) (sign : Z) (length : Qc)
  : Result (FitPrimitive * list Event) :=
  let fit := with_signs sign sign (with_curve c fit) in
  fit ← adjusted fit fitter;
  let fit := with_error (computeError (errorComputer fitter) (curve fit)
                           (startIdx fit) (endIdx fit)) fit in
  q ← divide (error fit) length;
  if ltb q (threshold2 fitter)
  then Ok (fit, [Split fit; PushBack fit])
  else Ok (fit, [Split fit]).

Definition inflection_split (fitter : Fitter) (fitters : Fitters)
    (fit : FitPrimitive) (length : Qc) : Result (list Event) :=
  let start := idxToParam fitter (startIdx fit) in
  let end_ := idxToParam fitter (endIdx fit) in
  let startNoCurv := getCurveWithZeroCurvature (fitters CLOTHOID) 0 in
  let endNoCurv := getCurveWithZeroCurvature (fitters CLOTHOID) (end_ - start) in
  '(fit, ev1) ← split_candidate fitter fit startNoCurv
                  (if gtb (endCurvature startNoCurv) 0 then 1 else -1)%Z length;
  '(fit, ev2) ← split_candidate fitter fit endNoCurv
                  (if gtb (startCurvature endNoCurv) 0 then 1 else -1)%Z length;
  Ok (ev1 ++ ev2).

(** Lines 145-211: the body run once [fitSoFar >= 2 + type].  The boolean
    tells whether the threshold test left the loop ([break], line 164).
    [fit.error] is not set before line 160 and not read before it either;
    it starts at 0 here. *)
Definition candidate (fitter : Fitter) (fitters : Fitters) (type : PrimitiveType)
    (i idx fitSoFar : nat) : Result (list Event * bool) :=
  let c := getPrimitive (fitters type) in
  let fit :=
    {| curve := c; startIdx := i; endIdx := idx; numPts := fitSoFar;
       startCurvSign := (if geb (startCurvature c) 0 then 1 else -1)%Z;
       endCurvSign := (if geb (endCurvature c) 0 then 1 else -1)%Z;
       error := 0 |} in
  fit ← adjusted fit fitter;
  let fit := with_error (computeError (errorComputer fitter) (curve fit) i (endIdx fit)) fit in
  let length := lengthFromTo fitter i (endIdx fit) in
  q ← divide (error fit) length;
  if gtb q (threshold2 fitter) then Ok ([Materialize fit], true)
  else
    let ev := [Materialize fit; PushBack fit] in
    let '(fit, ev) :=
      if bool_decide (type = LINE) && inflectionAccounting fitter
      then (mirrored fit, ev ++ [PushBack (mirrored fit)])
      else (fit, ev) in
    if bool_decide (startCurvSign fit ≠ endCurvSign fit) && inflectionAccounting fitter
    then ev' ← inflection_split fitter fitters fit length; Ok (ev ++ ev', false)
    else Ok (ev, false).

(** Line 139: a type that is not needed is abandoned. *)
Definition skip_type (fitter : Fitter) (type : PrimitiveType) (fitSoFar : nat) : bool :=
  negb (needType fitter type)
  && (bool_decide (type = CLOTHOID) || bool_decide (3 + type_index type ≤ fitSoFar)%nat).

(** Line 213. *)
Definition corner_stop (fitter : Fitter) (fitSoFar idx : nat) : bool :=
  bool_decide (1 < fitSoFar)%nat && corners fitter idx.

(** Line 143: a candidate is built once the type has its minimum of
    points. *)
Definition measure (fitter : Fitter) (fitters : Fitters) (type : PrimitiveType)
    (i idx fitSoFar : nat) : Result (list Event * bool) :=
  if decide (2 + type_index type ≤ fitSoFar)%nat
  then candidate fitter fitters type i idx fitSoFar
  else Ok ([], false).

(** The loop over the circulator (lines 135-215) for one start index and one
    type; [fitSoFar] is the count before the sample at the head is fed. *)
Fixpoint traverse (fitter : Fitter) (type : PrimitiveType) (i : nat)
    (circ : list (nat * Vector2d)) (fitSoFar : nat) (fitters : Fitters)
  : Result (Fitters * list Event) :=
  match circ with
  | [] => Ok (fitters, [])
  | (idx, pt) :: circ =>
    let fitSoFar := S fitSoFar in
    if skip_type fitter type fitSoFar then Ok (fitters, [])
    else
      let fitters := set_fitter fitters type (addPoint (fitters type) pt) in
      '(ev, stop) ← measure fitter fitters type i idx fitSoFar;
      if (stop : bool) then Ok (fitters, ev)
      else if corner_stop fitter fitSoFar idx then Ok (fitters, ev)
      else '(fitters, ev') ← traverse fitter type i circ fitSoFar fitters;
           Ok (fitters, ev ++ ev')
  end.

(** The search for one pair (start index, type), lines 131-215. *)
Definition run_pair (fitter : Fitter) (type : PrimitiveType) (i : nat) (fitters : Fitters)
  : Result (Fitters * list Event) :=
  traverse fitter type i (circulator fitter i) 0 fitters.

(** The loop over the three types (line 129). *)
Fixpoint run_types (fitter : Fitter) (types : list PrimitiveType) (i : nat)
    (fitters : Fitters) : Result (list Event) :=
  match types with
  | [] => Ok []
  | type :: types =>
    '(fitters, ev) ← run_pair fitter type i fitters;
    ev' ← run_types fitter types i fitters;
    Ok (ev ++ ev')
  end.

(** The loop over the start points (line 122), with fresh fitters each. *)
Fixpoint run_starts (fitter : Fitter) (starts : list nat) : Result (list Event) :=
  match starts with
  | [] => Ok []
  | i :: starts =>
    ev ← run_types fitter [LINE; ARC; CLOTHOID] i fresh_fitters;
    ev' ← run_starts fitter starts;
    Ok (ev ++ ev')
  end.

Definition _run (fitter : Fitter) : Result (list Event) :=
  run_starts fitter (seq 0 (pts_size fitter)).

End Generator.

(** The minimum-length constraint, the first one [adjustPrimitive] builds
    (line 228). *)
Definition minimum_length `{ParamLayout} `{Geometry} (primitive : FitPrimitive)
  : LSBoxConstraint :=
  mkBox LENGTH (curve_length (curve primitive) * half) 1.

(** The acceptance test of line 163 on a measured candidate: [Ok false] when
    its error divided by [lengthFromTo(startIdx, endIdx)] exceeds the
    squared error threshold, [Ok true] otherwise. *)
Definition acceptance (fitter : Fitter) (fit : FitPrimitive) : Result bool :=
  q ← divide (error fit) (lengthFromTo fitter (startIdx fit) (endIdx fit));
  Ok (negb (gtb q (threshold2 fitter))).

(** The order of the search in its trace: spans never shrink, and a newly
    built candidate has a strictly longer span than everything before it. *)
Definition span_order (e1 e2 : Event) : Prop :=
  (numPts (event_fit e1) ≤ numPts (event_fit e2))%nat
  /\ (is_Some (materialized e2) -> (numPts (event_fit e1) < numPts (event_fit e2))%nat).

(** A candidate of the search from [i] that ends at [idx] after [n] points. *)
Definition spans_to (i idx n : nat) (f : FitPrimitive) : Prop :=
  startIdx f = i /\ endIdx f = idx /\ numPts f = n.

(** What one inflection-split test leaves in the trace. *)
Definition split_events (fitter : Fitter) (s : FitPrimitive) (q : Qc) : list Event :=
  Split s :: (if ltb q (threshold2 fitter) then [PushBack s] else []).

(** The built candidates of a trace that pass the acceptance test, in the
    order they were built. *)
Definition passes (fitter : Fitter) (m : FitPrimitive) : bool :=
  match acceptance fitter m with
  | Ok true => true
  | _ => false
  end.

Definition accepted (fitter : Fitter) (trace : list Event) : list FitPrimitive :=
  omap (fun e => match e with
                 | Materialize m => if passes fitter m then Some m else None
                 | _ => None
                 end) trace.

(** A line span emitted under both curvature orientations. *)
Definition both_orientations (f : FitPrimitive) : list FitPrimitive := [f; mirrored f].

(** The fitters once the samples [pts] have been fed, in order, to the
    fitter of [type] (line 142, once per sample). *)
Definition feed (fitters : Fitters) (type : PrimitiveType) (pts : list (Qc * Qc)) : Fitters :=
  foldl (fun fs pt => set_fitter fs type (addPoint (fs type) pt)) fitters pts.

(** The values lines 154-155, 171-172, 185 and 199 give a curvature sign. *)
Definition unit_sign (z : Z) : Prop := z = 1%Z \/ z = (-1)%Z.

#[global] Instance ParameterType_eq_dec : EqDecision ParameterType.
Proof. solve_decision. Defined.

(** * The code in double precision

    [OneCurveProblem], [adjustPrimitive] and [_run] once more, this time with
    [double] as IEEE 754 binary64, the kernel's primitive floats: sums,
    products and quotients round to nearest, and a quotient by zero is an
    infinity or a NaN, not a fault, exactly as in the C++.  What is stated
    over this module holds of the code bit for bit. *)

Module Doubles.
Import PrimFloat.

Record CurvePrimitive : Type := mkCurve {
  getType : PrimitiveType;
  curve_params : list float
}.

Definition curve_setParams (x : list float) (c : CurvePrimitive) : CurvePrimitive :=
  {| getType := getType c; curve_params := x |}.

Record FitPrimitive : Type := mkFit {
  curve : CurvePrimitive;
  startIdx : nat;
  endIdx : nat;
  numPts : nat;
  startCurvSign : Z;
  endCurvSign : Z;
  error : float
}.

Record LSBoxConstraint : Type := mkBox {
  box_index : nat;
  box_value : float;
  box_sign : Z
}.

(** [ErrorComputer::computeError], the total squared error of a curve over
    a span. *)
Record ErrorComputer : Type := {
  computeError : CurvePrimitive -> nat -> nat -> float
}.

Record OneCurveProblem : Type := mkProblem {
  _primitive : FitPrimitive;
  _errorComputer : ErrorComputer
}.

Definition with_curve (c : CurvePrimitive) (f : FitPrimitive) : FitPrimitive :=
  {| curve := c; startIdx := startIdx f; endIdx := endIdx f; numPts := numPts f;
     startCurvSign := startCurvSign f; endCurvSign := endCurvSign f; error := error f |}.

Definition problem_with_curve (c : CurvePrimitive) (p : OneCurveProblem) : OneCurveProblem :=
  {| _primitive := with_curve c (_primitive p); _errorComputer := _errorComputer p |}.

Section OneCurveProblem.
Context `{ParamLayout}.

(** Lines 71-78. *)
Definition OneCurveProblem_params (p : OneCurveProblem) : Result (list float) :=
  let c := curve (_primitive p) in
  if decide (getType c ≠ CLOTHOID) then Ok (curve_params c)
  else
    let out := curve_params c in
    k ← coeff out CURVATURE;
    l ← coeff out LENGTH;
    d ← coeff out DCURVATURE;
    setCoeff out DCURVATURE (k + l * d)%float.

(** Lines 80-91. *)
Definition OneCurveProblem_setParams (x : list float) (p : OneCurveProblem)
  : Result OneCurveProblem :=
  let c := curve (_primitive p) in
  if decide (getType c ≠ CLOTHOID) then Ok (problem_with_curve (curve_setParams x c) p)
  else
    let xm := x in
    d ← coeff xm DCURVATURE;
    k ← coeff xm CURVATURE;
    l ← coeff xm LENGTH;
    xm ← setCoeff xm DCURVATURE ((d - k) / l)%float;
    Ok (problem_with_curve (curve_setParams xm c) p).

End OneCurveProblem.

Section Refiner.
Context `{ParamLayout}.
(** [curve->length()] and [LSSolver(&problem, constraints)] with its
    damping, iteration cap and start point: code of other files. *)
Variable curve_length : CurvePrimitive -> float.
Variable LSSolver_solve :
  OneCurveProblem -> list LSBoxConstraint -> float -> nat -> list float -> list float.
(** [fitter.params().get(Parameters::INFLECTION_COST)] and
    [fitter.params().get(Parameters::CURVE_ADJUST_DAMPING)]. *)
Variable INFLECTION_COST CURVE_ADJUST_DAMPING : float.

Definition inflectionAccounting : bool := (0 <? INFLECTION_COST)%float.

(** Lines 225-237. *)
Definition adjust_constraints (primitive : FitPrimitive) : list LSBoxConstraint :=
  let constraints := [mkBox LENGTH (curve_length (curve primitive) * 0.5)%float 1] in
  if inflectionAccounting then
    let constraints :=
      if decide (type_index ARC ≤ type_index (getType (curve primitive)))%nat
      then constraints ++ [mkBox CURVATURE 0%float (startCurvSign primitive)]
      else constraints in
    if decide (getType (curve primitive) = CLOTHOID)
    then constraints ++ [mkBox DCURVATURE 0%float (endCurvSign primitive)]
    else constraints
  else constraints.

(** Lines 240-244.  Returns the curve as the solver's answer leaves it. *)
Definition adjustPrimitive (primitive : FitPrimitive) (errorComputer : ErrorComputer)
  : Result CurvePrimitive :=
  let constraints := adjust_constraints primitive in
  let problem := mkProblem primitive errorComputer in
  x0 ← OneCurveProblem_params problem;
  let x := LSSolver_solve problem constraints CURVE_ADJUST_DAMPING 1 x0 in
  problem ← OneCurveProblem_setParams x problem;
  Ok (curve (_primitive problem)).

End Refiner.

(** ** The candidate generator in double precision *)

(** The acceptance tests of [_run] on a measured candidate: line 163 leaves
    the loop when [fit.error / length > errorThreshold * errorThreshold], and
    lines 192 and 206 push an inflection-split candidate when
    [fit.error / length < errorThreshold * errorThreshold]. *)
Definition exceeds_threshold (error length errorThreshold : float) : bool :=
  (errorThreshold * errorThreshold <? error / length)%float.

Definition split_within_threshold (error length errorThreshold : float) : bool :=
  (error / length <? errorThreshold * errorThreshold)%float.

(** The geometry of the primitive families, the incremental fitters and the
    solver: code of other files, called here. *)
Class Geometry : Type := {
  startCurvature : CurvePrimitive -> float;
  endCurvature : CurvePrimitive -> float;
  curve_length : CurvePrimitive -> float;
  bestFit : PrimitiveType -> list (float * float) -> CurvePrimitive;
  bestFitZeroCurvature : list (float * float) -> float -> CurvePrimitive;
  LSSolver_solve :
    OneCurveProblem -> list LSBoxConstraint -> float -> nat -> list float -> list float;
  Parameters_infinity : float
}.

Record FitterBase : Type := mkFitter {
  family : PrimitiveType;
  fed : list (float * float)
}.

Definition newFitter (t : PrimitiveType) : FitterBase := mkFitter t [].

Definition addPoint (f : FitterBase) (pt : float * float) : FitterBase :=
  mkFitter (family f) (fed f ++ [pt]).

Definition getPrimitive `{Geometry} (f : FitterBase) : CurvePrimitive :=
  bestFit (family f) (fed f).

Definition getCurveWithZeroCurvature `{Geometry} (f : FitterBase) (offset : float)
  : CurvePrimitive :=
  bestFitZeroCurvature (fed f) offset.

Definition Fitters : Type := PrimitiveType -> FitterBase.

Definition fresh_fitters : Fitters := newFitter.

Definition set_fitter (fs : Fitters) (t : PrimitiveType) (f : FitterBase) : Fitters :=
  fun t' => if decide (t' = t) then f else fs t'.

Record Fitter : Type := {
  corners : nat -> bool;
  pts_size : nat;
  circulator : nat -> list (nat * (float * float));
  lengthFromTo : nat -> nat -> float;
  idxToParam : nat -> float;
  errorComputer : ErrorComputer;
  scaledParameter : ParameterType -> float;
  params_get : ParameterType -> float
}.

Inductive Event : Type :=
| Materialize (fit : FitPrimitive)
| Split (fit : FitPrimitive)
| PushBack (fit : FitPrimitive).

Definition event_fit (e : Event) : FitPrimitive :=
  match e with Materialize f | Split f | PushBack f => f end.

Definition pushed (e : Event) : option FitPrimitive :=
  match e with PushBack f => Some f | _ => None end.

(** [out.primitives] *)
Definition primitives (trace : list Event) : list FitPrimitive := omap pushed trace.

Definition with_signs (s e : Z) (f : FitPrimitive) : FitPrimitive :=
  {| curve := curve f; startIdx := startIdx f; endIdx := endIdx f; numPts := numPts f;
     startCurvSign := s; endCurvSign := e; error := error f |}.

Definition with_error (err : float) (f : FitPrimitive) : FitPrimitive :=
  {| curve := curve f; startIdx := startIdx f; endIdx := endIdx f; numPts := numPts f;
     startCurvSign := startCurvSign f; endCurvSign := endCurvSign f; error := err |}.

Definition mirrored (f : FitPrimitive) : FitPrimitive :=
  with_signs (- startCurvSign f) (- endCurvSign f) f.

(** The test of line 163 on a candidate as it stands: its error over the
    length of its own span against the squared threshold. *)
Definition over_threshold (fitter : Fitter) (f : FitPrimitive) : bool :=
  exceeds_threshold (error f) (lengthFromTo fitter (startIdx f) (endIdx f))
    (scaledParameter fitter ERROR_THRESHOLD).

(** What lines 160, 190 and 204 leave in [fit.error]. *)
Definition measured (fitter : Fitter) (f : FitPrimitive) : Prop :=
  error f = computeError (errorComputer fitter) (curve f) (startIdx f) (endIdx f).

Section Generator.
Context `{ParamLayout} `{Geometry}.
Variable _adjust : bool.

Definition needType (fitter : Fitter) (t : PrimitiveType) : bool :=
  (params_get fitter (cost_parameter t) <? Parameters_infinity)%float.

Definition adjusted (fit : FitPrimitive) (fitter : Fitter) : Result FitPrimitive :=
  if _adjust then
    c ← adjustPrimitive curve_length LSSolver_solve (params_get fitter INFLECTION_COST)
          (params_get fitter CURVE_ADJUST_DAMPING) fit (errorComputer fitter);
    Ok (with_curve c fit)
  else Ok fit.

(** Lines 184-196 and 198-210. *)
Definition split_candidate (fitter : Fitter) (fit : FitPrimitive)
    (c : CurvePrimitive) (sign : Z) (length : float)
  : Result (FitPrimitive * list Event) :=
  let fit := with_signs sign sign (with_curve c fit) in
  fit ← adjusted fit fitter;
  let fit := with_error (computeError (errorComputer fitter) (curve fit)
                           (startIdx fit) (endIdx fit)) fit in
  if split_within_threshold (error fit) length (scaledParameter fitter ERROR_THRESHOLD)
  then Ok (fit, [Split fit; PushBack fit])
  else Ok (fit, [Split fit]).

Definition inflection_split (fitter : Fitter) (fitters : Fitters)
    (fit : FitPrimitive) (length : float) : Result (list Event) :=
  let start := idxToParam fitter (startIdx fit) in
  let end_ := idxToParam fitter (endIdx fit) in
  let startNoCurv := getCurveWithZeroCurvature (fitters CLOTHOID) 0%float in
  let endNoCurv := getCurveWithZeroCurvature (fitters CLOTHOID) (end_ - start)%float in
  '(fit, ev1) ← split_candidate fitter fit startNoCurv
                  (if (0 <? endCurvature startNoCurv)%float then 1 else -1)%Z length;
  '(fit, ev2) ← split_candidate fitter fit endNoCurv
                  (if (0 <? startCurvature endNoCurv)%float then 1 else -1)%Z length;
  Ok (ev1 ++ ev2).

(** Lines 145-211; the boolean tells whether line 164 left the loop. *)
Definition candidate (fitter : Fitter) (fitters : Fitters) (type : PrimitiveType)
    (i idx fitSoFar : nat) : Result (list Event * bool) :=
  let c := getPrimitive (fitters type) in
  let fit :=
    {| curve := c; startIdx := i; endIdx := idx; numPts := fitSoFar;
       startCurvSign := (if (0 <=? startCurvature c)%float then 1 else -1)%Z;
       endCurvSign := (if (0 <=? endCurvature c)%float then 1 else -1)%Z;
       error := 0%float |} in
  fit ← adjusted fit fitter;
  let fit := with_error (computeError (errorComputer fitter) (curve fit) i (endIdx fit)) fit in
  let length := lengthFromTo fitter i (endIdx fit) in
  if exceeds_threshold (error fit) length (scaledParameter fitter ERROR_THRESHOLD)
  then Ok ([Materialize fit], true)
  else
    let ev := [Materialize fit; PushBack fit] in
    let inflection := inflectionAccounting (params_get fitter INFLECTION_COST) in
    let '(fit, ev) :=
      if bool_decide (type = LINE) && inflection
      then (mirrored fit, ev ++ [PushBack (mirrored fit)])
      else (fit, ev) in
    if bool_decide (startCurvSign fit ≠ endCurvSign fit) && inflection
    then ev' ← inflection_split fitter fitters fit length; Ok (ev ++ ev', false)
    else Ok (ev, false).

(** Line 139. *)
Definition skip_type (fitter : Fitter) (type : PrimitiveType) (fitSoFar : nat) : bool :=
  negb (needType fitter type)
  && (bool_decide (type = CLOTHOID) || bool_decide (3 + type_index type ≤ fitSoFar)%nat).

(** Line 213. *)
Definition corner_stop (fitter : Fitter) (fitSoFar idx : nat) : bool :=
  bool_decide (1 < fitSoFar)%nat && corners fitter idx.

(** Line 143. *)
Definition measure (fitter : Fitter) (fitters : Fitters) (type : PrimitiveType)
    (i idx fitSoFar : nat) : Result (list Event * bool) :=
  if decide (2 + type_index type ≤ fitSoFar)%nat
  then candidate fitter fitters type i idx fitSoFar
  else Ok ([], false).

(** Lines 135-215. *)
Fixpoint traverse (fitter : Fitter) (type : PrimitiveType) (i : nat)
    (circ : list (nat * (float * float))) (fitSoFar : nat) (fitters : Fitters)
  : Result (Fitters * list Event) :=
  match circ with
  | [] => Ok (fitters, [])
  | (idx, pt) :: circ =>
    let fitSoFar := S fitSoFar in
    if skip_type fitter type fitSoFar then Ok (fitters, [])
    else
      let fitters := set_fitter fitters type (addPoint (fitters type) pt) in
      '(ev, stop) ← measure fitter fitters type i idx fitSoFar;
      if (stop : bool) then Ok (fitters, ev)
      else if corner_stop fitter fitSoFar idx then Ok (fitters, ev)
      else '(fitters, ev') ← traverse fitter type i circ fitSoFar fitters;
           Ok (fitters, ev ++ ev')
  end.

Definition run_pair (fitter : Fitter) (type : PrimitiveType) (i : nat) (fitters : Fitters)
  : Result (Fitters * list Event) :=
  traverse fitter type i (circulator fitter i) 0 fitters.

(** Line 129. *)
Fixpoint run_types (fitter : Fitter) (types : list PrimitiveType) (i : nat)
    (fitters : Fitters) : Result (list Event) :=
  match types with
  | [] => Ok []
  | type :: types =>
    '(fitters, ev) ← run_pair fitter type i fitters;
    ev' ← run_types fitter types i fitters;
    Ok (ev ++ ev')
  end.

(** Line 122. *)
Fixpoint run_starts (fitter : Fitter) (starts : list nat) : Result (list Event) :=
  match starts with
  | [] => Ok []
  | i :: starts =>
    ev ← run_types fitter [LINE; ARC; CLOTHOID] i fresh_fitters;
    ev' ← run_starts fitter starts;
    Ok (ev ++ ev')
  end.

Definition _run (fitter : Fitter) : Result (list Event) :=
  run_starts fitter (seq 0 (pts_size fitter)).

End Generator.

End Doubles.

(** * The arc-length polyline (contract of PolylineTest.cpp)

    Polyline.h and Polyline.cpp are not part of the sources; only the test
    that exercises them is. *)

Module Polyline.

Section WithNorm.
(** Eigen's [(b - a).norm()], the Euclidean distance of two samples. *)
Variable distance : Qc * Qc -> Qc * Qc -> Qc.

(** Modelled from the spec: the sample sequence is an ordered collection of
    2-D points with a topology flag; the polyline wraps it with a cumulative
    arc-length parameterization that maps sample indices to arc-length
    parameters and back.  For a closed sequence the last sample is joined to
    the first, and index [size] is synonymous with index 0. *)
Record Polyline : Type := mkPolyline {
  pts : list (Qc * Qc);
  closed : bool
}.

Definition size (p : Polyline) : nat := List.length (pts p).

(** Modelled from the spec: the lengths of the segments between consecutive
    samples, in traversal order (Polyline.cpp is missing). *)
Definition segments (p : Polyline) : list Qc :=
  zip_with distance (pts p) (tail (pts p) ++ (if closed p then take 1 (pts p) else [])).

(** Modelled from the spec: the cumulative arc length from the first sample
    to sample [i] (Polyline.cpp is missing). *)
Fixpoint arc_length_to (segs : list Qc) (i : nat) : Qc :=
  match i, segs with
  | S i, s :: segs => s + arc_length_to segs i
  | _, _ => 0
  end.

(** Modelled from the spec: [Polyline::idxToParam], sample index to
    arc-length parameter. *)
Definition idxToParam (p : Polyline) (i : nat) : Qc := arc_length_to (segments p) i.

(** Modelled from the spec: [Polyline::length], the total arc length. *)
Definition length (p : Polyline) : Qc :=
  arc_length_to (segments p) (List.length (segments p)).

(** Modelled from the spec: the index an arc-length parameter maps back to
    is the last one whose own parameter does not exceed it (Polyline.cpp is
    missing); this is non-decreasing in the parameter and inverts
    [idxToParam], as the spec requires of [paramToIdx]. *)
Fixpoint locate (segs : list Qc) (param : Qc) : nat :=
  match segs with
  | [] => 0
  | s :: segs => if decide (s ≤ param) then S (locate segs (param - s)) else 0
  end.

(** Modelled from the spec: [int Polyline::paramToIdx(double param)],
    arc-length parameter to sample index. *)
Definition paramToIdx (p : Polyline) (param : Qc) : Z :=
  Z.of_nat (locate (segments p) param).



End WithNorm.

(** A closed unit square.  On its sides the squared distance is the
    distance. *)
Definition squared_distance (a b : Qc * Qc) : Qc :=
  (b.1 - a.1) * (b.1 - a.1) + (b.2 - a.2) * (b.2 - a.2).

Definition unit_square : Polyline := mkPolyline [(0, 0); (1, 0); (1, 1); (0, 1)] true.


End Polyline.

(** * A concrete setting

    Closed instances of the interfaces above, on which the statements below
    are exercised: a parameter layout with the three reserved slots at
    positions 3, 4 and 5, a small geometry, a solver that returns its start
    point, and open polylines of equally spaced collinear samples. *)

Module Scenario.

Definition q (z : Z) : Qc := Qc_of_Z z.
Definition Qc_of_nat (n : nat) : Qc := Qc_of_Z (Z.of_nat n).

#[export] Instance layout : ParamLayout := {|
  LENGTH := 3;
  CURVATURE := 4;
  DCURVATURE := 5;
  LENGTH_CURVATURE := ltac:(discriminate);
  LENGTH_DCURVATURE := ltac:(discriminate);
  CURVATURE_DCURVATURE := ltac:(discriminate)
|}.

Definition slot (c : CurvePrimitive) (i : nat) : Qc := default 0 (curve_params c !! i).

(** Curvature is zero along a line, constant along an arc and linear in arc
    length along a clothoid.  The fitted curves are not geometric fits: a
    family-[t] fit over [n] points has length [n - 1]; the arc has curvature
    1; the clothoid starts with curvature -1 and rate 1, so that its two end
    signs differ from two points on. *)
#[export] Instance geometry : Geometry := {|
  startCurvature c := match getType c with LINE => 0 | _ => slot c 4 end;
  endCurvature c :=
    match getType c with
    | LINE => 0
    | ARC => slot c 4
    | CLOTHOID => slot c 4 + slot c 3 * slot c 5
    end;
  curve_length c := slot c 3;
  bestFit t pts :=
    let len := Qc_of_nat (length pts - 1) in
    match t with
    | LINE => mkCurve LINE [0; 0; 0; len]
    | ARC => mkCurve ARC [0; 0; 0; len; 1]
    | CLOTHOID => mkCurve CLOTHOID [0; 0; 0; len; -1; 1]
    end;
  bestFitZeroCurvature pts offset :=
    mkCurve CLOTHOID [0; 0; 0; Qc_of_nat (length pts - 1); - offset; 1];
  LSSolver_solve _ _ _ _ x0 := x0;
  Parameters_infinity := q 1000000
|}.

Definition sample (j : nat) : Qc * Qc := (Qc_of_nat j, 0).

(** The error of every curve over a span is [weight] times the squared
    number of segments of the span. *)
Definition errors (weight : Qc) : ErrorComputer := {|
  computeError _ i j := weight * (Qc_of_nat j - Qc_of_nat i) * (Qc_of_nat j - Qc_of_nat i);
  computeErrorVector _ _ _ := ([0], [[1]; [2]; [q 3]; [q 4]; [q 5]; [q 6]])
|}.

(** An open polyline of [n] samples at unit spacing. *)
Definition fitter_of (n : nat) (corner : nat -> bool) (weight threshold inflection : Qc)
  : Fitter := {|
  corners := corner;
  pts_size := n;
  circulator i := (fun j => (j, sample j)) <$> seq i (n - i);
  lengthFromTo i j := Qc_of_nat j - Qc_of_nat i;
  idxToParam i := Qc_of_nat i;
  errorComputer := errors weight;
  scaledParameter _ := threshold;
  params_get p :=
    match p with
    | INFLECTION_COST => inflection
    | ERROR_THRESHOLD => threshold
    | _ => 1
    end
|}.

Definition no_corner : nat -> bool := fun _ => false.
Definition corner_at (c : nat) : nat -> bool := fun j => bool_decide (j = c).

(** The spans an output is made of: type, start, end, points, signs. *)
Definition summary (f : FitPrimitive) : PrimitiveType * nat * nat * nat * Z * Z :=
  (getType (curve f), startIdx f, endIdx f, numPts f, startCurvSign f, endCurvSign f).

Definition spans {A} (r : Result (A * list Event)) : option (list (nat * nat)) :=
  match r with
  | Ok (_, ev) => Some ((fun f => (startIdx f, endIdx f)) <$> primitives ev)
  | Fault _ => None
  end.

(** Emitted candidates, and the inflection-split candidates that were built
    with the verdict the acceptance test of line 163 gives on each. *)
Definition report {A} (fitter : Fitter) (r : Result (A * list Event))
  : option (list (PrimitiveType * nat * nat * nat * Z * Z)
            * list (PrimitiveType * nat * nat * nat * Z * Z * Result bool)) :=
  match r with
  | Ok (_, ev) =>
      Some (summary <$> primitives ev,
            (fun s => (summary s, acceptance fitter s)) <$> omap split_tested ev)
  | Fault _ => None
  end.

Definition trace_of {A} (r : Result (A * list Event)) : list Event :=
  match r with Ok (_, ev) => ev | Fault _ => [] end.

Definition events_of (r : Result (list Event)) : list Event :=
  match r with Ok ev => ev | Fault _ => [] end.

Definition fitters_of (r : Result (Fitters * list Event)) : Fitters :=
  match r with Ok (fs, _) => fs | Fault _ => fresh_fitters end.

(** Weight 1 and threshold 1: a span of one segment passes the acceptance
    test, a span of two segments fails it. *)
Definition tight : Fitter := fitter_of 5 no_corner 1 1 0.

(** No error at all, inflection accounting enabled. *)
Definition exact_fit (corner : nat -> bool) : Fitter := fitter_of 5 corner 0 1 1.

(** Weight 3 and threshold 3: over a span of three segments the error
    divided by the length is 9, the squared threshold. *)
Definition on_threshold : Fitter := fitter_of 5 no_corner (q 3) (q 3) 1.

(** No error and a zero threshold, inflection accounting enabled. *)
Definition zero_threshold : Fitter := fitter_of 5 no_corner 0 0 1.

Definition a_clothoid : FitPrimitive :=
  {| curve := mkCurve CLOTHOID [0; 0; 0; 2; 1; q 3];
     startIdx := 0; endIdx := 2; numPts := 3;
     startCurvSign := 1; endCurvSign := 1; error := 0 |}.

Definition a_problem : OneCurveProblem := mkProblem a_clothoid (errors 0).

(** A working vector: length 2, start curvature 1, end curvature 7. *)
Definition a_working_vector : list Qc := [0; 0; 0; 2; 1; q 7].

Definition an_arc : FitPrimitive :=
  {| curve := mkCurve ARC [0; 0; 0; 2; 1];
     startIdx := 0; endIdx := 2; numPts := 3;
     startCurvSign := 1; endCurvSign := 1; error := 0 |}.

End Scenario.

(** More concrete settings: a type made too expensive to be needed, and a
    sample sequence too short to fit anything. *)

Module MoreScenarios.
Import Scenario.

(** [fitter] with the cost of type [t] raised to [Parameters::infinity]. *)
Definition without_type (fitter : Fitter) (t : PrimitiveType) : Fitter := {|
  corners := corners fitter;
  pts_size := pts_size fitter;
  circulator := circulator fitter;
  lengthFromTo := lengthFromTo fitter;
  idxToParam := idxToParam fitter;
  errorComputer := errorComputer fitter;
  scaledParameter := scaledParameter fitter;
  params_get p :=
    if decide (p = cost_parameter t) then Parameters_infinity else params_get fitter p
|}.

(** One sample only. *)
Definition single_sample : Fitter := fitter_of 1 no_corner 0 1 1.

Definition curve_of (r : Result CurvePrimitive) : CurvePrimitive :=
  match r with Ok c => c | Fault _ => mkCurve LINE [] end.

End MoreScenarios.

(** Concrete curves in double precision, with the parameter layout of
    [Scenario]. *)

Module DoubleScenario.
Import PrimFloat Doubles Scenario.
Local Open Scope float_scope.

(** The doubles nearest to 0.1, 0.2, 0.3 and 0.7. *)
Definition tenth : float := 0x1.999999999999ap-4.
Definition fifth : float := 0x1.999999999999ap-3.
Definition three_tenths : float := 0x1.3333333333333p-2.
Definition seven_tenths : float := 0x1.6666666666666p-1.

Definition no_error : ErrorComputer := {| computeError := fun _ _ _ => 0 |}.

(** A clothoid over the samples 0..2 with length [l], start curvature [k]
    and curvature rate [d], and an arc with length [l] and curvature [k]. *)
Definition clothoid (l k d : float) : FitPrimitive :=
  mkFit (mkCurve CLOTHOID [0; 0; 0; l; k; d]) 0 2 3 1 1 0.

Definition arc (l k : float) : FitPrimitive :=
  mkFit (mkCurve ARC [0; 0; 0; l; k]) 0 2 3 1 1 0.

Definition length_of (c : CurvePrimitive) : float := default 0 (curve_params c !! LENGTH).

(** A solver that makes no correction, and one that answers [x] whatever
    it is asked. *)
Definition idle (problem : OneCurveProblem) (constraints : list LSBoxConstraint)
    (damping : float) (maxIter : nat) (x0 : list float) : list float := x0.

Definition answers (x : list float) (problem : OneCurveProblem)
    (constraints : list LSBoxConstraint) (damping : float) (maxIter : nat)
    (x0 : list float) : list float := x.

(** Every fitted curve is straight and of length 1; the solver makes no
    correction. *)
#[export] Instance double_geometry : Doubles.Geometry := {|
  Doubles.startCurvature c := 0;
  Doubles.endCurvature c := 0;
  Doubles.curve_length := length_of;
  Doubles.bestFit t pts := mkCurve t [0; 0; 0; 1; 0; 0];
  Doubles.bestFitZeroCurvature pts offset := mkCurve CLOTHOID [0; 0; 0; 1; 0; 0];
  Doubles.LSSolver_solve := idle;
  Doubles.Parameters_infinity := infinity
|}.

(** Two samples at the same place: the span between them has length 0, and
    every curve fits it with error 0.  The error threshold is 1, every cost
    is 1 and inflection accounting is off. *)
Definition coincident : Fitter := {|
  corners := fun _ => false;
  pts_size := 2;
  circulator := fun i => (fun j => (j, (0, 0))) <$> seq i (2 - i);
  lengthFromTo := fun _ _ => 0;
  idxToParam := fun _ => 0;
  errorComputer := no_error;
  scaledParameter := fun _ => 1;
  params_get := fun p => match p with INFLECTION_COST => 0 | _ => 1 end
|}.

Definition trace_of (r : Result (list Event)) : list Event :=
  match r with Ok ev => ev | Fault _ => [] end.

End DoubleScenario.

(** * Properties *)

(** ** The error monad and the checked operations *)

Lemma bind_Ok {A B} (m : Result A) (k : A -> Result B) (b : B) :
  m ≫= k = Ok b <-> exists a, m = Ok a /\ k a = Ok b.
Proof.
  destruct m as [a|f]; simpl; split.
  - intros Hk. exists a. split; [reflexivity | exact Hk].
  - intros (a' & Ha & Hk). injection Ha as ->. exact Hk.
  - discriminate.
  - intros (a' & Ha & _). discriminate.
Qed.

Lemma coeff_Some {A} (v : list A) (i : nat) (a : A) :
  v !! i = Some a -> coeff v i = Ok a.
Proof. intros Hv. unfold coeff. rewrite Hv. reflexivity. Qed.

Lemma coeff_no_division {A} (v : list A) (i : nat) :
  coeff v i ≠ Fault DivisionByZero.
Proof. unfold coeff. destruct (v !! i); discriminate. Qed.

Lemma setCoeff_Some {A} (v : list A) (i : nat) (a b : A) :
  v !! i = Some b -> setCoeff v i a = Ok (<[i := a]> v).
Proof.
  intros Hv. unfold setCoeff.
  apply lookup_lt_Some in Hv. destruct (decide (i < length v)%nat); [reflexivity | lia].
Qed.

Lemma setCoeff_no_division {A} (v : list A) (i : nat) (a : A) :
  setCoeff v i a ≠ Fault DivisionByZero.
Proof. unfold setCoeff. destruct (decide _); discriminate. Qed.

Lemma divide_nonzero (a b : Qc) : b ≠ 0 -> divide a b = Ok (a / b).
Proof. intros Hb. unfold divide. destruct (decide (b = 0)); [contradiction | reflexivity]. Qed.

Lemma divide_zero (a : Qc) : divide a 0 = Fault DivisionByZero.
Proof. unfold divide. destruct (decide (0 = 0)); [reflexivity | contradiction]. Qed.

Lemma ltb_true (a b : Qc) : ltb a b = true <-> a < b.
Proof. unfold ltb. apply bool_decide_eq_true. Qed.

Lemma ltb_irrefl (a : Qc) : ltb a a = false.
Proof.
  unfold ltb. apply bool_decide_eq_false. intros Hlt.
  exact (Qclt_not_eq _ _ Hlt eq_refl).
Qed.

Lemma gtb_irrefl (a : Qc) : gtb a a = false.
Proof.
  unfold gtb. apply bool_decide_eq_false. intros Hlt.
  exact (Qclt_not_eq _ _ Hlt eq_refl).
Qed.

Lemma half_pos : 0 < half.
Proof. reflexivity. Qed.

(** ** OneCurveProblem: the reparametrization *)

Section ProblemProperties.
Context `{ParamLayout}.

Lemma problem_with_curve_id (p : OneCurveProblem) :
  problem_with_curve
    (curve_setParams (curve_params (curve (_primitive p))) (curve (_primitive p))) p = p.
Proof. destruct p as [[[t raw] i j n s e err] ec]. reflexivity. Qed.

Lemma params_clothoid (p : OneCurveProblem) (l k d : Qc) :
  getType (curve (_primitive p)) = CLOTHOID ->
  curve_params (curve (_primitive p)) !! LENGTH = Some l ->
  curve_params (curve (_primitive p)) !! CURVATURE = Some k ->
  curve_params (curve (_primitive p)) !! DCURVATURE = Some d ->
  OneCurveProblem_params p
  = Ok (<[DCURVATURE := k + l * d]> (curve_params (curve (_primitive p)))).
Proof.
  intros Ht Hl Hk Hd. unfold OneCurveProblem_params.
  destruct (decide (getType (curve (_primitive p)) ≠ CLOTHOID)) as [Hne|_]; [contradiction|].
  rewrite (coeff_Some _ _ _ Hk), (coeff_Some _ _ _ Hl), (coeff_Some _ _ _ Hd). simpl.
  apply (setCoeff_Some _ _ _ _ Hd).
Qed.

Lemma setParams_clothoid (p : OneCurveProblem) (x : VectorXd) (l k e : Qc) :
  getType (curve (_primitive p)) = CLOTHOID ->
  x !! LENGTH = Some l ->
  x !! CURVATURE = Some k ->
  x !! DCURVATURE = Some e ->
  l ≠ 0 ->
  OneCurveProblem_setParams x p
  = Ok (problem_with_curve
          (curve_setParams (<[DCURVATURE := (e - k) / l]> x) (curve (_primitive p))) p).
Proof.
  intros Ht Hl Hk He Hnz. unfold OneCurveProblem_setParams.
  destruct (decide (getType (curve (_primitive p)) ≠ CLOTHOID)) as [Hne|_]; [contradiction|].
  rewrite (coeff_Some _ _ _ He), (coeff_Some _ _ _ Hk), (coeff_Some _ _ _ Hl). simpl.
  rewrite (divide_nonzero _ _ Hnz). simpl.
  rewrite (setCoeff_Some _ _ _ _ He). reflexivity.
Qed.

Lemma setParams_other (p : OneCurveProblem) (x : VectorXd) :
  getType (curve (_primitive p)) ≠ CLOTHOID ->
  OneCurveProblem_setParams x p
  = Ok (problem_with_curve (curve_setParams x (curve (_primitive p))) p).
Proof.
  intros Ht. unfold OneCurveProblem_setParams.
  destruct (decide (getType (curve (_primitive p)) ≠ CLOTHOID)); [reflexivity | contradiction].
Qed.

Lemma params_other (p : OneCurveProblem) :
  getType (curve (_primitive p)) ≠ CLOTHOID ->
  OneCurveProblem_params p = Ok (curve_params (curve (_primitive p))).
Proof.
  intros Ht. unfold OneCurveProblem_params.
  destruct (decide (getType (curve (_primitive p)) ≠ CLOTHOID)); [reflexivity | contradiction].
Qed.

Lemma end_curvature_inverse (l k d : Qc) : l ≠ 0 -> (k + l * d - k) / l = d.
Proof. intros Hl. field. exact Hl. Qed.

Lemma end_curvature_forward (l k e : Qc) : l ≠ 0 -> k + l * ((e - k) / l) = e.
Proof. intros Hl. field. exact Hl. Qed.

(** The change of variables in exact arithmetic.  For a Clothoid whose
    LENGTH parameter is nonzero, [params()] returns the raw parameter vector
    with the DCURVATURE slot replaced by the end curvature, [setParams()]
    stores (end curvature minus start curvature) divided by length in that
    slot, and over the rationals each mapping undoes the other.  For a Line
    or an Arc both mappings are the identity. *)
Lemma exact_round_trip (p : OneCurveProblem) :
  let c := curve (_primitive p) in
  (getType c = CLOTHOID ->
   forall l k d : Qc,
     curve_params c !! LENGTH = Some l ->
     curve_params c !! CURVATURE = Some k ->
     curve_params c !! DCURVATURE = Some d ->
     l ≠ 0 ->
     OneCurveProblem_params p = Ok (<[DCURVATURE := k + l * d]> (curve_params c))
     /\ OneCurveProblem_setParams (<[DCURVATURE := k + l * d]> (curve_params c)) p = Ok p
     /\ (OneCurveProblem_params p ≫= fun x => OneCurveProblem_setParams x p) = Ok p
     /\ forall (x : VectorXd) (xl xk xe : Qc),
          x !! LENGTH = Some xl ->
          x !! CURVATURE = Some xk ->
          x !! DCURVATURE = Some xe ->
          xl ≠ 0 ->
          OneCurveProblem_setParams x p
          = Ok (problem_with_curve (curve_setParams (<[DCURVATURE := (xe - xk) / xl]> x) c) p)
          /\ (OneCurveProblem_setParams x p ≫= OneCurveProblem_params) = Ok x)
  /\ (getType c ≠ CLOTHOID ->
      OneCurveProblem_params p = Ok (curve_params c)
      /\ (forall x : VectorXd,
            OneCurveProblem_setParams x p = Ok (problem_with_curve (curve_setParams x c) p)
            /\ (OneCurveProblem_setParams x p ≫= OneCurveProblem_params) = Ok x)
      /\ (OneCurveProblem_params p ≫= fun x => OneCurveProblem_setParams x p) = Ok p).
Proof.
  cbv zeta. split.
  - intros Ht l k d Hl Hk Hd Hnz.
    assert (Hfwd := params_clothoid p l k d Ht Hl Hk Hd).
    assert (Hback : OneCurveProblem_setParams
                      (<[DCURVATURE := k + l * d]> (curve_params (curve (_primitive p)))) p
                    = Ok p).
    { rewrite (setParams_clothoid p _ l k (k + l * d) Ht); [| | | | exact Hnz].
      - rewrite end_curvature_inverse by exact Hnz.
        rewrite list_insert_insert_eq, (list_insert_id _ _ _ Hd).
        rewrite problem_with_curve_id. reflexivity.
      - rewrite list_lookup_insert_ne by (apply not_eq_sym, LENGTH_DCURVATURE). exact Hl.
      - rewrite list_lookup_insert_ne by (apply not_eq_sym, CURVATURE_DCURVATURE). exact Hk.
      - apply list_lookup_insert_eq. apply lookup_lt_Some in Hd. exact Hd. }
    split; [exact Hfwd|]. split; [exact Hback|]. split.
    + rewrite Hfwd. simpl. exact Hback.
    + intros x xl xk xe Hxl Hxk Hxe Hxnz.
      assert (Hset := setParams_clothoid p x xl xk xe Ht Hxl Hxk Hxe Hxnz).
      split; [exact Hset|]. rewrite Hset. simpl.
      rewrite (params_clothoid _ xl xk ((xe - xk) / xl)).
      * simpl. rewrite end_curvature_forward by exact Hxnz.
        rewrite list_insert_insert_eq, (list_insert_id _ _ _ Hxe). reflexivity.
      * exact Ht.
      * simpl. rewrite list_lookup_insert_ne by (apply not_eq_sym, LENGTH_DCURVATURE). exact Hxl.
      * simpl. rewrite list_lookup_insert_ne by (apply not_eq_sym, CURVATURE_DCURVATURE).
        exact Hxk.
      * simpl. apply list_lookup_insert_eq. apply lookup_lt_Some in Hxe. exact Hxe.
  - intros Ht. split; [exact (params_other p Ht)|]. split.
    + intros x. rewrite (setParams_other p x Ht). split; [reflexivity|]. simpl.
      apply params_other. exact Ht.
    + rewrite (params_other p Ht). simpl. rewrite (setParams_other p _ Ht).
      rewrite problem_with_curve_id. reflexivity.
Qed.

(** *** The Jacobian *)

Lemma one_over (l : Qc) : 1 / l = / l.
Proof. unfold Qcdiv. apply Qcmult_1_l. Qed.

Lemma reparametrize_jacobian_columns (x : VectorXd) (J : MatrixXd)
    (l k e : Qc) (cL cK cD : VectorXd) :
  x !! LENGTH = Some l -> x !! CURVATURE = Some k -> x !! DCURVATURE = Some e ->
  l ≠ 0 ->
  J !! LENGTH = Some cL -> J !! CURVATURE = Some cK -> J !! DCURVATURE = Some cD ->
  reparametrize_jacobian x J
  = Ok (<[LENGTH := vsub cL (vscale (vscale cD (/ l)) ((e - k) / l))]>
          (<[CURVATURE := vsub cK (vscale cD (/ l))]>
             (<[DCURVATURE := vscale cD (/ l)]> J))).
Proof.
  intros Hl Hk He Hnz HcL HcK HcD. unfold reparametrize_jacobian.
  pose proof LENGTH_CURVATURE as HLK. pose proof LENGTH_DCURVATURE as HLD.
  pose proof CURVATURE_DCURVATURE as HKD.
  assert (HD1 : forall v : VectorXd, <[DCURVATURE := v]> J !! DCURVATURE = Some v).
  { intros v. apply list_lookup_insert_eq. apply lookup_lt_Some in HcD. exact HcD. }
  rewrite (coeff_Some _ _ _ Hl). simpl.
  rewrite (divide_nonzero _ _ Hnz), one_over. simpl.
  rewrite (coeff_Some _ _ _ HcD). simpl.
  rewrite (setCoeff_Some _ _ _ _ HcD). simpl.
  rewrite (coeff_Some (<[DCURVATURE := _]> J) CURVATURE cK)
    by (rewrite list_lookup_insert_ne by congruence; exact HcK).
  simpl. rewrite (coeff_Some _ _ _ (HD1 _)). simpl.
  rewrite (setCoeff_Some _ CURVATURE _ cK)
    by (rewrite list_lookup_insert_ne by congruence; exact HcK).
  simpl. rewrite (coeff_Some _ _ _ He), (coeff_Some _ _ _ Hk). simpl.
  rewrite (coeff_Some _ LENGTH cL)
    by (rewrite !list_lookup_insert_ne by congruence; exact HcL).
  simpl.
  rewrite (coeff_Some _ DCURVATURE (vscale cD (/ l)))
    by (rewrite list_lookup_insert_ne by congruence; apply HD1).
  simpl.
  rewrite (setCoeff_Some _ LENGTH _ cL)
    by (rewrite !list_lookup_insert_ne by congruence; exact HcL).
  reflexivity.
Qed.

(** C5.  For a Clothoid evaluated at working parameters [x] with nonzero
    length, [eval] sets the curve to [x], takes the residual vector and the
    raw-parameter Jacobian from the error computer, and returns the Jacobian
    with: the curvature-rate column divided by length; that scaled column
    subtracted from the curvature column; the scaled column times
    (end-curvature parameter minus start-curvature parameter) divided by
    length subtracted from the length column; every other column as it was.
    For a Line or an Arc the Jacobian is returned untransformed. *)
Theorem eval_jacobian_chain_rule (p : OneCurveProblem) (x : VectorXd) :
  (getType (curve (_primitive p)) = CLOTHOID ->
   forall (l k e : Qc) (cL cK cD : VectorXd),
     x !! LENGTH = Some l -> x !! CURVATURE = Some k -> x !! DCURVATURE = Some e ->
     l ≠ 0 ->
     let p' := problem_with_curve
                 (curve_setParams (<[DCURVATURE := (e - k) / l]> x) (curve (_primitive p))) p in
     let raw := computeErrorVector (_errorComputer p) (curve (_primitive p'))
                  (startIdx (_primitive p)) (endIdx (_primitive p)) in
     raw.2 !! LENGTH = Some cL ->
     raw.2 !! CURVATURE = Some cK ->
     raw.2 !! DCURVATURE = Some cD ->
     let scaled : VectorXd := (fun a => a / l) <$> cD in
     exists J' : MatrixXd,
       OneCurveProblem_eval x p = Ok (p', mkEvalData raw.1 J')
       /\ J' !! DCURVATURE = Some scaled
       /\ J' !! CURVATURE = Some (vsub cK scaled)
       /\ J' !! LENGTH = Some (vsub cL ((fun a => a * ((e - k) / l)) <$> scaled))
       /\ (forall j, j ≠ LENGTH -> j ≠ CURVATURE -> j ≠ DCURVATURE -> J' !! j = raw.2 !! j))
  /\ (getType (curve (_primitive p)) ≠ CLOTHOID ->
      let p' := problem_with_curve (curve_setParams x (curve (_primitive p))) p in
      let raw := computeErrorVector (_errorComputer p) (curve (_primitive p'))
                   (startIdx (_primitive p)) (endIdx (_primitive p)) in
      OneCurveProblem_eval x p = Ok (p', mkEvalData raw.1 raw.2)).
Proof.
  pose proof LENGTH_CURVATURE as HLK. pose proof LENGTH_DCURVATURE as HLD.
  pose proof CURVATURE_DCURVATURE as HKD.
  split.
  - intros Ht l k e cL cK cD Hl Hk He Hnz. cbv zeta.
    remember (computeErrorVector (_errorComputer p)
                (curve (_primitive (problem_with_curve
                   (curve_setParams (<[DCURVATURE := (e - k) / l]> x) (curve (_primitive p))) p)))
                (startIdx (_primitive p)) (endIdx (_primitive p))) as raw eqn:Hraw.
    destruct raw as [r J]. simpl. intros HcL HcK HcD.
    eexists. split.
    + unfold OneCurveProblem_eval.
      rewrite (setParams_clothoid p x l k e Ht Hl Hk He Hnz). simpl.
      simpl in Hraw. rewrite <- Hraw.
      destruct (decide (getType (curve (_primitive p)) = CLOTHOID)) as [_|Hne];
        [|contradiction].
      rewrite (reparametrize_jacobian_columns x J l k e cL cK cD
                 Hl Hk He Hnz HcL HcK HcD).
      reflexivity.
    + assert (HltD : (DCURVATURE < length J)%nat) by (eapply lookup_lt_Some; exact HcD).
      assert (HltK : (CURVATURE < length J)%nat) by (eapply lookup_lt_Some; exact HcK).
      assert (HltL : (LENGTH < length J)%nat) by (eapply lookup_lt_Some; exact HcL).
      repeat split.
      * rewrite !list_lookup_insert_ne by congruence.
        apply list_lookup_insert_eq. exact HltD.
      * rewrite list_lookup_insert_ne by congruence.
        apply list_lookup_insert_eq. rewrite length_insert. exact HltK.
      * apply list_lookup_insert_eq. rewrite !length_insert. exact HltL.
      * intros j HjL HjK HjD. rewrite !list_lookup_insert_ne by congruence. reflexivity.
  - intros Ht. cbv zeta. unfold OneCurveProblem_eval.
    rewrite (setParams_other p x Ht). simpl.
    destruct (computeErrorVector _ _ _ _) as [r J]. simpl.
    destruct (decide (getType (curve (_primitive p)) = CLOTHOID)); [contradiction | reflexivity].
Qed.

End ProblemProperties.

(** ** The reparametrization in double precision *)

Section DoubleProblem.
Import PrimFloat Doubles.
Context `{ParamLayout}.

Lemma double_problem_with_curve_id (p : Doubles.OneCurveProblem) :
  problem_with_curve
    (curve_setParams (curve_params (curve (_primitive p))) (curve (_primitive p))) p = p.
Proof. destruct p as [[[t raw] i j n s e err] ec]. reflexivity. Qed.

Lemma double_params_clothoid (p : Doubles.OneCurveProblem) (l k d : float) :
  getType (curve (_primitive p)) = CLOTHOID ->
  curve_params (curve (_primitive p)) !! LENGTH = Some l ->
  curve_params (curve (_primitive p)) !! CURVATURE = Some k ->
  curve_params (curve (_primitive p)) !! DCURVATURE = Some d ->
  OneCurveProblem_params p
  = Ok (<[DCURVATURE := (k + l * d)%float]> (curve_params (curve (_primitive p)))).
Proof.
  intros Ht Hl Hk Hd. unfold OneCurveProblem_params.
  destruct (decide (getType (curve (_primitive p)) ≠ CLOTHOID)) as [Hne|_]; [contradiction|].
  rewrite (coeff_Some _ _ _ Hk), (coeff_Some _ _ _ Hl), (coeff_Some _ _ _ Hd).
  cbn [mbind Result_bind]. apply (setCoeff_Some _ _ _ _ Hd).
Qed.

Lemma double_setParams_clothoid (p : Doubles.OneCurveProblem) (x : list float)
    (l k e : float) :
  getType (curve (_primitive p)) = CLOTHOID ->
  x !! LENGTH = Some l ->
  x !! CURVATURE = Some k ->
  x !! DCURVATURE = Some e ->
  OneCurveProblem_setParams x p
  = Ok (problem_with_curve
          (curve_setParams (<[DCURVATURE := ((e - k) / l)%float]> x) (curve (_primitive p))) p).
Proof.
  intros Ht Hl Hk He. unfold OneCurveProblem_setParams.
  destruct (decide (getType (curve (_primitive p)) ≠ CLOTHOID)) as [Hne|_]; [contradiction|].
  rewrite (coeff_Some _ _ _ He), (coeff_Some _ _ _ Hk), (coeff_Some _ _ _ Hl).
  cbn [mbind Result_bind]. rewrite (setCoeff_Some _ _ _ _ He). reflexivity.
Qed.

Lemma double_setParams_other (p : Doubles.OneCurveProblem) (x : list float) :
  getType (curve (_primitive p)) ≠ CLOTHOID ->
  OneCurveProblem_setParams x p
  = Ok (problem_with_curve (curve_setParams x (curve (_primitive p))) p).
Proof.
  intros Ht. unfold OneCurveProblem_setParams.
  destruct (decide (getType (curve (_primitive p)) ≠ CLOTHOID)); [reflexivity | contradiction].
Qed.

Lemma double_params_other (p : Doubles.OneCurveProblem) :
  getType (curve (_primitive p)) ≠ CLOTHOID ->
  OneCurveProblem_params p = Ok (curve_params (curve (_primitive p))).
Proof.
  intros Ht. unfold OneCurveProblem_params.
  destruct (decide (getType (curve (_primitive p)) ≠ CLOTHOID)); [reflexivity | contradiction].
Qed.

(** [setParams] after [params] on a Clothoid: the curvature rate [d] is
    replaced by [((k + l * d) - k) / l], every operation rounded. *)
Lemma double_setParams_after_params (p : Doubles.OneCurveProblem) (l k d : float) :
  getType (curve (_primitive p)) = CLOTHOID ->
  curve_params (curve (_primitive p)) !! LENGTH = Some l ->
  curve_params (curve (_primitive p)) !! CURVATURE = Some k ->
  curve_params (curve (_primitive p)) !! DCURVATURE = Some d ->
  (OneCurveProblem_params p ≫= fun x => OneCurveProblem_setParams x p)
  = Ok (problem_with_curve
          (curve_setParams
             (<[DCURVATURE := ((k + l * d - k) / l)%float]> (curve_params (curve (_primitive p))))
             (curve (_primitive p))) p).
Proof.
  intros Ht Hl Hk Hd. rewrite (double_params_clothoid p l k d Ht Hl Hk Hd).
  cbn [mbind Result_bind].
  rewrite (double_setParams_clothoid p _ l k (k + l * d)%float Ht).
  - rewrite list_insert_insert_eq. reflexivity.
  - rewrite list_lookup_insert_ne by (apply not_eq_sym, LENGTH_DCURVATURE). exact Hl.
  - rewrite list_lookup_insert_ne by (apply not_eq_sym, CURVATURE_DCURVATURE). exact Hk.
  - apply list_lookup_insert_eq. apply lookup_lt_Some in Hd. exact Hd.
Qed.

(** Two doubles that [==] tells apart are different. *)
Lemma double_differs (a b : float) : (a =? b)%float = false -> (b =? b)%float = true -> a ≠ b.
Proof. intros Hab Hbb ->. rewrite Hbb in Hab. discriminate Hab. Qed.

End DoubleProblem.

Section RoundTrip.
Import PrimFloat.
Context `{ParamLayout}.

(** C4.  In the code's double arithmetic [params()] returns the raw
    parameter vector of a Clothoid with the DCURVATURE slot replaced by
    [k + l * d] (start curvature plus length times curvature rate), and
    [setParams()] stores [(e - k) / l] in that slot, every other entry as
    passed.  The composition [setParams(params())] therefore leaves every
    raw parameter but the curvature rate as it was and replaces the rate [d]
    by [((k + l * d) - k) / l], sum, difference and quotient each rounded.
    That value is [d] in exact arithmetic when the length is nonzero, where
    the composition is the identity.  For a Line or an Arc both mappings are
    the identity in doubles too. *)
Theorem round_trip_up_to_rounding :
  (forall p : Doubles.OneCurveProblem,
     let c := Doubles.curve (Doubles._primitive p) in
     let raw := Doubles.curve_params c in
     (Doubles.getType c = CLOTHOID ->
      forall l k d : float,
        raw !! LENGTH = Some l -> raw !! CURVATURE = Some k -> raw !! DCURVATURE = Some d ->
        Doubles.OneCurveProblem_params p = Ok (<[DCURVATURE := (k + l * d)%float]> raw)
        /\ (forall (x : list float) (xl xk xe : float),
              x !! LENGTH = Some xl -> x !! CURVATURE = Some xk -> x !! DCURVATURE = Some xe ->
              Doubles.OneCurveProblem_setParams x p
              = Ok (Doubles.problem_with_curve
                      (Doubles.curve_setParams (<[DCURVATURE := ((xe - xk) / xl)%float]> x) c) p))
        /\ (Doubles.OneCurveProblem_params p ≫= fun x => Doubles.OneCurveProblem_setParams x p)
           = Ok (Doubles.problem_with_curve
                   (Doubles.curve_setParams
                      (<[DCURVATURE := ((k + l * d - k) / l)%float]> raw) c) p))
     /\ (Doubles.getType c ≠ CLOTHOID ->
         Doubles.OneCurveProblem_params p = Ok raw
         /\ (forall x : list float,
               Doubles.OneCurveProblem_setParams x p
               = Ok (Doubles.problem_with_curve (Doubles.curve_setParams x c) p))
         /\ (Doubles.OneCurveProblem_params p ≫= fun x => Doubles.OneCurveProblem_setParams x p)
            = Ok p))
  /\ (forall (p : OneCurveProblem) (l k d : Qc),
        getType (curve (_primitive p)) = CLOTHOID ->
        curve_params (curve (_primitive p)) !! LENGTH = Some l ->
        curve_params (curve (_primitive p)) !! CURVATURE = Some k ->
        curve_params (curve (_primitive p)) !! DCURVATURE = Some d ->
        l ≠ 0 ->
        (k + l * d - k) / l = d
        /\ (OneCurveProblem_params p ≫= fun x => OneCurveProblem_setParams x p) = Ok p).
Proof.
  split.
  - intros p. cbv zeta. split.
    + intros Ht l k d Hl Hk Hd.
      split; [exact (double_params_clothoid p l k d Ht Hl Hk Hd)|]. split.
      * intros x xl xk xe Hxl Hxk Hxe.
        exact (double_setParams_clothoid p x xl xk xe Ht Hxl Hxk Hxe).
      * exact (double_setParams_after_params p l k d Ht Hl Hk Hd).
    + intros Ht. split; [exact (double_params_other p Ht)|]. split.
      * intros x. exact (double_setParams_other p x Ht).
      * rewrite (double_params_other p Ht). cbn [mbind Result_bind].
        rewrite (double_setParams_other p _ Ht), double_problem_with_curve_id.
        reflexivity.
  - intros p l k d Ht Hl Hk Hd Hnz.
    split; [exact (end_curvature_inverse l k d Hnz)|].
    destruct (exact_round_trip p) as [Hclothoid _].
    exact (proj1 (proj2 (proj2 (Hclothoid Ht l k d Hl Hk Hd Hnz)))).
Qed.

End RoundTrip.

(** ** The constrained refiner *)

Lemma bind_no_division {A B} (m : Result A) (k : A -> Result B) :
  m ≠ Fault DivisionByZero ->
  (forall a, m = Ok a -> k a ≠ Fault DivisionByZero) ->
  m ≫= k ≠ Fault DivisionByZero.
Proof.
  intros Hm Hk. destruct m as [a|f]; simpl.
  - apply Hk. reflexivity.
  - intros [= ->]. apply Hm. reflexivity.
Qed.

Ltac no_division :=
  repeat first
    [ apply coeff_no_division
    | apply setCoeff_no_division
    | discriminate
    | apply bind_no_division; [| intros ? ?] ].

Section RefinerProperties.
Context `{ParamLayout} `{Geometry}.

Lemma setParams_no_division (p : OneCurveProblem) (x : VectorXd) (l : Qc) :
  x !! LENGTH = Some l -> l ≠ 0 ->
  OneCurveProblem_setParams x p ≠ Fault DivisionByZero.
Proof.
  intros Hl Hnz. unfold OneCurveProblem_setParams.
  destruct (decide (getType (curve (_primitive p)) ≠ CLOTHOID)); [discriminate|].
  no_division.
  match goal with Hc : coeff x LENGTH = Ok ?a |- _ =>
    rewrite (coeff_Some _ _ _ Hl) in Hc; injection Hc as <- end.
  rewrite (divide_nonzero _ _ Hnz). discriminate.
Qed.

Lemma reparametrize_jacobian_no_division (x : VectorXd) (J : MatrixXd) (l : Qc) :
  x !! LENGTH = Some l -> l ≠ 0 ->
  reparametrize_jacobian x J ≠ Fault DivisionByZero.
Proof.
  intros Hl Hnz. unfold reparametrize_jacobian.
  rewrite (coeff_Some _ _ _ Hl). simpl. rewrite (divide_nonzero _ _ Hnz). simpl.
  no_division.
Qed.

Lemma eval_no_division (p : OneCurveProblem) (x : VectorXd) (l : Qc) :
  x !! LENGTH = Some l -> l ≠ 0 ->
  OneCurveProblem_eval x p ≠ Fault DivisionByZero.
Proof.
  intros Hl Hnz. unfold OneCurveProblem_eval.
  apply bind_no_division; [exact (setParams_no_division p x l Hl Hnz)|].
  intros p' _. destruct (computeErrorVector _ _ _ _) as [r J].
  destruct (decide _); [|discriminate].
  apply bind_no_division; [exact (reparametrize_jacobian_no_division x J l Hl Hnz)|].
  discriminate.
Qed.

Lemma error_no_division (p : OneCurveProblem) (x : VectorXd) (l : Qc) :
  x !! LENGTH = Some l -> l ≠ 0 ->
  OneCurveProblem_error x p ≠ Fault DivisionByZero.
Proof.
  intros Hl Hnz. unfold OneCurveProblem_error.
  apply bind_no_division; [exact (setParams_no_division p x l Hl Hnz)|]. discriminate.
Qed.

Lemma params_no_division (p : OneCurveProblem) :
  OneCurveProblem_params p ≠ Fault DivisionByZero.
Proof.
  unfold OneCurveProblem_params. destruct (decide _); [discriminate|]. no_division.
Qed.

Lemma setParams_zero_length (p : OneCurveProblem) (x : VectorXd) (k e : Qc) :
  getType (curve (_primitive p)) = CLOTHOID ->
  x !! LENGTH = Some 0 -> x !! CURVATURE = Some k -> x !! DCURVATURE = Some e ->
  OneCurveProblem_setParams x p = Fault DivisionByZero.
Proof.
  intros Ht Hl Hk He. unfold OneCurveProblem_setParams.
  destruct (decide (getType (curve (_primitive p)) ≠ CLOTHOID)); [contradiction|].
  rewrite (coeff_Some _ _ _ He), (coeff_Some _ _ _ Hk), (coeff_Some _ _ _ Hl).
  cbn [mbind Result_bind]. rewrite divide_zero. reflexivity.
Qed.

Lemma minimum_length_first (primitive : FitPrimitive) (fitter : Fitter) :
  exists rest, adjust_constraints primitive fitter = minimum_length primitive :: rest.
Proof.
  unfold adjust_constraints, minimum_length.
  destruct (inflectionAccounting fitter); [|eexists; reflexivity].
  destruct (decide (type_index ARC ≤ _)%nat); destruct (decide (_ = CLOTHOID));
    eexists; reflexivity.
Qed.

Lemma minimum_length_positive (primitive : FitPrimitive) (x : VectorXd) :
  0 < curve_length (curve primitive) ->
  satisfies x (minimum_length primitive) ->
  exists l, x !! LENGTH = Some l /\ curve_length (curve primitive) * half ≤ l /\ 0 < l.
Proof.
  intros Hpos Hsat. unfold satisfies, minimum_length in Hsat. simpl in Hsat.
  destruct (x !! LENGTH) as [l|]; [|contradiction].
  exists l. split; [reflexivity|]. split; [exact Hsat|].
  eapply Qclt_le_trans; [|exact Hsat].
  apply Qcmult_pos_pos; [exact Hpos | exact half_pos].
Qed.

Lemma feasible_length_nonzero (primitive : FitPrimitive) (fitter : Fitter) (x : VectorXd) :
  0 < curve_length (curve primitive) ->
  Forall (satisfies x) (adjust_constraints primitive fitter) ->
  exists l, x !! LENGTH = Some l /\ l ≠ 0.
Proof.
  intros Hpos Hall. destruct (minimum_length_first primitive fitter) as [rest Hrest].
  rewrite Hrest in Hall. inversion Hall as [|b bs Hmin Hothers]; subst.
  destruct (minimum_length_positive primitive x Hpos Hmin) as (l & Hl & _ & Hlt).
  exists l. split; [exact Hl|]. intros ->. exact (Qclt_not_eq _ _ Hlt eq_refl).
Qed.

(** C2 (as amended).  Every refinement passes the solver a list that
    contains the minimum-length constraint, with bound 0.5 times the curve's
    current length; when inflection accounting is enabled and the candidate
    is a Clothoid the list also contains the constraint that keeps the
    DCURVATURE slot (the end curvature of the working vector) on the side of
    zero given by [endCurvSign]; when inflection accounting is disabled the
    minimum-length constraint is the only one, whatever the type. *)
Theorem adjust_constraints_contents (primitive : FitPrimitive) (fitter : Fitter) :
  mkBox LENGTH (curve_length (curve primitive) * half) 1
    ∈ adjust_constraints primitive fitter
  /\ (inflectionAccounting fitter = true ->
      getType (curve primitive) = CLOTHOID ->
      mkBox DCURVATURE 0 (endCurvSign primitive) ∈ adjust_constraints primitive fitter)
  /\ (inflectionAccounting fitter = false ->
      adjust_constraints primitive fitter
      = [mkBox LENGTH (curve_length (curve primitive) * half) 1])
  /\ adjustPrimitive primitive fitter
     = (let problem := mkProblem primitive (errorComputer fitter) in
        x0 ← OneCurveProblem_params problem;
        problem ← OneCurveProblem_setParams
                    (LSSolver_solve problem (adjust_constraints primitive fitter)
                       (params_get fitter CURVE_ADJUST_DAMPING) 1 x0) problem;
        Ok (curve (_primitive problem))).
Proof.
  split; [|split; [|split]].
  - destruct (minimum_length_first primitive fitter) as [rest ->].
    apply list_elem_of_here.
  - intros Hinfl Ht. unfold adjust_constraints. rewrite Hinfl.
    destruct (decide (getType (curve primitive) = CLOTHOID)); [|contradiction].
    apply elem_of_app. right. apply list_elem_of_here.
  - intros Hinfl. unfold adjust_constraints. rewrite Hinfl. reflexivity.
  - reflexivity.
Qed.

(** C10.  For a Clothoid candidate, [setParams] and [eval] divide by the
    LENGTH entry of the working vector without a guard: with LENGTH zero
    they end in the division-by-zero branch.  When LENGTH is nonzero that
    branch is not taken by [setParams], [eval] or [error]; a working vector
    that satisfies the constraints built by [adjustPrimitive] for a curve of
    positive length has LENGTH at least half that length, hence nonzero; and
    [adjustPrimitive] itself does not take the branch when the solver's
    answer satisfies the constraints. *)
Theorem length_division_unreachable (primitive : FitPrimitive) (fitter : Fitter)
    (x : VectorXd) :
  let problem := mkProblem primitive (errorComputer fitter) in
  getType (curve primitive) = CLOTHOID ->
  (forall k e : Qc,
     x !! LENGTH = Some 0 -> x !! CURVATURE = Some k -> x !! DCURVATURE = Some e ->
     OneCurveProblem_setParams x problem = Fault DivisionByZero
     /\ OneCurveProblem_eval x problem = Fault DivisionByZero)
  /\ (forall l : Qc,
        x !! LENGTH = Some l -> l ≠ 0 ->
        OneCurveProblem_setParams x problem ≠ Fault DivisionByZero
        /\ OneCurveProblem_eval x problem ≠ Fault DivisionByZero
        /\ OneCurveProblem_error x problem ≠ Fault DivisionByZero)
  /\ (0 < curve_length (curve primitive) ->
      Forall (satisfies x) (adjust_constraints primitive fitter) ->
      (exists l : Qc, x !! LENGTH = Some l /\ curve_length (curve primitive) * half ≤ l /\ l ≠ 0)
      /\ OneCurveProblem_setParams x problem ≠ Fault DivisionByZero
      /\ OneCurveProblem_eval x problem ≠ Fault DivisionByZero
      /\ OneCurveProblem_error x problem ≠ Fault DivisionByZero)
  /\ (0 < curve_length (curve primitive) ->
      (forall x0 : VectorXd,
         OneCurveProblem_params problem = Ok x0 ->
         Forall (satisfies (LSSolver_solve problem (adjust_constraints primitive fitter)
                              (params_get fitter CURVE_ADJUST_DAMPING) 1 x0))
                (adjust_constraints primitive fitter)) ->
      adjustPrimitive primitive fitter ≠ Fault DivisionByZero).
Proof.
  intros problem Ht. split; [|split; [|split]].
  - intros k e Hl Hk He.
    assert (Hset : OneCurveProblem_setParams x problem = Fault DivisionByZero)
      by (apply (setParams_zero_length problem x k e); assumption).
    split; [exact Hset|]. unfold OneCurveProblem_eval. rewrite Hset. reflexivity.
  - intros l Hl Hnz. split; [|split].
    + exact (setParams_no_division problem x l Hl Hnz).
    + exact (eval_no_division problem x l Hl Hnz).
    + exact (error_no_division problem x l Hl Hnz).
  - intros Hpos Hall.
    destruct (minimum_length_first primitive fitter) as [rest Hrest].
    rewrite Hrest in Hall. inversion Hall as [|b bs Hmin Hothers]; subst.
    destruct (minimum_length_positive primitive x Hpos Hmin) as (l & Hl & Hle & Hlt).
    assert (Hnz : l ≠ 0) by (intros ->; exact (Qclt_not_eq _ _ Hlt eq_refl)).
    split; [exists l; auto|]. split; [|split].
    + exact (setParams_no_division problem x l Hl Hnz).
    + exact (eval_no_division problem x l Hl Hnz).
    + exact (error_no_division problem x l Hl Hnz).
  - intros Hpos Hsolver. unfold adjustPrimitive. fold problem.
    apply bind_no_division; [apply params_no_division|].
    intros x0 Hx0. apply bind_no_division; [|discriminate].
    destruct (feasible_length_nonzero primitive fitter _ Hpos (Hsolver x0 Hx0))
      as (l & Hl & Hnz).
    exact (setParams_no_division problem _ l Hl Hnz).
Qed.

End RefinerProperties.

(** ** Further properties of the problem and of the refiner *)

Lemma divide_Ok_inv (a b q : Qc) : divide a b = Ok q -> b ≠ 0 /\ q = a / b.
Proof.
  unfold divide. destruct (decide (b = 0)); [discriminate|].
  intros [= <-]. split; [assumption | reflexivity].
Qed.

Section ProblemExtras.
Context `{ParamLayout}.

Lemma setParams_forgets (p : OneCurveProblem) (xm y : list Qc) :
  OneCurveProblem_setParams y
    (problem_with_curve (curve_setParams xm (curve (_primitive p))) p)
  = OneCurveProblem_setParams y p.
Proof.
  unfold OneCurveProblem_setParams. simpl.
  destruct (decide (getType (curve (_primitive p)) ≠ CLOTHOID)); reflexivity.
Qed.

Lemma setParams_Ok_shape (x : list Qc) (p p' : OneCurveProblem) :
  OneCurveProblem_setParams x p = Ok p' ->
  exists xm : list Qc,
    p' = problem_with_curve (curve_setParams xm (curve (_primitive p))) p.
Proof.
  unfold OneCurveProblem_setParams.
  destruct (decide (getType (curve (_primitive p)) ≠ CLOTHOID)).
  - intros [= <-]. eexists. reflexivity.
  - intros Hb.
    apply bind_Ok in Hb as (d & _ & Hb). apply bind_Ok in Hb as (k & _ & Hb).
    apply bind_Ok in Hb as (l & _ & Hb). apply bind_Ok in Hb as (q & _ & Hb).
    apply bind_Ok in Hb as (xm & _ & Hb). injection Hb as <-. eexists. reflexivity.
Qed.

(** X12.  The problem keeps no memory of the solver's probes: after any
    successful [setParams(x)] (hence after any [error(x)] or [eval(x)]), the
    calls [setParams(y)], [error(y)] and [eval(y)] return what they would
    have returned on the problem as it was, values and resulting state
    alike.  What the solver gets depends on the vector it passes only. *)
Theorem probes_leave_no_trace (p p1 : OneCurveProblem) (x y : list Qc) :
  OneCurveProblem_setParams x p = Ok p1 ->
  OneCurveProblem_setParams y p1 = OneCurveProblem_setParams y p
  /\ OneCurveProblem_error y p1 = OneCurveProblem_error y p
  /\ OneCurveProblem_eval y p1 = OneCurveProblem_eval y p.
Proof.
  intros Hset. apply setParams_Ok_shape in Hset as [xm ->].
  pose proof (setParams_forgets p xm y) as Hsame.
  split; [exact Hsame|]. split.
  - unfold OneCurveProblem_error. rewrite Hsame. reflexivity.
  - unfold OneCurveProblem_eval. rewrite Hsame. reflexivity.
Qed.

Lemma coeff_Ok_inv {A} (v : list A) (i : nat) (a : A) : coeff v i = Ok a -> v !! i = Some a.
Proof. unfold coeff. destruct (v !! i); [intros [= ->]; reflexivity | discriminate]. Qed.

Lemma setCoeff_Ok_inv {A} (v w : list A) (i : nat) (a : A) :
  setCoeff v i a = Ok w -> w = <[i := a]> v /\ (i < length v)%nat.
Proof.
  unfold setCoeff. destruct (decide (i < length v)%nat); [|discriminate].
  intros [= <-]. split; [reflexivity | assumption].
Qed.

End ProblemExtras.

Section RefinerExtras.
Context `{ParamLayout} `{Geometry}.

(** X15.  The constraints depend on the type: a Line is constrained in
    length only, an Arc never gets a constraint on the DCURVATURE slot, and
    no parameter is ever constrained twice. *)
Theorem constraints_per_type (primitive : FitPrimitive) (fitter : Fitter) :
  (getType (curve primitive) = LINE ->
   adjust_constraints primitive fitter
   = [mkBox LENGTH (curve_length (curve primitive) * half) 1])
  /\ (getType (curve primitive) = ARC ->
      forall b, b ∈ adjust_constraints primitive fitter -> box_index b ≠ DCURVATURE)
  /\ NoDup (box_index <$> adjust_constraints primitive fitter)
  /\ (1 ≤ length (adjust_constraints primitive fitter) ≤ 3)%nat.
Proof.
  pose proof LENGTH_CURVATURE as HLK. pose proof LENGTH_DCURVATURE as HLD.
  pose proof CURVATURE_DCURVATURE as HKD.
  unfold adjust_constraints.
  destruct (inflectionAccounting fitter), (getType (curve primitive)) eqn:Ht; simpl;
    (split; [intros; first [reflexivity | discriminate]|]);
    (split; [intros Harc b Hb; try discriminate Harc;
             repeat (apply elem_of_cons in Hb as [->|Hb]; [simpl; congruence|]);
             apply elem_of_nil in Hb; contradiction|]);
    (split; [|lia]);
    repeat (apply NoDup_cons; split;
            [rewrite ?elem_of_cons, ?elem_of_nil; intuition congruence|]);
    apply NoDup_nil; exact I.
Qed.

(** X16.  The refinement starts from a feasible point.  When the curve
    stores its length in the LENGTH slot and its start curvature in the
    CURVATURE slot, when the end curvature of a Clothoid is start curvature
    plus length times the DCURVATURE slot, and when the candidate's signs
    are those of its curve (lines 154-155), the vector [params()] hands to
    the solver satisfies every constraint of the list built for it: the
    DCURVATURE slot of the working vector is the end curvature that
    [endCurvSign] describes. *)
Theorem start_point_feasible (primitive : FitPrimitive) (fitter : Fitter) (d : Qc) :
  let c := curve primitive in
  curve_params c !! LENGTH = Some (curve_length c) ->
  0 ≤ curve_length c ->
  (getType c ≠ LINE -> curve_params c !! CURVATURE = Some (startCurvature c)) ->
  (getType c = CLOTHOID ->
   curve_params c !! DCURVATURE = Some d
   /\ endCurvature c = startCurvature c + curve_length c * d) ->
  startCurvSign primitive = (if geb (startCurvature c) 0 then 1 else -1)%Z ->
  endCurvSign primitive = (if geb (endCurvature c) 0 then 1 else -1)%Z ->
  exists x0,
    OneCurveProblem_params (mkProblem primitive (errorComputer fitter)) = Ok x0
    /\ Forall (satisfies x0) (adjust_constraints primitive fitter).
Proof.
  intros c Hlen Hpos Hcurv Hclo Hs He.
  pose proof LENGTH_CURVATURE as HLK. pose proof LENGTH_DCURVATURE as HLD.
  pose proof CURVATURE_DCURVATURE as HKD.
  assert (Hhalf : curve_length c * half ≤ curve_length c).
  { rewrite <- (Qcmult_1_r (curve_length c)) at 2.
    apply Qcmult_le_mono_nonneg_l; [exact Hpos|]. intros Hgt. discriminate Hgt. }
  assert (Hsign : forall (v : Qc) (x : list Qc) (j : nat),
            x !! j = Some v ->
            satisfies x (mkBox j 0 (if geb v 0 then 1 else -1)%Z)).
  { intros v x j Hj. unfold satisfies. simpl. rewrite Hj. unfold geb.
    destruct (bool_decide (0 ≤ v)) eqn:Hv.
    - apply bool_decide_eq_true in Hv. destruct (decide (0 ≤ 1)%Z); [exact Hv | lia].
    - apply bool_decide_eq_false in Hv. destruct (decide (0 ≤ -1)%Z); [lia|].
      apply Qclt_le_weak. apply Qcnot_le_lt. exact Hv. }
  assert (Hmin : forall x : list Qc,
            x !! LENGTH = Some (curve_length c) ->
            satisfies x (mkBox LENGTH (curve_length c * half) 1)).
  { intros x Hx. unfold satisfies. simpl. rewrite Hx.
    destruct (decide (0 ≤ 1)%Z); [exact Hhalf | lia]. }
  unfold adjust_constraints. fold c. rewrite Hs, He.
  destruct (getType c) eqn:Ht.
  - exists (curve_params c). split; [apply params_other; simpl; fold c; congruence|].
    destruct (inflectionAccounting fitter); simpl;
      repeat (apply Forall_cons; split; [auto|]); apply Forall_nil; exact I.
  - specialize (Hcurv ltac:(discriminate)).
    exists (curve_params c). split; [apply params_other; simpl; fold c; congruence|].
    destruct (inflectionAccounting fitter); simpl;
      repeat (apply Forall_cons; split; [auto|]); apply Forall_nil; exact I.
  - specialize (Hcurv ltac:(discriminate)). destruct (Hclo eq_refl) as [Hd Hend].
    exists (<[DCURVATURE := startCurvature c + curve_length c * d]> (curve_params c)).
    split.
    { apply (params_clothoid (mkProblem primitive (errorComputer fitter))); assumption. }
    assert (HxL : <[DCURVATURE := startCurvature c + curve_length c * d]> (curve_params c)
                  !! LENGTH = Some (curve_length c))
      by (rewrite list_lookup_insert_ne by congruence; exact Hlen).
    assert (HxK : <[DCURVATURE := startCurvature c + curve_length c * d]> (curve_params c)
                  !! CURVATURE = Some (startCurvature c))
      by (rewrite list_lookup_insert_ne by congruence; exact Hcurv).
    assert (HxD : <[DCURVATURE := startCurvature c + curve_length c * d]> (curve_params c)
                  !! DCURVATURE = Some (endCurvature c)).
    { rewrite Hend. apply list_lookup_insert_eq. eapply lookup_lt_Some. exact Hd. }
    destruct (inflectionAccounting fitter); simpl;
      repeat (apply Forall_cons; split; [auto|]); apply Forall_nil; exact I.
Qed.

End RefinerExtras.

(** ** The refiner in double precision *)

Section DoubleRefiner.
Import PrimFloat Doubles.
Context `{ParamLayout}.
Variable curve_length : Doubles.CurvePrimitive -> float.
Variable LSSolver_solve :
  Doubles.OneCurveProblem -> list Doubles.LSBoxConstraint -> float -> nat -> list float
  -> list float.
Variable INFLECTION_COST CURVE_ADJUST_DAMPING : float.

(** X13.  A successful refinement keeps the type of the curve, and reading
    the refined curve back with [params()] gives the solver's vector in
    every slot but DCURVATURE: no arithmetic touches the others.  For a Line
    or an Arc the whole vector reads back.  For a Clothoid the DCURVATURE
    slot reads back as [k + l * ((e - k) / l)], three roundings away from
    the end curvature [e] the solver returned. *)
Theorem refined_curve_reads_back (primitive : Doubles.FitPrimitive)
    (errorComputer : Doubles.ErrorComputer) (c' : Doubles.CurvePrimitive) :
  adjustPrimitive curve_length LSSolver_solve INFLECTION_COST CURVE_ADJUST_DAMPING
    primitive errorComputer = Ok c' ->
  let problem := mkProblem primitive errorComputer in
  getType c' = getType (curve primitive)
  /\ exists x0 x',
       OneCurveProblem_params problem = Ok x0
       /\ OneCurveProblem_params (mkProblem (with_curve c' primitive) errorComputer) = Ok x'
       /\ let x := LSSolver_solve problem
                     (adjust_constraints curve_length INFLECTION_COST primitive)
                     CURVE_ADJUST_DAMPING 1 x0 in
          length x' = length x
          /\ (forall j, j ≠ DCURVATURE -> x' !! j = x !! j)
          /\ (getType (curve primitive) ≠ CLOTHOID -> x' = x)
          /\ (getType (curve primitive) = CLOTHOID ->
              exists l k e : float,
                x !! LENGTH = Some l /\ x !! CURVATURE = Some k /\ x !! DCURVATURE = Some e
                /\ x' !! DCURVATURE = Some (k + l * ((e - k) / l))%float).
Proof.
  intros Hb. cbv zeta. unfold adjustPrimitive in Hb.
  apply bind_Ok in Hb as (x0 & Hx0 & Hb). apply bind_Ok in Hb as (p' & Hset & Hb).
  injection Hb as <-.
  remember (LSSolver_solve (mkProblem primitive errorComputer)
              (adjust_constraints curve_length INFLECTION_COST primitive)
              CURVE_ADJUST_DAMPING 1 x0) as x eqn:Hx.
  destruct (decide (getType (curve primitive) = CLOTHOID)) as [Ht|Ht].
  - unfold OneCurveProblem_setParams in Hset. cbn [_primitive] in Hset.
    destruct (decide (getType (curve primitive) ≠ CLOTHOID)); [contradiction|].
    apply bind_Ok in Hset as (e & He & Hset). apply bind_Ok in Hset as (k & Hk & Hset).
    apply bind_Ok in Hset as (l & Hl & Hset). apply bind_Ok in Hset as (xm & Hxm & Hset).
    injection Hset as <-.
    apply coeff_Ok_inv in He, Hk, Hl. apply setCoeff_Ok_inv in Hxm as [-> Hlt].
    cbn [_primitive problem_with_curve with_curve curve curve_setParams getType].
    split; [reflexivity|].
    exists x0, (<[DCURVATURE := (k + l * ((e - k) / l))%float]> x).
    rewrite <- Hx. split; [exact Hx0|]. split.
    + rewrite (double_params_clothoid _ l k ((e - k) / l)%float);
        cbn [_primitive with_curve curve curve_params curve_setParams getType].
      * rewrite list_insert_insert_eq. reflexivity.
      * exact Ht.
      * rewrite list_lookup_insert_ne by (apply not_eq_sym, LENGTH_DCURVATURE). exact Hl.
      * rewrite list_lookup_insert_ne by (apply not_eq_sym, CURVATURE_DCURVATURE). exact Hk.
      * apply list_lookup_insert_eq. exact Hlt.
    + split; [apply length_insert|]. split.
      * intros j Hj. apply list_lookup_insert_ne. apply not_eq_sym. exact Hj.
      * split; [intros Hne; contradiction|].
        intros _. exists l, k, e. split; [exact Hl|]. split; [exact Hk|].
        split; [exact He|]. apply list_lookup_insert_eq. exact Hlt.
  - rewrite (double_setParams_other (mkProblem primitive errorComputer) x Ht) in Hset.
    injection Hset as <-.
    cbn [_primitive problem_with_curve with_curve curve curve_setParams getType].
    split; [reflexivity|]. exists x0, x. rewrite <- Hx. split; [exact Hx0|]. split.
    + rewrite (double_params_other
                 (mkProblem (with_curve (curve_setParams x (curve primitive)) primitive)
                    errorComputer) Ht).
      reflexivity.
    + split; [reflexivity|]. split; [reflexivity|]. split; [reflexivity|].
      intros Hc. contradiction.
Qed.

(** X14.  When the solver makes no correction (it returns the start point
    it was given), refinement leaves a Line or an Arc exactly as fitted.  A
    Clothoid keeps every raw parameter but its curvature rate [d], which
    comes back as [((k + l * d) - k) / l]: refinement with an idle solver
    can still move a Clothoid by the rounding of its own change of
    variables. *)
Theorem idle_solver_refinement (primitive : Doubles.FitPrimitive)
    (errorComputer : Doubles.ErrorComputer) (x0 : list float) :
  let problem := mkProblem primitive errorComputer in
  let raw := curve_params (curve primitive) in
  OneCurveProblem_params problem = Ok x0 ->
  LSSolver_solve problem (adjust_constraints curve_length INFLECTION_COST primitive)
    CURVE_ADJUST_DAMPING 1 x0 = x0 ->
  (getType (curve primitive) ≠ CLOTHOID ->
   adjustPrimitive curve_length LSSolver_solve INFLECTION_COST CURVE_ADJUST_DAMPING
     primitive errorComputer = Ok (curve primitive))
  /\ (getType (curve primitive) = CLOTHOID ->
      exists l k d : float,
        raw !! LENGTH = Some l /\ raw !! CURVATURE = Some k /\ raw !! DCURVATURE = Some d
        /\ adjustPrimitive curve_length LSSolver_solve INFLECTION_COST CURVE_ADJUST_DAMPING
             primitive errorComputer
           = Ok (curve_setParams (<[DCURVATURE := ((k + l * d - k) / l)%float]> raw)
                   (curve primitive))).
Proof.
  cbv zeta. intros Hx0 Hidle. split.
  - intros Ht. unfold adjustPrimitive. rewrite Hx0. cbn [mbind Result_bind].
    rewrite Hidle.
    rewrite (double_setParams_other (mkProblem primitive errorComputer) x0 Ht).
    cbn [mbind Result_bind].
    rewrite (double_params_other (mkProblem primitive errorComputer) Ht) in Hx0.
    injection Hx0 as <-.
    cbn [_primitive problem_with_curve with_curve curve].
    destruct (curve primitive) as [t raw]. reflexivity.
  - intros Ht. pose proof Hx0 as Hparams. unfold OneCurveProblem_params in Hparams.
    cbn [_primitive] in Hparams.
    destruct (decide (getType (curve primitive) ≠ CLOTHOID)); [contradiction|].
    apply bind_Ok in Hparams as (k & Hk & Hb). apply bind_Ok in Hb as (l & Hl & Hb).
    apply bind_Ok in Hb as (d & Hd & _).
    apply coeff_Ok_inv in Hk, Hl, Hd.
    exists l, k, d. split; [exact Hl|]. split; [exact Hk|]. split; [exact Hd|].
    pose proof (double_setParams_after_params (mkProblem primitive errorComputer) l k d
                  Ht Hl Hk Hd) as Hround.
    unfold adjustPrimitive. rewrite Hx0 in Hround |- *. cbn [mbind Result_bind] in Hround |- *.
    rewrite Hidle, Hround. reflexivity.
Qed.

End DoubleRefiner.

(** ** The candidate generator *)

Section GeneratorProperties.
Context `{ParamLayout} `{Geometry}.
Variable _adjust : bool.

(** *** One candidate *)

Lemma setParams_shape (x : VectorXd) (p p' : OneCurveProblem) :
  OneCurveProblem_setParams x p = Ok p' ->
  exists xm : VectorXd,
    p' = problem_with_curve (curve_setParams xm (curve (_primitive p))) p.
Proof.
  unfold OneCurveProblem_setParams.
  destruct (decide (getType (curve (_primitive p)) ≠ CLOTHOID)).
  - intros [= <-]. eexists. reflexivity.
  - intros Hb.
    apply bind_Ok in Hb as (d & _ & Hb). apply bind_Ok in Hb as (k & _ & Hb).
    apply bind_Ok in Hb as (l & _ & Hb). apply bind_Ok in Hb as (q & _ & Hb).
    apply bind_Ok in Hb as (xm & _ & Hb). injection Hb as <-. eexists. reflexivity.
Qed.

Lemma adjustPrimitive_type (primitive : FitPrimitive) (fitter : Fitter) (c : CurvePrimitive) :
  adjustPrimitive primitive fitter = Ok c -> getType c = getType (curve primitive).
Proof.
  unfold adjustPrimitive. intros Hb.
  apply bind_Ok in Hb as (x0 & _ & Hb). apply bind_Ok in Hb as (p' & Hset & Hb).
  injection Hb as <-. apply setParams_shape in Hset as [xm ->]. reflexivity.
Qed.

Lemma adjusted_shape (fit fit' : FitPrimitive) (fitter : Fitter) :
  adjusted _adjust fit fitter = Ok fit' ->
  exists c, fit' = with_curve c fit /\ getType c = getType (curve fit).
Proof.
  unfold adjusted. destruct _adjust.
  - intros Hb. apply bind_Ok in Hb as (c & Hadj & Hb). injection Hb as <-.
    exists c. split; [reflexivity|]. exact (adjustPrimitive_type _ _ _ Hadj).
  - intros [= <-]. exists (curve fit). split; [|reflexivity]. destruct fit; reflexivity.
Qed.

Lemma split_candidate_shape (fitter : Fitter) (fit fit' : FitPrimitive)
    (c : CurvePrimitive) (sign : Z) (len : Qc) (ev : list Event) :
  split_candidate _adjust fitter fit c sign len = Ok (fit', ev) ->
  spans_to (startIdx fit) (endIdx fit) (numPts fit) fit'
  /\ getType (curve fit') = getType c
  /\ startCurvSign fit' = sign /\ endCurvSign fit' = sign
  /\ error fit' = computeError (errorComputer fitter) (curve fit') (startIdx fit) (endIdx fit)
  /\ exists q, divide (error fit') len = Ok q /\ ev = split_events fitter fit' q.
Proof.
  unfold split_candidate. intros Hb.
  apply bind_Ok in Hb as (fa & Hadj & Hb). apply bind_Ok in Hb as (q & Hq & Hb).
  apply adjusted_shape in Hadj as (c' & -> & Hc'). simpl in *.
  assert (fit' = with_error
            (computeError (errorComputer fitter) c' (startIdx fit) (endIdx fit))
            (with_curve c' (with_signs sign sign (with_curve c fit)))
          /\ ev = split_events fitter fit' q) as [-> ->].
  { unfold split_events. destruct (ltb q (threshold2 fitter)); injection Hb as <- <-; auto. }
  simpl. repeat split; try assumption. exists q. split; [exact Hq | reflexivity].
Qed.

(** The inflection split (lines 177-211): two candidates are built from the
    Clothoid fitter, one with zero curvature at the start of the span, one
    with zero curvature at its end; each is adjusted, measured and pushed on
    its own when its error over the span length is below the squared
    threshold. *)
Lemma inflection_split_shape (fitter : Fitter) (fitters : Fitters)
    (fit : FitPrimitive) (len : Qc) (ev : list Event) :
  inflection_split _adjust fitter fitters fit len = Ok ev ->
  exists s1 s2 q1 q2,
    ev = split_events fitter s1 q1 ++ split_events fitter s2 q2
    /\ spans_to (startIdx fit) (endIdx fit) (numPts fit) s1
    /\ spans_to (startIdx fit) (endIdx fit) (numPts fit) s2
    /\ getType (curve s1) = getType (getCurveWithZeroCurvature (fitters CLOTHOID) 0)
    /\ getType (curve s2)
       = getType (getCurveWithZeroCurvature (fitters CLOTHOID)
                    (idxToParam fitter (endIdx fit) - idxToParam fitter (startIdx fit)))
    /\ divide (error s1) len = Ok q1
    /\ divide (error s2) len = Ok q2.
Proof.
  unfold inflection_split. intros Hb.
  apply bind_Ok in Hb as ([s1 ev1] & H1 & Hb). apply bind_Ok in Hb as ([s2 ev2] & H2 & Hb).
  injection Hb as <-.
  apply split_candidate_shape in H1 as ((Hi1 & Hj1 & Hn1) & Ht1 & _ & _ & _ & q1 & Hq1 & ->).
  apply split_candidate_shape in H2 as ((Hi2 & Hj2 & Hn2) & Ht2 & _ & _ & _ & q2 & Hq2 & ->).
  exists s1, s2, q1, q2. rewrite Hi1, Hj1, Hn1 in *.
  repeat split; try assumption; reflexivity.
Qed.

(** The test of an inflection-split candidate is strict: a split candidate
    is pushed exactly when its error over the span length is below the
    squared threshold.  On the threshold itself the test of line 163 lets an
    ordinary candidate through while the split candidate is dropped. *)
Lemma split_test_is_strict (fitter : Fitter) (s : FitPrimitive) (q : Qc) :
  (PushBack s ∈ split_events fitter s q <-> q < threshold2 fitter)
  /\ (q = threshold2 fitter ->
      gtb q (threshold2 fitter) = false /\ split_events fitter s q = [Split s]).
Proof.
  unfold split_events. split.
  - destruct (ltb q (threshold2 fitter)) eqn:Hlt.
    + apply ltb_true in Hlt. split; [intros _; exact Hlt|].
      intros _. apply elem_of_cons. right. apply list_elem_of_here.
    + split.
      * intros Hin. apply list_elem_of_singleton in Hin. discriminate Hin.
      * intros Hq. apply ltb_true in Hq. rewrite Hq in Hlt. discriminate Hlt.
  - intros ->. rewrite gtb_irrefl, ltb_irrefl. split; reflexivity.
Qed.

(** The body of the loop once the type has its minimum of points: the
    candidate [m] built and measured at lines 145-160, the outcome of the
    acceptance test, and what follows it in the trace. *)
Lemma candidate_shape (fitter : Fitter) (fitters : Fitters) (type : PrimitiveType)
    (i idx n : nat) (ev : list Event) (stop : bool) :
  candidate _adjust fitter fitters type i idx n = Ok (ev, stop) ->
  exists m,
    spans_to i idx n m
    /\ getType (curve m) = getType (getPrimitive (fitters type))
    /\ startCurvSign m
       = (if geb (startCurvature (getPrimitive (fitters type))) 0 then 1 else -1)%Z
    /\ endCurvSign m
       = (if geb (endCurvature (getPrimitive (fitters type))) 0 then 1 else -1)%Z
    /\ acceptance fitter m = Ok (negb stop)
    /\ (stop = true -> ev = [Materialize m])
    /\ (stop = false ->
        let line := bool_decide (type = LINE) && inflectionAccounting fitter in
        let last := if line then mirrored m else m in
        exists extra,
          ev = Materialize m :: PushBack m
                 :: (if line then [PushBack (mirrored m)] else []) ++ extra
          /\ ((bool_decide (startCurvSign last ≠ endCurvSign last)
               && inflectionAccounting fitter = false /\ extra = [])
              \/ (bool_decide (startCurvSign last ≠ endCurvSign last)
                  && inflectionAccounting fitter = true
                  /\ inflection_split _adjust fitter fitters last
                       (lengthFromTo fitter i idx) = Ok extra))).
Proof.
  unfold candidate. intros Hb.
  apply bind_Ok in Hb as (fa & Hadj & Hb). apply bind_Ok in Hb as (q & Hq & Hb).
  apply adjusted_shape in Hadj as (c' & -> & Hc'). simpl in *.
  set (m := with_error (computeError (errorComputer fitter) c' i idx)
              (with_curve c'
                 {| curve := getPrimitive (fitters type); startIdx := i; endIdx := idx;
                    numPts := n;
                    startCurvSign :=
                      (if geb (startCurvature (getPrimitive (fitters type))) 0
                       then 1 else -1)%Z;
                    endCurvSign :=
                      (if geb (endCurvature (getPrimitive (fitters type))) 0
                       then 1 else -1)%Z;
                    error := 0 |})) in *.
  exists m.
  assert (Hacc : acceptance fitter m = Ok (negb (gtb q (threshold2 fitter)))).
  { unfold acceptance. simpl. rewrite Hq. reflexivity. }
  split; [repeat split|]. split; [exact Hc'|]. split; [reflexivity|]. split; [reflexivity|].
  destruct (gtb q (threshold2 fitter)) eqn:Hgt.
  - injection Hb as <- <-. split; [exact Hacc|]. split; [reflexivity | discriminate].
  - destruct (bool_decide (type = LINE) && inflectionAccounting fitter) eqn:Hline.
    + destruct (bool_decide (startCurvSign (mirrored m) ≠ endCurvSign (mirrored m))
                && inflectionAccounting fitter) eqn:Hdiff.
      * apply bind_Ok in Hb as (extra & Hsplit & Hb). injection Hb as <- <-.
        split; [exact Hacc|]. split; [discriminate|]. intros _. cbv zeta.
        exists extra. split; [reflexivity|]. right. split; [first [exact Hdiff | reflexivity] | exact Hsplit].
      * injection Hb as <- <-. split; [exact Hacc|]. split; [discriminate|].
        intros _. cbv zeta. exists []. split; [reflexivity|]. left.
        split; [first [exact Hdiff | reflexivity] | reflexivity].
    + destruct (bool_decide (startCurvSign m ≠ endCurvSign m)
                && inflectionAccounting fitter) eqn:Hdiff.
      * apply bind_Ok in Hb as (extra & Hsplit & Hb). injection Hb as <- <-.
        split; [exact Hacc|]. split; [discriminate|]. intros _. cbv zeta.
        exists extra. split; [reflexivity|]. right. split; [first [exact Hdiff | reflexivity] | exact Hsplit].
      * injection Hb as <- <-. split; [exact Hacc|]. split; [discriminate|].
        intros _. cbv zeta. exists []. split; [reflexivity|]. left.
        split; [first [exact Hdiff | reflexivity] | reflexivity].
Qed.

Lemma split_events_span (fitter : Fitter) (s : FitPrimitive) (q : Qc) (i idx n : nat) :
  spans_to i idx n s ->
  Forall (fun e => materialized e = None /\ spans_to i idx n (event_fit e))
         (split_events fitter s q).
Proof.
  intros Hs. unfold split_events.
  destruct (ltb q (threshold2 fitter));
    repeat (apply Forall_cons; split; [split; [reflexivity | exact Hs]|]);
    apply Forall_nil; exact I.
Qed.

(** One pass through the body leaves the candidate it built first, and after
    it only pushes and splits of the same span. *)
Lemma candidate_trace (fitter : Fitter) (fitters : Fitters) (type : PrimitiveType)
    (i idx n : nat) (ev : list Event) (stop : bool) :
  candidate _adjust fitter fitters type i idx n = Ok (ev, stop) ->
  exists m rest,
    ev = Materialize m :: rest
    /\ spans_to i idx n m
    /\ acceptance fitter m = Ok (negb stop)
    /\ (stop = true -> rest = [])
    /\ (stop = false -> exists rest', rest = PushBack m :: rest')
    /\ Forall (fun e => materialized e = None /\ spans_to i idx n (event_fit e)) rest.
Proof.
  intros Hc. apply candidate_shape in Hc as (m & Hm & _ & _ & _ & Hacc & Hstop & Hgo).
  exists m. destruct stop.
  - exists []. rewrite (Hstop eq_refl).
    repeat split; try assumption; try apply Hm; try discriminate. constructor.
  - destruct (Hgo eq_refl) as (extra & -> & Hextra). eexists.
    split; [reflexivity|]. split; [exact Hm|]. split; [exact Hacc|].
    split; [discriminate|]. split; [intros _; eexists; reflexivity|].
    constructor; [split; [reflexivity | exact Hm]|].
    apply Forall_app. split.
    + destruct (bool_decide (type = LINE) && inflectionAccounting fitter);
        repeat (apply Forall_cons; split; [split; [reflexivity | exact Hm]|]);
        apply Forall_nil; exact I.
    + destruct Hextra as [[_ ->]|[_ Hsplit]]; [constructor|].
      apply inflection_split_shape in Hsplit
        as (s1 & s2 & q1 & q2 & -> & Hs1 & Hs2 & _).
      assert (Hlast : forall f, spans_to (startIdx (if bool_decide (type = LINE)
                                                    && inflectionAccounting fitter
                                                  then mirrored m else m))
                                 (endIdx (if bool_decide (type = LINE)
                                             && inflectionAccounting fitter
                                           then mirrored m else m))
                                 (numPts (if bool_decide (type = LINE)
                                             && inflectionAccounting fitter
                                           then mirrored m else m)) f ->
                               spans_to i idx n f).
      { destruct Hm as (Hi & Hj & Hn).
        destruct (bool_decide (type = LINE) && inflectionAccounting fitter);
          simpl; rewrite Hi, Hj, Hn; auto. }
      apply Forall_app. split; apply split_events_span; apply Hlast; assumption.
Qed.

Lemma measure_trace (fitter : Fitter) (fitters : Fitters) (type : PrimitiveType)
    (i idx n : nat) (ev : list Event) (stop : bool) :
  measure _adjust fitter fitters type i idx n = Ok (ev, stop) ->
  ((n < 2 + type_index type)%nat /\ ev = [] /\ stop = false)
  \/ ((2 + type_index type ≤ n)%nat
      /\ candidate _adjust fitter fitters type i idx n = Ok (ev, stop)).
Proof.
  unfold measure. destruct (decide (2 + type_index type ≤ n)%nat) as [Hle|Hlt].
  - intros Hc. right. split; assumption.
  - intros [= <- <-]. left. split; [lia | split; reflexivity].
Qed.

Lemma iteration_sorted (m : FitPrimitive) (rest : list Event) (i idx n : nat) :
  spans_to i idx n m ->
  Forall (fun e => materialized e = None /\ spans_to i idx n (event_fit e)) rest ->
  StronglySorted span_order (Materialize m :: rest).
Proof.
  intros (_ & _ & Hn) Hrest.
  assert (Hall : forall (e0 : Event), numPts (event_fit e0) = n ->
                   Forall (span_order e0) rest).
  { intros e0 He0. eapply Forall_impl; [exact Hrest|]. simpl.
    intros e [Hnone (_ & _ & Hen)]. split.
    - rewrite He0, Hen. lia.
    - rewrite Hnone. intros [? [=]]. }
  constructor; [|apply Hall; exact Hn].
  induction Hrest as [|e rest' [_ (_ & _ & Hen)] Hrest' IH]; constructor.
  - apply IH. intros e0 He0. specialize (Hall e0 He0). inversion Hall; assumption.
  - specialize (Hall e Hen). inversion Hall; assumption.
Qed.

(** *** The loop over the circulator *)

(** The trace of the search for one pair: every event has more points than
    were fed before, the trace is sorted by span, and a candidate that fails
    the acceptance test is the last event. *)
Lemma traverse_trace (fitter : Fitter) (type : PrimitiveType) (i : nat)
    (circ : list (nat * (Qc * Qc))) :
  forall (n : nat) (fitters fitters' : Fitters) (ev : list Event),
    traverse _adjust fitter type i circ n fitters = Ok (fitters', ev) ->
    Forall (fun e => (n < numPts (event_fit e))%nat) ev
    /\ StronglySorted span_order ev
    /\ (forall m, Materialize m ∈ ev -> acceptance fitter m = Ok false ->
          exists pre, ev = pre ++ [Materialize m]).
Proof.
  induction circ as [|[idx pt] circ IH]; intros n fitters fitters' ev Ht; simpl in Ht.
  { injection Ht as <- <-. split; [constructor|]. split; [constructor|].
    intros m Hin. apply elem_of_nil in Hin. contradiction. }
  destruct (skip_type fitter type (S n)).
  { injection Ht as <- <-. split; [constructor|]. split; [constructor|].
    intros m Hin. apply elem_of_nil in Hin. contradiction. }
  apply bind_Ok in Ht as ([ev1 stop] & Hmeasure & Ht).
  assert (Hone : Forall (fun e => (n < numPts (event_fit e))%nat) ev1
                 /\ StronglySorted span_order ev1
                 /\ Forall (fun e => numPts (event_fit e) = S n) ev1
                 /\ (forall m, Materialize m ∈ ev1 -> acceptance fitter m = Ok false ->
                       stop = true /\ ev1 = [Materialize m])).
  { apply measure_trace in Hmeasure as [(_ & -> & ->)|[_ Hc]].
    - split; [constructor|]. split; [constructor|]. split; [constructor|].
      intros m Hin. apply elem_of_nil in Hin. contradiction.
    - apply candidate_trace in Hc as (m & rest & -> & Hm & Hacc & Hstop & _ & Hrest).
      assert (Hpts : Forall (fun e => numPts (event_fit e) = S n) (Materialize m :: rest)).
      { constructor; [apply Hm|]. eapply Forall_impl; [exact Hrest|].
        intros e [_ (_ & _ & Hen)]. exact Hen. }
      split; [eapply Forall_impl; [exact Hpts|]; simpl; intros e ->; lia|].
      split; [exact (iteration_sorted m rest i idx (S n) Hm Hrest)|].
      split; [exact Hpts|].
      intros m' Hin Hfail. apply elem_of_cons in Hin as [[= ->]|Hin].
      + rewrite Hacc in Hfail. injection Hfail as Hfail.
        destruct stop; [|discriminate]. rewrite (Hstop eq_refl). split; reflexivity.
      + rewrite Forall_forall in Hrest. destruct (Hrest _ Hin) as [[=] _]. }
  destruct Hone as (Hgt1 & Hsorted1 & Hpts1 & Hfail1).
  assert (Hlast : forall m, Materialize m ∈ ev1 -> acceptance fitter m = Ok false ->
                    exists pre, ev1 = pre ++ [Materialize m]).
  { intros m Hin Hfail. destruct (Hfail1 m Hin Hfail) as [_ ->]. exists []. reflexivity. }
  destruct stop.
  { injection Ht as <- <-. auto. }
  destruct (corner_stop fitter (S n) idx).
  { injection Ht as <- <-. auto. }
  apply bind_Ok in Ht as ([fs ev2] & Hrec & Ht). injection Ht as <- <-.
  apply IH in Hrec as (Hgt2 & Hsorted2 & Hfail2).
  split; [|split].
  - apply Forall_app. split; [exact Hgt1|].
    eapply Forall_impl; [exact Hgt2|]. simpl. intros e He. lia.
  - apply StronglySorted_app_2; [|assumption|assumption].
    intros e1 e2 Hin1 Hin2. rewrite Forall_forall in Hpts1, Hgt2.
    specialize (Hpts1 _ Hin1). specialize (Hgt2 _ Hin2). simpl in Hgt2.
    split; [lia | intros _; lia].
  - intros m Hin Hfail. apply elem_of_app in Hin as [Hin|Hin].
    + destruct (Hfail1 m Hin Hfail) as [[=] _].
    + destruct (Hfail2 m Hin Hfail) as [pre ->]. exists (ev1 ++ pre).
      rewrite app_assoc. reflexivity.
Qed.

Lemma StronglySorted_omap {A B} (R : A -> A -> Prop) (S : B -> B -> Prop)
    (f : A -> option B) (l : list A) :
  (forall x y a b, R x y -> f x = Some a -> f y = Some b -> S a b) ->
  StronglySorted R l -> StronglySorted S (omap f l).
Proof.
  intros HRS Hl. induction Hl as [|x l Hl IH Hx]; simpl; [constructor|].
  destruct (f x) as [a|] eqn:Hfx; [|exact IH].
  constructor; [exact IH|].
  apply Forall_forall. intros b Hb.
  apply list_elem_of_omap in Hb as (y & Hy & Hfy).
  rewrite Forall_forall in Hx. exact (HRS x y a b (Hx y Hy) Hfx Hfy).
Qed.

(** C1 (as amended).  In the search for one pair (start index, type) the
    candidates are built in order of strictly growing span: each newly built
    candidate has more points than everything built or emitted before it.
    What is emitted in between (the candidate itself, the mirrored Line, the
    inflection-split candidates) carries the span of the candidate it
    derives from, so the emitted spans never shrink.  Once a built candidate
    fails the acceptance test (its error divided by
    [lengthFromTo(i, endIdx)] exceeds the squared error threshold) it is the
    last event of the search for the pair: it is not emitted, and every
    emitted candidate of the pair has a strictly shorter span. *)
Theorem threshold_pruning (fitter : Fitter) (type : PrimitiveType) (i : nat)
    (fitters fitters' : Fitters) (ev : list Event) :
  run_pair _adjust fitter type i fitters = Ok (fitters', ev) ->
  StronglySorted span_order ev
  /\ StronglySorted (fun a b => (numPts a < numPts b)%nat) (omap materialized ev)
  /\ StronglySorted (fun a b => (numPts a ≤ numPts b)%nat) (primitives ev)
  /\ forall m,
       Materialize m ∈ ev -> acceptance fitter m = Ok false ->
       (exists pre, ev = pre ++ [Materialize m])
       /\ (m ∉ primitives ev)
       /\ forall f, f ∈ primitives ev -> (numPts f < numPts m)%nat.
Proof.
  unfold run_pair. intros Hrun.
  apply traverse_trace in Hrun as (_ & Hsorted & Hfail).
  split; [exact Hsorted|]. split; [|split].
  - eapply StronglySorted_omap; [|exact Hsorted].
    intros x y a b [_ Hlt] Hx Hy. destruct x, y; try discriminate.
    injection Hx as <-. injection Hy as <-. apply Hlt. eexists. reflexivity.
  - eapply StronglySorted_omap; [|exact Hsorted].
    intros x y a b [Hle _] Hx Hy. destruct x, y; try discriminate.
    injection Hx as <-. injection Hy as <-. exact Hle.
  - intros m Hin Hm. destruct (Hfail m Hin Hm) as [pre ->].
    assert (Hshorter : forall f, f ∈ primitives (pre ++ [Materialize m]) ->
                         (numPts f < numPts m)%nat).
    { intros f Hf. unfold primitives in Hf. rewrite omap_app in Hf. simpl in Hf.
      rewrite app_nil_r in Hf. apply list_elem_of_omap in Hf as (e & He & Hpush).
      destruct e; try discriminate. injection Hpush as ->.
      apply (StronglySorted_app_1_elem_of _ _ _ (PushBack f) (Materialize m)) in Hsorted.
      - destruct Hsorted as [_ Hlt]. apply Hlt. eexists. reflexivity.
      - exact He.
      - apply list_elem_of_singleton. reflexivity. }
    split; [exists pre; reflexivity|]. split; [|exact Hshorter].
    intros Hemit. specialize (Hshorter m Hemit). lia.
Qed.

(** C7 (as amended).  After the body has built (or skipped) a candidate for
    the sample just fed, without leaving the loop at the threshold test, the
    traversal for the pair stops exactly when the count of fed points
    exceeds 1 and the sample just fed, the one at [circ.index()], is flagged
    as a corner: the rest of the circulator is then never looked at.
    Otherwise the traversal goes on with the next sample; in particular a
    corner at the start index (count 1) does not stop it. *)
Theorem corner_stop_at_fed_sample (fitter : Fitter) (type : PrimitiveType) (i : nat)
    (idx : nat) (pt : Qc * Qc) (n : nat) (fitters : Fitters) (ev : list Event) :
  let fed_one := set_fitter fitters type (addPoint (fitters type) pt) in
  skip_type fitter type (S n) = false ->
  measure _adjust fitter fed_one type i idx (S n) = Ok (ev, false) ->
  ((1 < S n)%nat /\ corners fitter idx = true ->
   forall circ, traverse _adjust fitter type i ((idx, pt) :: circ) n fitters
                = Ok (fed_one, ev))
  /\ (~ ((1 < S n)%nat /\ corners fitter idx = true) ->
      forall circ, traverse _adjust fitter type i ((idx, pt) :: circ) n fitters
                   = (traverse _adjust fitter type i circ (S n) fed_one
                        ≫= fun r => Ok (r.1, ev ++ r.2)))
  /\ (n = 0%nat ->
      forall circ, traverse _adjust fitter type i ((idx, pt) :: circ) n fitters
                   = (traverse _adjust fitter type i circ (S n) fed_one
                        ≫= fun r => Ok (r.1, ev ++ r.2))).
Proof.
  intros fed_one Hskip Hmeasure.
  assert (Hstep : forall circ,
            traverse _adjust fitter type i ((idx, pt) :: circ) n fitters
            = if corner_stop fitter (S n) idx then Ok (fed_one, ev)
              else traverse _adjust fitter type i circ (S n) fed_one
                     ≫= fun r => Ok (r.1, ev ++ r.2)).
  { intros circ. simpl. rewrite Hskip. fold fed_one. rewrite Hmeasure. simpl.
    destruct (corner_stop fitter (S n) idx); [reflexivity|].
    destruct (traverse _adjust fitter type i circ (S n) fed_one) as [[fs ev']|f];
      reflexivity. }
  split; [|split].
  - intros [Hcount Hcorner] circ. rewrite Hstep. unfold corner_stop.
    rewrite Hcorner, (bool_decide_eq_true_2 _ Hcount). reflexivity.
  - intros Hno circ. rewrite Hstep. unfold corner_stop.
    destruct (bool_decide (1 < S n)%nat) eqn:Hcount; [|reflexivity].
    destruct (corners fitter idx) eqn:Hcorner; [|reflexivity].
    apply bool_decide_eq_true in Hcount. exfalso. apply Hno. split; [exact Hcount | reflexivity].
  - intros -> circ. rewrite Hstep. unfold corner_stop.
    rewrite bool_decide_eq_false_2 by lia. reflexivity.
Qed.

(** *** The search returns

    Without refinement the only partial operation of the search is the
    division by the span length: the search for a pair returns a trace as
    soon as no span met from the start index has length zero. *)

Lemma split_candidate_succeeds (fitter : Fitter) (fit : FitPrimitive)
    (c : CurvePrimitive) (sign : Z) (len : Qc) :
  _adjust = false -> len ≠ 0 ->
  succeeds (split_candidate _adjust fitter fit c sign len).
Proof.
  intros -> Hlen. unfold split_candidate, adjusted. simpl.
  rewrite (divide_nonzero _ _ Hlen). simpl.
  destruct (ltb _ _); eexists; reflexivity.
Qed.

Lemma candidate_succeeds (fitter : Fitter) (fitters : Fitters) (type : PrimitiveType)
    (i idx n : nat) :
  _adjust = false -> lengthFromTo fitter i idx ≠ 0 ->
  succeeds (candidate _adjust fitter fitters type i idx n).
Proof.
  intros Hadj Hlen. unfold candidate, adjusted. rewrite Hadj. simpl.
  rewrite (divide_nonzero _ _ Hlen). simpl.
  destruct (gtb _ _); [eexists; reflexivity|].
  assert (Hsplit : forall fit, succeeds (inflection_split _adjust fitter fitters fit
                                           (lengthFromTo fitter i idx))).
  { intros fit. unfold inflection_split.
    destruct (split_candidate_succeeds fitter fit
                (getCurveWithZeroCurvature (fitters CLOTHOID) 0)
                (if gtb (endCurvature (getCurveWithZeroCurvature (fitters CLOTHOID) 0)) 0
                 then 1 else -1)%Z _ Hadj Hlen) as [[f1 ev1] ->].
    simpl.
    match goal with |- context [split_candidate _ _ ?f ?c ?s ?l] =>
      destruct (split_candidate_succeeds fitter f c s l Hadj Hlen) as [[f2 ev2] ->]
    end.
    eexists. reflexivity. }
  rewrite <- Hadj.
  destruct (bool_decide (type = LINE) && inflectionAccounting fitter);
    match goal with |- context [inflection_split _ _ _ ?f _] =>
      destruct (bool_decide (startCurvSign f ≠ endCurvSign f) && inflectionAccounting fitter);
      [destruct (Hsplit f) as [ev' ->]|]
    end; eexists; reflexivity.
Qed.

Lemma traverse_succeeds (fitter : Fitter) (type : PrimitiveType) (i : nat)
    (circ : list (nat * (Qc * Qc))) :
  _adjust = false ->
  Forall (fun s => lengthFromTo fitter i s.1 ≠ 0) circ ->
  forall (n : nat) (fitters : Fitters),
    succeeds (traverse _adjust fitter type i circ n fitters).
Proof.
  intros Hadj Hlen. induction Hlen as [|[idx pt] circ Hidx Hcirc IH]; intros n fitters; simpl.
  { eexists. reflexivity. }
  destruct (skip_type fitter type (S n)); [eexists; reflexivity|].
  assert (Hm : succeeds (measure _adjust fitter
                           (set_fitter fitters type (addPoint (fitters type) pt))
                           type i idx (S n))).
  { unfold measure. destruct (decide _); [|eexists; reflexivity].
    apply candidate_succeeds; assumption. }
  destruct Hm as [[ev stop] ->]. simpl.
  destruct stop; [eexists; reflexivity|].
  destruct (corner_stop fitter (S n) idx); [eexists; reflexivity|].
  destruct (IH (S n) (set_fitter fitters type (addPoint (fitters type) pt)))
    as [[fs ev'] ->].
  eexists. reflexivity.
Qed.

Lemma run_pair_succeeds (fitter : Fitter) (type : PrimitiveType) (i : nat)
    (fitters : Fitters) :
  _adjust = false ->
  Forall (fun s => lengthFromTo fitter i s.1 ≠ 0) (circulator fitter i) ->
  succeeds (run_pair _adjust fitter type i fitters).
Proof. intros Hadj Hlen. unfold run_pair. apply traverse_succeeds; assumption. Qed.

(** *** What the geometry guarantees

    The fitter of a family returns curves of that family, the
    zero-curvature variant is a clothoid, and only a clothoid has different
    curvatures at its two ends. *)

Section GeometryContract.
Hypothesis bestFit_type : forall t pts, getType (bestFit t pts) = t.
Hypothesis zeroCurvature_type :
  forall pts offset, getType (bestFitZeroCurvature pts offset) = CLOTHOID.
Hypothesis constant_curvature :
  forall c, getType c ≠ CLOTHOID -> startCurvature c = endCurvature c.

Lemma set_fitter_family (fitters : Fitters) (type : PrimitiveType) (pt : Qc * Qc) :
  (forall t, family (fitters t) = t) ->
  forall t, family (set_fitter fitters type (addPoint (fitters type) pt) t) = t.
Proof.
  intros Hfam t. unfold set_fitter. destruct (decide (t = type)) as [->|_]; [|apply Hfam].
  simpl. apply Hfam.
Qed.

Lemma traverse_families (fitter : Fitter) (type : PrimitiveType) (i : nat)
    (circ : list (nat * (Qc * Qc))) :
  forall (n : nat) (fitters fitters' : Fitters) (ev : list Event),
    (forall t, family (fitters t) = t) ->
    traverse _adjust fitter type i circ n fitters = Ok (fitters', ev) ->
    forall t, family (fitters' t) = t.
Proof.
  induction circ as [|[idx pt] circ IH]; intros n fitters fitters' ev Hfam Ht; simpl in Ht.
  { injection Ht as <- <-. exact Hfam. }
  destruct (skip_type fitter type (S n)); [injection Ht as <- <-; exact Hfam|].
  apply bind_Ok in Ht as ([ev1 stop] & _ & Ht).
  pose proof (set_fitter_family fitters type pt Hfam) as Hfam1.
  destruct stop; [injection Ht as <- <-; exact Hfam1|].
  destruct (corner_stop fitter (S n) idx); [injection Ht as <- <-; exact Hfam1|].
  apply bind_Ok in Ht as ([fs ev2] & Hrec & Ht). injection Ht as <- <-.
  exact (IH _ _ _ _ Hfam1 Hrec).
Qed.

Lemma same_sign_no_split (fitters : Fitters) (type : PrimitiveType) (m : FitPrimitive)
    (line infl : bool) :
  family (fitters type) = type ->
  type ≠ CLOTHOID ->
  startCurvSign m
  = (if geb (startCurvature (getPrimitive (fitters type))) 0 then 1 else -1)%Z ->
  endCurvSign m
  = (if geb (endCurvature (getPrimitive (fitters type))) 0 then 1 else -1)%Z ->
  bool_decide (startCurvSign (if line then mirrored m else m)
               ≠ endCurvSign (if line then mirrored m else m)) && infl = false.
Proof.
  intros Hfam Hne Hs He.
  assert (Heq : startCurvSign m = endCurvSign m).
  { rewrite Hs, He. rewrite (constant_curvature (getPrimitive (fitters type))); [reflexivity|].
    unfold getPrimitive. rewrite bestFit_type, Hfam. exact Hne. }
  rewrite bool_decide_eq_false_2; [reflexivity|].
  intros Hdiff. apply Hdiff. destruct line; simpl; rewrite Heq; reflexivity.
Qed.

Lemma candidate_types (fitter : Fitter) (fitters : Fitters) (type : PrimitiveType)
    (i idx n : nat) (ev : list Event) (stop : bool) :
  family (fitters type) = type ->
  candidate _adjust fitter fitters type i idx n = Ok (ev, stop) ->
  Forall (fun e => getType (curve (event_fit e)) = type) ev.
Proof.
  intros Hfam Hc.
  apply candidate_shape in Hc as (m & _ & Hm & Hs & He & _ & Hstop & Hgo).
  assert (Htype : getType (curve m) = type).
  { rewrite Hm. unfold getPrimitive. rewrite bestFit_type. exact Hfam. }
  destruct stop.
  - rewrite (Hstop eq_refl). repeat constructor. exact Htype.
  - destruct (Hgo eq_refl) as (extra & -> & Hextra).
    repeat (apply Forall_cons; split; [exact Htype|]).
    apply Forall_app. split.
    + destruct (bool_decide (type = LINE) && inflectionAccounting fitter);
        repeat (apply Forall_cons; split; [exact Htype|]); apply Forall_nil; exact I.
    + destruct Hextra as [[_ ->]|[Hdiff Hsplit]]; [apply Forall_nil; exact I|].
      destruct (decide (type = CLOTHOID)) as [Hclo|Hne].
      * apply inflection_split_shape in Hsplit
          as (s1 & s2 & q1 & q2 & -> & _ & _ & Ht1 & Ht2 & _).
        unfold getCurveWithZeroCurvature in Ht1, Ht2.
        rewrite zeroCurvature_type in Ht1, Ht2. rewrite <- Hclo in Ht1, Ht2.
        unfold split_events.
        destruct (ltb q1 (threshold2 fitter)), (ltb q2 (threshold2 fitter)); simpl;
          repeat (apply Forall_cons; split; [assumption|]); apply Forall_nil; exact I.
      * rewrite (same_sign_no_split fitters type m _ _ Hfam Hne Hs He) in Hdiff.
        discriminate.
Qed.

Lemma traverse_types (fitter : Fitter) (type : PrimitiveType) (i : nat)
    (circ : list (nat * (Qc * Qc))) :
  forall (n : nat) (fitters fitters' : Fitters) (ev : list Event),
    (forall t, family (fitters t) = t) ->
    traverse _adjust fitter type i circ n fitters = Ok (fitters', ev) ->
    Forall (fun e => (type_index (getType (curve (event_fit e))) + 2
                      ≤ numPts (event_fit e))%nat) ev.
Proof.
  induction circ as [|[idx pt] circ IH]; intros n fitters fitters' ev Hfam Ht; simpl in Ht.
  { injection Ht as <- <-. constructor. }
  destruct (skip_type fitter type (S n)); [injection Ht as <- <-; constructor|].
  apply bind_Ok in Ht as ([ev1 stop] & Hmeasure & Ht).
  pose proof (set_fitter_family fitters type pt Hfam) as Hfam1.
  assert (Hone : Forall (fun e => (type_index (getType (curve (event_fit e))) + 2
                                   ≤ numPts (event_fit e))%nat) ev1).
  { apply measure_trace in Hmeasure as [(_ & -> & _)|[Hle Hc]]; [constructor|].
    pose proof (candidate_types _ _ _ _ _ _ _ _ (Hfam1 type) Hc) as Htypes.
    apply candidate_trace in Hc as (m & rest & -> & Hm & _ & _ & _ & Hrest).
    apply Forall_forall. intros e He. rewrite Forall_forall in Htypes.
    rewrite (Htypes e He). apply elem_of_cons in He as [->|He].
    - simpl. destruct Hm as (_ & _ & ->). lia.
    - rewrite Forall_forall in Hrest. destruct (Hrest e He) as [_ (_ & _ & ->)]. lia. }
  destruct stop; [injection Ht as <- <-; exact Hone|].
  destruct (corner_stop fitter (S n) idx); [injection Ht as <- <-; exact Hone|].
  apply bind_Ok in Ht as ([fs ev2] & Hrec & Ht). injection Ht as <- <-.
  apply Forall_app. split; [exact Hone|]. exact (IH _ _ _ _ Hfam1 Hrec).
Qed.

Lemma run_types_points (fitter : Fitter) (types : list PrimitiveType) (i : nat) :
  forall (fitters : Fitters) (ev : list Event),
    (forall t, family (fitters t) = t) ->
    run_types _adjust fitter types i fitters = Ok ev ->
    Forall (fun e => (type_index (getType (curve (event_fit e))) + 2
                      ≤ numPts (event_fit e))%nat) ev.
Proof.
  induction types as [|type types IH]; intros fitters ev Hfam Hrun; simpl in Hrun.
  { injection Hrun as <-. constructor. }
  apply bind_Ok in Hrun as ([fs ev1] & Hpair & Hrun).
  apply bind_Ok in Hrun as (ev2 & Hrest & Hrun). injection Hrun as <-.
  apply Forall_app. split.
  - exact (traverse_types _ _ _ _ _ _ _ _ Hfam Hpair).
  - apply (IH fs); [|exact Hrest]. exact (traverse_families _ _ _ _ _ _ _ _ Hfam Hpair).
Qed.

(** C8.  Every candidate the generator builds, the ones that fail the
    acceptance test and the inflection-split ones included, has
    [numPts >= type + 2] for the type tag of its curve: at least 2 points for
    a Line, 3 for an Arc, 4 for a Clothoid. *)
Theorem minimum_points (fitter : Fitter) (ev : list Event) :
  _run _adjust fitter = Ok ev ->
  forall e, e ∈ ev ->
    (type_index (getType (curve (event_fit e))) + 2 ≤ numPts (event_fit e))%nat
    /\ match getType (curve (event_fit e)) with
       | LINE => (2 ≤ numPts (event_fit e))%nat
       | ARC => (3 ≤ numPts (event_fit e))%nat
       | CLOTHOID => (4 ≤ numPts (event_fit e))%nat
       end.
Proof.
  unfold _run. generalize (seq 0 (pts_size fitter)). intros starts. revert ev.
  induction starts as [|i starts IH]; intros ev Hrun e He; cbn [run_starts] in Hrun.
  { injection Hrun as <-. apply elem_of_nil in He. contradiction. }
  apply bind_Ok in Hrun as (ev1 & Hfirst & Hrun).
  apply bind_Ok in Hrun as (ev2 & Hrest & Hrun). injection Hrun as <-.
  apply elem_of_app in He as [He|He]; [|exact (IH ev2 Hrest e He)].
  apply run_types_points in Hfirst; [|reflexivity].
  rewrite Forall_forall in Hfirst. specialize (Hfirst e He).
  split; [exact Hfirst|]. destruct (getType (curve (event_fit e))); simpl in Hfirst; lia.
Qed.

(** *** Lines under inflection accounting *)

Lemma candidate_line (fitter : Fitter) (fitters : Fitters) (i idx n : nat)
    (ev : list Event) (stop : bool) :
  inflectionAccounting fitter = true ->
  family (fitters LINE) = LINE ->
  candidate _adjust fitter fitters LINE i idx n = Ok (ev, stop) ->
  exists m,
    spans_to i idx n m
    /\ getType (curve m) = LINE
    /\ acceptance fitter m = Ok (negb stop)
    /\ ev = Materialize m :: (if stop then [] else [PushBack m; PushBack (mirrored m)]).
Proof.
  intros Hinfl Hfam Hc.
  apply candidate_shape in Hc as (m & Hspan & Hm & Hs & He & Hacc & Hstop & Hgo).
  exists m. split; [exact Hspan|]. split.
  { rewrite Hm. unfold getPrimitive. rewrite bestFit_type. exact Hfam. }
  split; [exact Hacc|]. destruct stop; [rewrite (Hstop eq_refl); reflexivity|].
  destruct (Hgo eq_refl) as (extra & -> & Hextra). rewrite Hinfl in *. simpl in *.
  destruct Hextra as [[_ ->]|[Hdiff _]]; [reflexivity|].
  pose proof (same_sign_no_split fitters LINE m true true Hfam ltac:(discriminate) Hs He)
    as Hsame.
  simpl in Hsame. rewrite Hsame in Hdiff. discriminate.
Qed.

Lemma traverse_line (fitter : Fitter) (i : nat) (circ : list (nat * (Qc * Qc))) :
  forall (n : nat) (fitters fitters' : Fitters) (ev : list Event),
    inflectionAccounting fitter = true ->
    family (fitters LINE) = LINE ->
    traverse _adjust fitter LINE i circ n fitters = Ok (fitters', ev) ->
    primitives ev = flat_map both_orientations (accepted fitter ev)
    /\ Forall (fun f => getType (curve f) = LINE) (accepted fitter ev).
Proof.
  induction circ as [|[idx pt] circ IH]; intros n fitters fitters' ev Hinfl Hfam Ht;
    simpl in Ht.
  { injection Ht as <- <-. split; [reflexivity | constructor]. }
  destruct (skip_type fitter LINE (S n)).
  { injection Ht as <- <-. split; [reflexivity | constructor]. }
  apply bind_Ok in Ht as ([ev1 stop] & Hmeasure & Ht).
  assert (Hfam1 : family (set_fitter fitters LINE (addPoint (fitters LINE) pt) LINE) = LINE).
  { unfold set_fitter. destruct (decide (LINE = LINE)); [exact Hfam | contradiction]. }
  assert (Hone : primitives ev1 = flat_map both_orientations (accepted fitter ev1)
                 /\ Forall (fun f => getType (curve f) = LINE) (accepted fitter ev1)).
  { apply measure_trace in Hmeasure as [(_ & -> & _)|[_ Hc]];
      [split; [reflexivity | constructor]|].
    apply (candidate_line _ _ _ _ _ _ _ Hinfl Hfam1) in Hc as (m & _ & Hline & Hacc & ->).
    unfold accepted, passes. simpl. rewrite Hacc.
    destruct stop; simpl; split; try reflexivity; repeat constructor. exact Hline. }
  destruct Hone as [Hprim1 Hline1].
  destruct stop; [injection Ht as <- <-; auto|].
  destruct (corner_stop fitter (S n) idx); [injection Ht as <- <-; auto|].
  apply bind_Ok in Ht as ([fs ev2] & Hrec & Ht). injection Ht as <- <-.
  apply (IH _ _ _ _ Hinfl Hfam1) in Hrec as [Hprim2 Hline2].
  unfold primitives, accepted in *. rewrite !omap_app, flat_map_app, Hprim1, Hprim2.
  split; [reflexivity|]. apply Forall_app. split; assumption.
Qed.

(** C6.  With inflection accounting enabled, the search for Lines from a
    start index emits, for every Line candidate that passes the acceptance
    test, that candidate immediately followed by its mirror image: the same
    curve, start index, end index, number of points and error, with both
    curvature signs negated.  Nothing else is emitted, so each valid Line
    span yields exactly two candidates, and the valid spans are pairwise
    different. *)
Theorem line_emitted_twice (fitter : Fitter) (i : nat) (fitters fitters' : Fitters)
    (ev : list Event) :
  inflectionAccounting fitter = true ->
  family (fitters LINE) = LINE ->
  run_pair _adjust fitter LINE i fitters = Ok (fitters', ev) ->
  primitives ev = flat_map both_orientations (accepted fitter ev)
  /\ Forall (fun f => getType (curve f) = LINE) (accepted fitter ev)
  /\ StronglySorted (fun a b => (numPts a < numPts b)%nat) (accepted fitter ev)
  /\ (forall m, m ∈ accepted fitter ev <->
                Materialize m ∈ ev /\ acceptance fitter m = Ok true)
  /\ forall f,
       both_orientations f = [f; mirrored f]
       /\ curve (mirrored f) = curve f
       /\ startIdx (mirrored f) = startIdx f
       /\ endIdx (mirrored f) = endIdx f
       /\ numPts (mirrored f) = numPts f
       /\ error (mirrored f) = error f
       /\ startCurvSign (mirrored f) = (- startCurvSign f)%Z
       /\ endCurvSign (mirrored f) = (- endCurvSign f)%Z.
Proof.
  intros Hinfl Hfam Hrun. unfold run_pair in Hrun.
  destruct (traverse_line _ _ _ _ _ _ _ Hinfl Hfam Hrun) as [Hprim Hline].
  apply traverse_trace in Hrun as (_ & Hsorted & _).
  split; [exact Hprim|]. split; [exact Hline|]. split; [|split].
  - eapply StronglySorted_omap; [|exact Hsorted].
    intros x y a b [_ Hlt] Hx Hy. destruct x as [mx| |], y as [my| |]; try discriminate.
    destruct (passes fitter mx), (passes fitter my); try discriminate.
    injection Hx as <-. injection Hy as <-. apply Hlt. eexists. reflexivity.
  - intros m. unfold accepted. rewrite list_elem_of_omap. split.
    + intros (e & He & Hm). destruct e as [m'| |]; try discriminate.
      destruct (passes fitter m') eqn:Hpass; [|discriminate]. injection Hm as ->.
      split; [exact He|]. unfold passes in Hpass.
      destruct (acceptance fitter m) as [[|]|]; [reflexivity | discriminate | discriminate].
    + intros [He Hacc]. exists (Materialize m). split; [exact He|].
      unfold passes. rewrite Hacc. reflexivity.
  - intros f. repeat split.
Qed.

End GeometryContract.

End GeneratorProperties.

(** ** Further properties of the generator *)

Lemma feed_other (fitters : Fitters) (type t : PrimitiveType) (pts : list (Qc * Qc)) :
  t ≠ type -> feed fitters type pts t = fitters t.
Proof.
  intros Hne. revert fitters. induction pts as [|pt pts IH]; intros fitters; [reflexivity|].
  unfold feed in *. simpl. rewrite IH. unfold set_fitter.
  destruct (decide (t = type)); [contradiction | reflexivity].
Qed.

Lemma feed_same (fitters : Fitters) (type : PrimitiveType) (pts : list (Qc * Qc)) :
  feed fitters type pts type
  = mkFitter (family (fitters type)) (fed (fitters type) ++ pts).
Proof.
  revert fitters. induction pts as [|pt pts IH]; intros fitters.
  - simpl. rewrite app_nil_r. destruct (fitters type); reflexivity.
  - unfold feed in *. simpl. rewrite IH. unfold set_fitter.
    destruct (decide (type = type)); [|contradiction]. simpl.
    rewrite <- app_assoc. reflexivity.
Qed.

Lemma ltb_not_gtb (q t : Qc) : ltb q t = true -> gtb q t = false.
Proof.
  intros Hlt. apply ltb_true in Hlt. unfold gtb. apply bool_decide_eq_false.
  intros Hgt. exact (Qclt_not_eq _ _ (Qclt_trans _ _ _ Hlt Hgt) eq_refl).
Qed.

Lemma unit_sign_choice (b : bool) : unit_sign (if b then 1 else -1)%Z.
Proof. destruct b; [left | right]; reflexivity. Qed.

Lemma unit_sign_opp (z : Z) : unit_sign z -> unit_sign (- z)%Z.
Proof. intros [-> | ->]; [right | left]; reflexivity. Qed.

Section GeneratorExtras.
Context `{ParamLayout} `{Geometry}.
Variable _adjust : bool.

(** *** Where an event of the trace comes from

    An event of the search for a pair was left by the body of the loop at
    some position [k] of the circulator: the [k + 1] first samples had been
    fed, the type had its minimum of points, and no earlier pass had left
    the loop. *)
Lemma traverse_origin (fitter : Fitter) (type : PrimitiveType) (i : nat)
    (circ : list (nat * (Qc * Qc))) :
  forall (n0 : nat) (fitters0 fs : Fitters) (ev : list Event),
    traverse _adjust fitter type i circ n0 fitters0 = Ok (fs, ev) ->
    forall e, e ∈ ev ->
    exists k idx pt evk stop,
      circ !! k = Some (idx, pt)
      /\ candidate _adjust fitter (feed fitters0 type (take (S k) circ).*2)
           type i idx (n0 + S k) = Ok (evk, stop)
      /\ e ∈ evk
      /\ (2 + type_index type ≤ n0 + S k)%nat
      /\ (forall j, (j ≤ k)%nat -> skip_type fitter type (n0 + S j) = false)
      /\ (forall j idx' pt', (j < k)%nat -> circ !! j = Some (idx', pt') ->
            corner_stop fitter (n0 + S j) idx' = false).
Proof.
  induction circ as [|[idx0 pt0] circ IH]; intros n0 fitters0 fs ev Ht e He; simpl in Ht.
  { injection Ht as <- <-. apply elem_of_nil in He. contradiction. }
  destruct (skip_type fitter type (S n0)) eqn:Hskip.
  { injection Ht as <- <-. apply elem_of_nil in He. contradiction. }
  apply bind_Ok in Ht as ([ev1 stop] & Hmeasure & Ht).
  assert (Hhead : e ∈ ev1 ->
            exists k idx pt evk stop',
              ((idx0, pt0) :: circ) !! k = Some (idx, pt)
              /\ candidate _adjust fitter
                   (feed fitters0 type (take (S k) ((idx0, pt0) :: circ)).*2)
                   type i idx (n0 + S k) = Ok (evk, stop')
              /\ e ∈ evk
              /\ (2 + type_index type ≤ n0 + S k)%nat
              /\ (forall j, (j ≤ k)%nat -> skip_type fitter type (n0 + S j) = false)
              /\ (forall j idx' pt', (j < k)%nat ->
                    ((idx0, pt0) :: circ) !! j = Some (idx', pt') ->
                    corner_stop fitter (n0 + S j) idx' = false)).
  { intros He1. apply measure_trace in Hmeasure as [(_ & -> & _)|[Hle Hc]].
    { apply elem_of_nil in He1. contradiction. }
    exists 0%nat, idx0, pt0, ev1, stop. rewrite Nat.add_1_r.
    split; [reflexivity|]. split; [exact Hc|]. split; [exact He1|]. split; [exact Hle|].
    split.
    - intros j Hj. assert (j = 0%nat) as -> by lia. rewrite Nat.add_1_r. exact Hskip.
    - intros j idx' pt' Hj. lia. }
  destruct stop; [injection Ht as <- <-; auto|].
  destruct (corner_stop fitter (S n0) idx0) eqn:Hcorner; [injection Ht as <- <-; auto|].
  apply bind_Ok in Ht as ([fs2 ev2] & Hrec & Ht). injection Ht as <- <-.
  apply elem_of_app in He as [He|He]; [auto|].
  destruct (IH _ _ _ _ Hrec e He) as (k & idx & pt & evk & stop' & Hk & Hc & Hin & Hle & Hsk & Hco).
  exists (S k), idx, pt, evk, stop'.
  replace (n0 + S (S k))%nat with (S n0 + S k)%nat by lia.
  split; [exact Hk|]. split; [exact Hc|]. split; [exact Hin|]. split; [exact Hle|]. split.
  - intros [|j] Hj; [rewrite Nat.add_1_r; exact Hskip|].
    replace (n0 + S (S j))%nat with (S n0 + S j)%nat by lia. apply Hsk. lia.
  - intros [|j] idx' pt' Hj Hlook.
    + injection Hlook as <- <-. rewrite Nat.add_1_r. exact Hcorner.
    + replace (n0 + S (S j))%nat with (S n0 + S j)%nat by lia.
      apply (Hco j idx' pt'); [lia | exact Hlook].
Qed.

(** *** What every event of one pass satisfies *)

Lemma split_events_sound (fitter : Fitter) (s : FitPrimitive) (q : Qc) (i idx n : nat) :
  spans_to i idx n s ->
  error s = computeError (errorComputer fitter) (curve s) i idx ->
  unit_sign (startCurvSign s) ->
  startCurvSign s = endCurvSign s ->
  divide (error s) (lengthFromTo fitter i idx) = Ok q ->
  Forall (fun e =>
            spans_to i idx n (event_fit e)
            /\ error (event_fit e)
               = computeError (errorComputer fitter) (curve (event_fit e)) i idx
            /\ unit_sign (startCurvSign (event_fit e))
            /\ unit_sign (endCurvSign (event_fit e))
            /\ (is_Some (pushed e) -> acceptance fitter (event_fit e) = Ok true)
            /\ (is_Some (materialized e) -> False)
            /\ startCurvSign (event_fit e) = endCurvSign (event_fit e))
         (split_events fitter s q).
Proof.
  intros Hspan Herr Hsign Hsame Hq. unfold split_events.
  assert (Hend : unit_sign (endCurvSign s)) by (rewrite <- Hsame; exact Hsign).
  apply Forall_cons. split.
  { repeat split; try assumption; try apply Hspan; simpl; intros [? [=]]. }
  destruct (ltb q (threshold2 fitter)) eqn:Hlt; [|apply Forall_nil; exact I].
  apply Forall_cons. split; [|apply Forall_nil; exact I].
  repeat split; try assumption; try apply Hspan; simpl.
  - intros _. unfold acceptance. destruct Hspan as (-> & -> & _).
    rewrite Hq. simpl. rewrite (ltb_not_gtb _ _ Hlt). reflexivity.
  - intros [? [=]].
Qed.

Lemma inflection_split_sound (fitter : Fitter) (fitters : Fitters)
    (fit : FitPrimitive) (ev : list Event) :
  inflection_split _adjust fitter fitters fit
    (lengthFromTo fitter (startIdx fit) (endIdx fit)) = Ok ev ->
  Forall (fun e =>
            spans_to (startIdx fit) (endIdx fit) (numPts fit) (event_fit e)
            /\ error (event_fit e)
               = computeError (errorComputer fitter) (curve (event_fit e))
                   (startIdx fit) (endIdx fit)
            /\ unit_sign (startCurvSign (event_fit e))
            /\ unit_sign (endCurvSign (event_fit e))
            /\ (is_Some (pushed e) -> acceptance fitter (event_fit e) = Ok true)
            /\ (is_Some (materialized e) -> False)
            /\ startCurvSign (event_fit e) = endCurvSign (event_fit e))
         ev.
Proof.
  unfold inflection_split. intros Hb.
  apply bind_Ok in Hb as ([s1 ev1] & H1 & Hb). apply bind_Ok in Hb as ([s2 ev2] & H2 & Hb).
  injection Hb as <-.
  apply split_candidate_shape in H1
    as (Hspan1 & _ & Hs1 & He1 & Herr1 & q1 & Hq1 & ->).
  apply split_candidate_shape in H2
    as (Hspan2 & _ & Hs2 & He2 & Herr2 & q2 & Hq2 & ->).
  destruct Hspan1 as (Hi1 & Hj1 & Hn1). rewrite Hi1, Hj1, Hn1 in *.
  apply Forall_app. split; apply split_events_sound; try assumption.
  - repeat split; assumption.
  - rewrite Hs1. apply unit_sign_choice.
  - rewrite Hs1, He1. reflexivity.
  - rewrite Hs2. apply unit_sign_choice.
  - rewrite Hs2, He2. reflexivity.
Qed.

Lemma candidate_sound (fitter : Fitter) (fitters : Fitters) (type : PrimitiveType)
    (i idx n : nat) (ev : list Event) (stop : bool) :
  candidate _adjust fitter fitters type i idx n = Ok (ev, stop) ->
  Forall (fun e =>
            spans_to i idx n (event_fit e)
            /\ error (event_fit e)
               = computeError (errorComputer fitter) (curve (event_fit e)) i idx
            /\ unit_sign (startCurvSign (event_fit e))
            /\ unit_sign (endCurvSign (event_fit e))
            /\ (is_Some (pushed e) -> acceptance fitter (event_fit e) = Ok true)
            /\ (is_Some (split_tested e) ->
                startCurvSign (event_fit e) = endCurvSign (event_fit e)))
         ev.
Proof.
  unfold candidate. intros Hb.
  apply bind_Ok in Hb as (fa & Hadj & Hb). apply bind_Ok in Hb as (q & Hq & Hb).
  apply adjusted_shape in Hadj as (c' & -> & _). simpl in *.
  set (m := with_error (computeError (errorComputer fitter) c' i idx)
              (with_curve c'
                 {| curve := getPrimitive (fitters type); startIdx := i; endIdx := idx;
                    numPts := n;
                    startCurvSign :=
                      (if geb (startCurvature (getPrimitive (fitters type))) 0
                       then 1 else -1)%Z;
                    endCurvSign :=
                      (if geb (endCurvature (getPrimitive (fitters type))) 0
                       then 1 else -1)%Z;
                    error := 0 |})) in *.
  assert (Hm : forall e, event_fit e = m \/ event_fit e = mirrored m ->
                 spans_to i idx n (event_fit e)
                 /\ error (event_fit e)
                    = computeError (errorComputer fitter) (curve (event_fit e)) i idx
                 /\ unit_sign (startCurvSign (event_fit e))
                 /\ unit_sign (endCurvSign (event_fit e))).
  { intros e [-> | ->]; simpl; repeat split;
      try apply unit_sign_opp; apply unit_sign_choice. }
  destruct (gtb q (threshold2 fitter)) eqn:Hgt.
  { injection Hb as <- <-. apply Forall_cons. split; [|apply Forall_nil; exact I].
    destruct (Hm (Materialize m) (or_introl eq_refl)) as (? & ? & ? & ?).
    refine (conj _ (conj _ (conj _ (conj _ (conj _ _))))); try assumption;
      simpl; intros [? [=]]. }
  assert (Hacc : acceptance fitter m = Ok true /\ acceptance fitter (mirrored m) = Ok true).
  { unfold acceptance. simpl. rewrite Hq. simpl. rewrite Hgt. split; reflexivity. }
  destruct Hacc as [Hacc Hacc'].
  assert (Hbase : forall e, split_tested e = None ->
                    event_fit e = m \/ event_fit e = mirrored m ->
                    spans_to i idx n (event_fit e)
                    /\ error (event_fit e)
                       = computeError (errorComputer fitter) (curve (event_fit e)) i idx
                    /\ unit_sign (startCurvSign (event_fit e))
                    /\ unit_sign (endCurvSign (event_fit e))
                    /\ (is_Some (pushed e) -> acceptance fitter (event_fit e) = Ok true)
                    /\ (is_Some (split_tested e) ->
                        startCurvSign (event_fit e) = endCurvSign (event_fit e))).
  { intros e Hno He. destruct (Hm e He) as (? & ? & ? & ?).
    refine (conj _ (conj _ (conj _ (conj _ (conj _ _))))); try assumption.
    - intros _. destruct He as [-> | ->]; assumption.
    - rewrite Hno. intros [? [=]]. }
  assert (Hsplit : forall fit extra,
            fit = m \/ fit = mirrored m ->
            inflection_split _adjust fitter fitters fit (lengthFromTo fitter i idx)
            = Ok extra ->
            Forall (fun e =>
                      spans_to i idx n (event_fit e)
                      /\ error (event_fit e)
                         = computeError (errorComputer fitter) (curve (event_fit e)) i idx
                      /\ unit_sign (startCurvSign (event_fit e))
                      /\ unit_sign (endCurvSign (event_fit e))
                      /\ (is_Some (pushed e) -> acceptance fitter (event_fit e) = Ok true)
                      /\ (is_Some (split_tested e) ->
                          startCurvSign (event_fit e) = endCurvSign (event_fit e)))
                   extra).
  { intros fit extra Hfit Hextra.
    assert (Hidx : startIdx fit = i /\ endIdx fit = idx /\ numPts fit = n)
      by (destruct Hfit as [-> | ->]; repeat split).
    destruct Hidx as (Hi & Hj & Hn).
    pose proof (inflection_split_sound fitter fitters fit extra) as Hsound.
    rewrite Hi, Hj, Hn in Hsound. specialize (Hsound Hextra).
    eapply Forall_impl; [exact Hsound|]. simpl.
    intros e (? & ? & ? & ? & ? & _ & ?).
    refine (conj _ (conj _ (conj _ (conj _ (conj _ _))))); try assumption.
    intros _. assumption. }
  destruct (bool_decide (type = LINE) && inflectionAccounting fitter).
  - destruct (bool_decide (startCurvSign (mirrored m) ≠ endCurvSign (mirrored m))
              && inflectionAccounting fitter).
    + apply bind_Ok in Hb as (extra & Hextra & Hb). injection Hb as <- <-. simpl.
      repeat (apply Forall_cons; split; [apply Hbase; simpl; auto|]).
      exact (Hsplit _ _ (or_intror eq_refl) Hextra).
    + injection Hb as <- <-. simpl.
      repeat (apply Forall_cons; split; [apply Hbase; simpl; auto|]).
      apply Forall_nil. exact I.
  - destruct (bool_decide (startCurvSign m ≠ endCurvSign m) && inflectionAccounting fitter).
    + apply bind_Ok in Hb as (extra & Hextra & Hb). injection Hb as <- <-. simpl.
      repeat (apply Forall_cons; split; [apply Hbase; simpl; auto|]).
      exact (Hsplit _ _ (or_introl eq_refl) Hextra).
    + injection Hb as <- <-. simpl.
      repeat (apply Forall_cons; split; [apply Hbase; simpl; auto|]).
      apply Forall_nil. exact I.
Qed.

(** *** The candidates of one pair *)

(** X1.  A candidate of the search from start index [i] starts at [i], has
    at least [type + 2] points and at most as many as the circulator yields,
    and ends at the index the circulator yields at position [numPts - 1]:
    the span of a candidate is the first [numPts] samples of the traversal. *)
Theorem candidate_span_indices (fitter : Fitter) (type : PrimitiveType) (i : nat)
    (fitters fs : Fitters) (ev : list Event) :
  run_pair _adjust fitter type i fitters = Ok (fs, ev) ->
  forall e, e ∈ ev ->
    startIdx (event_fit e) = i
    /\ (2 + type_index type ≤ numPts (event_fit e))%nat
    /\ (numPts (event_fit e) ≤ length (circulator fitter i))%nat
    /\ exists pt,
         circulator fitter i !! (numPts (event_fit e) - 1)%nat = Some (endIdx (event_fit e), pt).
Proof.
  unfold run_pair. intros Hrun e He.
  destruct (traverse_origin _ _ _ _ _ _ _ _ Hrun e He)
    as (k & idx & pt & evk & stop & Hk & Hc & Hin & Hle & _ & _).
  apply candidate_sound in Hc. rewrite Forall_forall in Hc.
  destruct (Hc e Hin) as ((Hi & Hj & Hn) & _). simpl in Hn, Hle.
  rewrite Hi, Hj, Hn. split; [reflexivity|]. split; [exact Hle|].
  apply lookup_lt_Some in Hk as Hlt. split; [lia|].
  exists pt. replace (S k - 1)%nat with k by lia. exact Hk.
Qed.

(** X2.  No candidate runs through a corner: the samples strictly inside
    the span of a candidate (after the first, before the last) are not
    flagged as corners.  The first and the last sample of a span may be. *)
Theorem no_corner_inside_span (fitter : Fitter) (type : PrimitiveType) (i : nat)
    (fitters fs : Fitters) (ev : list Event) :
  run_pair _adjust fitter type i fitters = Ok (fs, ev) ->
  forall e, e ∈ ev ->
  forall j idx pt,
    (1 ≤ j)%nat -> (j + 1 < numPts (event_fit e))%nat ->
    circulator fitter i !! j = Some (idx, pt) ->
    corners fitter idx = false.
Proof.
  unfold run_pair. intros Hrun e He j idx' pt' Hj1 Hj2 Hlook.
  destruct (traverse_origin _ _ _ _ _ _ _ _ Hrun e He)
    as (k & idx & pt & evk & stop & Hk & Hc & Hin & _ & _ & Hcorner).
  apply candidate_sound in Hc. rewrite Forall_forall in Hc.
  destruct (Hc e Hin) as ((_ & _ & Hn) & _). simpl in Hn.
  assert (Hjk : (j < k)%nat) by lia.
  specialize (Hcorner j idx' pt' Hjk Hlook). unfold corner_stop in Hcorner. simpl in Hcorner.
  rewrite bool_decide_eq_true_2 in Hcorner by lia. exact Hcorner.
Qed.

(** X4.  The curvature signs of every candidate are +1 or -1, and an
    inflection-split candidate has the same sign at both ends. *)
Theorem curvature_signs (fitter : Fitter) (type : PrimitiveType) (i : nat)
    (fitters fs : Fitters) (ev : list Event) :
  run_pair _adjust fitter type i fitters = Ok (fs, ev) ->
  (forall e, e ∈ ev ->
     unit_sign (startCurvSign (event_fit e)) /\ unit_sign (endCurvSign (event_fit e)))
  /\ (forall s, Split s ∈ ev -> startCurvSign s = endCurvSign s).
Proof.
  unfold run_pair. intros Hrun.
  assert (Hall : forall e, e ∈ ev ->
            unit_sign (startCurvSign (event_fit e))
            /\ unit_sign (endCurvSign (event_fit e))
            /\ (is_Some (split_tested e) ->
                startCurvSign (event_fit e) = endCurvSign (event_fit e))).
  { intros e He.
    destruct (traverse_origin _ _ _ _ _ _ _ _ Hrun e He)
      as (k & idx & pt & evk & stop & _ & Hc & Hin & _).
    apply candidate_sound in Hc. rewrite Forall_forall in Hc.
    destruct (Hc e Hin) as (_ & _ & Hs & He' & _ & Heq). auto. }
  split.
  - intros e He. destruct (Hall e He) as (? & ? & _). split; assumption.
  - intros s Hs. destruct (Hall _ Hs) as (_ & _ & Heq). apply Heq. eexists. reflexivity.
Qed.

(** *** Too few samples *)

Lemma traverse_too_short (fitter : Fitter) (type : PrimitiveType) (i : nat)
    (circ : list (nat * (Qc * Qc))) :
  forall (n : nat) (fitters : Fitters),
    (n + length circ < 2 + type_index type)%nat ->
    exists fs, traverse _adjust fitter type i circ n fitters = Ok (fs, []).
Proof.
  induction circ as [|[idx pt] circ IH]; intros n fitters Hshort; simpl.
  { eexists. reflexivity. }
  destruct (skip_type fitter type (S n)); [eexists; reflexivity|].
  unfold measure. destruct (decide (2 + type_index type ≤ S n)%nat) as [Hle|_].
  { simpl in Hshort. lia. }
  simpl. destruct (corner_stop fitter (S n) idx); [eexists; reflexivity|].
  destruct (IH (S n) (set_fitter fitters type (addPoint (fitters type) pt))) as [fs ->].
  { simpl in Hshort. lia. }
  eexists. reflexivity.
Qed.

(** X5.  A traversal that yields fewer samples than the type needs
    ([type + 2]) gives no candidate and no fault, with or without
    refinement; when no start index has two samples to traverse, in
    particular on an empty sample sequence, [_run] returns an empty
    output. *)
Theorem too_few_samples (fitter : Fitter) :
  (forall type i fitters,
     (length (circulator fitter i) < 2 + type_index type)%nat ->
     exists fs, run_pair _adjust fitter type i fitters = Ok (fs, []))
  /\ ((forall i, (i < pts_size fitter)%nat -> (length (circulator fitter i) < 2)%nat) ->
      _run _adjust fitter = Ok []).
Proof.
  split.
  - intros type i fitters Hshort. unfold run_pair. apply traverse_too_short. lia.
  - intros Hshort. unfold _run.
    assert (Hstarts : forall starts, Forall (fun i => (i < pts_size fitter)%nat) starts ->
                        run_starts _adjust fitter starts = Ok []).
    { induction 1 as [|i starts Hi Hstarts IH]; [reflexivity|].
      cbn [run_starts]. specialize (Hshort i Hi).
      unfold run_types, run_pair.
      destruct (traverse_too_short fitter LINE i (circulator fitter i) 0 fresh_fitters)
        as [fs1 ->]; [simpl; lia|]. cbn [mbind Result_bind].
      destruct (traverse_too_short fitter ARC i (circulator fitter i) 0 fs1)
        as [fs2 ->]; [simpl; lia|]. cbn [mbind Result_bind].
      destruct (traverse_too_short fitter CLOTHOID i (circulator fitter i) 0 fs2)
        as [fs3 ->]; [simpl; lia|]. cbn [mbind Result_bind app].
      rewrite IH. reflexivity. }
    apply Hstarts. apply Forall_forall. intros i Hi.
    apply elem_of_seq in Hi. lia.
Qed.

(** *** Without inflection accounting *)

Lemma candidate_plain (fitter : Fitter) (fitters : Fitters) (type : PrimitiveType)
    (i idx n : nat) (ev : list Event) (stop : bool) :
  inflectionAccounting fitter = false ->
  candidate _adjust fitter fitters type i idx n = Ok (ev, stop) ->
  exists m,
    acceptance fitter m = Ok (negb stop)
    /\ ev = Materialize m :: (if stop then [] else [PushBack m]).
Proof.
  intros Hinfl Hc.
  apply candidate_shape in Hc as (m & _ & _ & _ & _ & Hacc & Hstop & Hgo).
  exists m. split; [exact Hacc|].
  destruct stop; [exact (Hstop eq_refl)|].
  destruct (Hgo eq_refl) as (extra & -> & Hextra). rewrite Hinfl in *.
  rewrite andb_false_r in *.
  destruct Hextra as [[_ ->]|[Hdiff _]]; [reflexivity | discriminate].
Qed.

Lemma traverse_plain (fitter : Fitter) (type : PrimitiveType) (i : nat)
    (circ : list (nat * (Qc * Qc))) :
  forall (n : nat) (fitters fs : Fitters) (ev : list Event),
    inflectionAccounting fitter = false ->
    traverse _adjust fitter type i circ n fitters = Ok (fs, ev) ->
    primitives ev = accepted fitter ev /\ omap split_tested ev = [].
Proof.
  induction circ as [|[idx pt] circ IH]; intros n fitters fs ev Hinfl Ht; simpl in Ht.
  { injection Ht as <- <-. split; reflexivity. }
  destruct (skip_type fitter type (S n)); [injection Ht as <- <-; split; reflexivity|].
  apply bind_Ok in Ht as ([ev1 stop] & Hmeasure & Ht).
  assert (Hone : primitives ev1 = accepted fitter ev1 /\ omap split_tested ev1 = []).
  { apply measure_trace in Hmeasure as [(_ & -> & _)|[_ Hc]]; [split; reflexivity|].
    apply (candidate_plain _ _ _ _ _ _ _ _ Hinfl) in Hc as (m & Hacc & ->).
    unfold accepted, passes. simpl. rewrite Hacc. destruct stop; split; reflexivity. }
  destruct Hone as [Hprim1 Hsplit1].
  destruct stop; [injection Ht as <- <-; auto|].
  destruct (corner_stop fitter (S n) idx); [injection Ht as <- <-; auto|].
  apply bind_Ok in Ht as ([fs2 ev2] & Hrec & Ht). injection Ht as <- <-.
  apply (IH _ _ _ _ Hinfl) in Hrec as [Hprim2 Hsplit2].
  unfold primitives, accepted in *. rewrite !omap_app, Hprim1, Hprim2, Hsplit1, Hsplit2.
  split; reflexivity.
Qed.

(** X6.  Without inflection accounting the search for a pair emits exactly
    the built candidates that pass the acceptance test, one per span and in
    order of strictly growing span; no mirrored candidate is emitted and no
    inflection-split candidate is built. *)
Theorem one_candidate_per_span (fitter : Fitter) (type : PrimitiveType) (i : nat)
    (fitters fs : Fitters) (ev : list Event) :
  inflectionAccounting fitter = false ->
  run_pair _adjust fitter type i fitters = Ok (fs, ev) ->
  primitives ev = accepted fitter ev
  /\ omap split_tested ev = []
  /\ StronglySorted (fun a b => (numPts a < numPts b)%nat) (primitives ev).
Proof.
  unfold run_pair. intros Hinfl Hrun.
  destruct (traverse_plain _ _ _ _ _ _ _ _ Hinfl Hrun) as [Hprim Hsplit].
  split; [exact Hprim|]. split; [exact Hsplit|]. rewrite Hprim.
  apply traverse_trace in Hrun as (_ & Hsorted & _).
  eapply StronglySorted_omap; [|exact Hsorted].
  intros x y a b [_ Hlt] Hx Hy. destruct x as [mx| |], y as [my| |]; try discriminate.
  destruct (passes fitter mx), (passes fitter my); try discriminate.
  injection Hx as <-. injection Hy as <-. apply Hlt. eexists. reflexivity.
Qed.

(** *** A type that is not needed *)

Lemma sorted_constant_short {A} (key : A -> nat) (c : nat) (l : list A) :
  StronglySorted (fun a b => (key a < key b)%nat) l ->
  Forall (fun a => key a = c) l ->
  (length l ≤ 1)%nat.
Proof.
  intros Hsorted Hall. destruct l as [|a [|b l]]; simpl; try lia.
  apply StronglySorted_cons in Hsorted as [Hfirst _].
  apply Forall_cons in Hfirst as [Hab _].
  apply Forall_cons in Hall as [Ha Hall]. apply Forall_cons in Hall as [Hb _]. lia.
Qed.

Lemma traverse_reaches (fitter : Fitter) (type : PrimitiveType) (i : nat)
    (circ : list (nat * (Qc * Qc))) :
  forall (n : nat) (fitters fs : Fitters) (ev : list Event),
    traverse _adjust fitter type i circ n fitters = Ok (fs, ev) ->
    (n < 2 + type_index type)%nat ->
    (2 + type_index type ≤ n + length circ)%nat ->
    (forall c, (n < c)%nat -> (c ≤ 2 + type_index type)%nat ->
       skip_type fitter type c = false) ->
    (forall j idx pt, circ !! j = Some (idx, pt) -> (n + S j < 2 + type_index type)%nat ->
       corner_stop fitter (n + S j) idx = false) ->
    exists m rest,
      ev = Materialize m :: rest
      /\ startIdx m = i /\ numPts m = (2 + type_index type)%nat.
Proof.
  induction circ as [|[idx pt] circ IH]; intros n fitters fs ev Ht Hn Hlen Hskip Hcorner.
  { simpl in Hlen. lia. }
  simpl in Ht. rewrite (Hskip (S n)) in Ht by lia.
  apply bind_Ok in Ht as ([ev1 stop] & Hmeasure & Ht).
  apply measure_trace in Hmeasure as [(Hlt & -> & ->)|[Hle Hc]].
  - assert (Hcs : corner_stop fitter (S n) idx = false).
    { replace (S n) with (n + 1)%nat by lia.
      apply (Hcorner 0%nat idx pt); [reflexivity | lia]. }
    rewrite Hcs in Ht.
    apply bind_Ok in Ht as ([fs2 ev2] & Hrec & Ht). injection Ht as <- <-.
    apply IH in Hrec as (m & rest & -> & Hm).
    + exists m, rest. split; [reflexivity | exact Hm].
    + exact Hlt.
    + simpl in Hlen. lia.
    + intros c Hc1 Hc2. apply Hskip; lia.
    + intros j idx' pt' Hj Hlt'. replace (S n + S j)%nat with (n + S (S j))%nat by lia.
      apply (Hcorner (S j) idx' pt'); [exact Hj | lia].
  - apply candidate_shape in Hc as (m & (Hstart & _ & Hnum) & _ & _ & _ & _ & Hstop & Hgo).
    assert (Hm : startIdx m = i /\ numPts m = (2 + type_index type)%nat)
      by (split; [exact Hstart | lia]).
    destruct stop.
    + injection Ht as <- <-. rewrite (Hstop eq_refl). exists m, []. split; [reflexivity | exact Hm].
    + destruct (Hgo eq_refl) as (extra & -> & _).
      destruct (corner_stop fitter (S n) idx).
      * injection Ht as <- <-. eexists m, _. split; [reflexivity | exact Hm].
      * apply bind_Ok in Ht as ([fs2 ev2] & _ & Ht). injection Ht as <- <-.
        eexists m, _. split; [reflexivity | exact Hm].
Qed.

Lemma traverse_early_corner (fitter : Fitter) (type : PrimitiveType) (i : nat)
    (circ : list (nat * (Qc * Qc))) :
  forall (n : nat) (fitters fs : Fitters) (ev : list Event) (j idx : nat) (pt : Qc * Qc),
    traverse _adjust fitter type i circ n fitters = Ok (fs, ev) ->
    circ !! j = Some (idx, pt) ->
    (1 < n + S j)%nat -> (n + S j < 2 + type_index type)%nat ->
    corners fitter idx = true ->
    ev = [].
Proof.
  induction circ as [|[idx0 pt0] circ IH]; intros n fitters fs ev j idx pt Ht Hj Hlo Hhi Hc.
  { discriminate Hj. }
  simpl in Ht. destruct (skip_type fitter type (S n)); [injection Ht as <- <-; reflexivity|].
  apply bind_Ok in Ht as ([ev1 stop] & Hmeasure & Ht).
  apply measure_trace in Hmeasure as [(_ & -> & ->)|[Hle _]]; [|lia].
  destruct j as [|j].
  - injection Hj as -> ->. unfold corner_stop in Ht. rewrite Hc in Ht.
    rewrite bool_decide_eq_true_2 in Ht by lia. injection Ht as <- <-. reflexivity.
  - destruct (corner_stop fitter (S n) idx0); [injection Ht as <- <-; reflexivity|].
    apply bind_Ok in Ht as ([fs2 ev2] & Hrec & Ht). injection Ht as <- <-.
    apply (IH (S n) _ _ _ j idx pt Hrec Hj); [lia | lia | exact Hc].
Qed.

(** X7.  When the cost of a type is not below [Parameters::infinity] the
    search for that type is cut short, not skipped.  For a Clothoid nothing
    is built.  For a Line or an Arc the candidate over the minimum span
    ([type + 2] points) is still built and measured, and it is the only one:
    it is built when the traversal yields [type + 2] samples and, for an
    Arc, the second sample is not a corner; a shorter traversal or a corner
    at the second sample of an Arc leaves nothing.  No longer span is
    built. *)
Theorem unneeded_type_minimal_span (fitter : Fitter) (type : PrimitiveType) (i : nat)
    (fitters fs : Fitters) (ev : list Event) :
  needType fitter type = false ->
  run_pair _adjust fitter type i fitters = Ok (fs, ev) ->
  (type = CLOTHOID -> ev = [])
  /\ (forall e, e ∈ ev -> numPts (event_fit e) = (2 + type_index type)%nat)
  /\ (length (omap materialized ev) ≤ 1)%nat
  /\ (type ≠ CLOTHOID ->
      (2 + type_index type ≤ length (circulator fitter i))%nat ->
      (forall j idx pt, (1 ≤ j)%nat -> (j ≤ type_index type)%nat ->
         circulator fitter i !! j = Some (idx, pt) -> corners fitter idx = false) ->
      exists m rest,
        ev = Materialize m :: rest
        /\ omap materialized ev = [m]
        /\ startIdx m = i /\ numPts m = (2 + type_index type)%nat)
  /\ ((length (circulator fitter i) < 2 + type_index type)%nat -> ev = [])
  /\ (forall j idx pt, (1 ≤ j)%nat -> (j ≤ type_index type)%nat ->
        circulator fitter i !! j = Some (idx, pt) -> corners fitter idx = true -> ev = []).
Proof.
  unfold run_pair. intros Hneed Hrun.
  assert (Hev : forall e, e ∈ ev ->
            type ≠ CLOTHOID /\ numPts (event_fit e) = (2 + type_index type)%nat).
  { intros e He.
    destruct (traverse_origin _ _ _ _ _ _ _ _ Hrun e He)
      as (k & idx & pt & evk & stop & _ & Hc & Hin & Hle & Hskip & _).
    apply candidate_sound in Hc. rewrite Forall_forall in Hc.
    destruct (Hc e Hin) as ((_ & _ & Hn) & _). simpl in Hn, Hle.
    specialize (Hskip k (le_n k)). unfold skip_type in Hskip. rewrite Hneed in Hskip.
    simpl in Hskip. apply orb_false_iff in Hskip as [Hclo Hlong].
    apply bool_decide_eq_false in Hclo. apply bool_decide_eq_false in Hlong.
    split; [exact Hclo|]. lia. }
  assert (Hone : (length (omap materialized ev) ≤ 1)%nat).
  { pose proof Hrun as Htrace. apply traverse_trace in Htrace as (_ & Hsorted & _).
    apply (sorted_constant_short numPts (2 + type_index type)).
    + eapply StronglySorted_omap; [|exact Hsorted].
      intros x y a b [_ Hlt] Hx Hy. destruct x, y; try discriminate.
      injection Hx as <-. injection Hy as <-. apply Hlt. eexists. reflexivity.
    + apply Forall_forall. intros m Hm. apply list_elem_of_omap in Hm as (e & He & Hmat).
      destruct e; try discriminate. injection Hmat as ->. exact (proj2 (Hev _ He)). }
  split; [|split; [|split; [exact Hone|split; [|split]]]].
  - intros Hclo. destruct ev as [|e ev]; [reflexivity|].
    destruct (Hev e (list_elem_of_here _ _)) as [Hne _]. contradiction.
  - intros e He. exact (proj2 (Hev e He)).
  - intros Htype Hlen Hcorners.
    destruct (traverse_reaches _ _ _ _ _ _ _ _ Hrun) as (m & rest & -> & Hstart & Hnum).
    + lia.
    + simpl. exact Hlen.
    + intros c _ Hc. unfold skip_type.
      rewrite (bool_decide_eq_false_2 (type = CLOTHOID)) by exact Htype.
      rewrite (bool_decide_eq_false_2 (3 + type_index type ≤ c)%nat) by lia.
      apply andb_false_r.
    + intros j idx pt Hj Hlt. unfold corner_stop. simpl in Hlt |- *.
      destruct j as [|j]; [reflexivity|].
      rewrite (Hcorners (S j) idx pt); [apply andb_false_r | lia | lia | exact Hj].
    + exists m, rest. split; [reflexivity|]. split; [|split; assumption].
      change (omap materialized (Materialize m :: rest))
        with (m :: omap materialized rest) in Hone |- *.
      destruct (omap materialized rest); [reflexivity | simpl in Hone; lia].
  - intros Hshort.
    destruct (traverse_too_short fitter type i (circulator fitter i) 0 fitters) as [fs' Hnone];
      [simpl; exact Hshort|].
    rewrite Hnone in Hrun. injection Hrun as _ <-. reflexivity.
  - intros j idx pt Hj1 Hj2 Hlook Hcorner.
    apply (traverse_early_corner _ _ _ _ _ _ _ _ j idx pt Hrun Hlook); [simpl; lia | simpl; lia|].
    exact Hcorner.
Qed.

(** *** The fitters *)

Lemma traverse_fed (fitter : Fitter) (type : PrimitiveType) (i : nat)
    (circ : list (nat * (Qc * Qc))) :
  forall (n : nat) (fitters fs : Fitters) (ev : list Event),
    traverse _adjust fitter type i circ n fitters = Ok (fs, ev) ->
    exists k, (k ≤ length circ)%nat
              /\ fs = feed fitters type (take k circ).*2
              /\ Forall (fun e => (numPts (event_fit e) ≤ n + k)%nat) ev.
Proof.
  induction circ as [|[idx pt] circ IH]; intros n fitters fs ev Ht; simpl in Ht.
  { injection Ht as <- <-. exists 0%nat. split; [lia|]. split; [reflexivity | constructor]. }
  destruct (skip_type fitter type (S n)).
  { injection Ht as <- <-. exists 0%nat. split; [simpl; lia|].
    split; [reflexivity | constructor]. }
  apply bind_Ok in Ht as ([ev1 stop] & Hmeasure & Ht).
  assert (Hone : Forall (fun e => numPts (event_fit e) = S n) ev1).
  { apply measure_trace in Hmeasure as [(_ & -> & _)|[_ Hc]]; [constructor|].
    apply candidate_sound in Hc. eapply Forall_impl; [exact Hc|].
    intros e ((_ & _ & Hn) & _). exact Hn. }
  assert (Hstop : exists k, (k ≤ length ((idx, pt) :: circ))%nat
                    /\ set_fitter fitters type (addPoint (fitters type) pt)
                       = feed fitters type (take k ((idx, pt) :: circ)).*2
                    /\ Forall (fun e => (numPts (event_fit e) ≤ n + k)%nat) ev1).
  { exists 1%nat. split; [simpl; lia|]. split; [reflexivity|].
    eapply Forall_impl; [exact Hone|]. simpl. intros e ->. lia. }
  destruct stop; [injection Ht as <- <-; exact Hstop|].
  destruct (corner_stop fitter (S n) idx); [injection Ht as <- <-; exact Hstop|].
  apply bind_Ok in Ht as ([fs2 ev2] & Hrec & Ht). injection Ht as <- <-.
  apply IH in Hrec as (k & Hk & -> & Hev2).
  exists (S k). split; [simpl; lia|]. split; [reflexivity|].
  apply Forall_app. split.
  - eapply Forall_impl; [exact Hone|]. simpl. intros e ->. lia.
  - eapply Forall_impl; [exact Hev2|]. simpl. intros e He. lia.
Qed.

(** X8.  The search for one type only touches the fitter of that type: the
    other two fitters are left as they were, and the fitter of the type has
    been fed, in order, a prefix of the circulator's samples that covers
    every candidate of the pair.  So while [_run] searches for Lines and
    Arcs from fresh fitters, the Clothoid fitter that the inflection split
    reads has been fed no point yet. *)
Theorem only_own_fitter_fed (fitter : Fitter) (type : PrimitiveType) (i : nat)
    (fitters fs : Fitters) (ev : list Event) :
  run_pair _adjust fitter type i fitters = Ok (fs, ev) ->
  (forall t, t ≠ type -> fs t = fitters t)
  /\ (exists k,
        (k ≤ length (circulator fitter i))%nat
        /\ fs type = mkFitter (family (fitters type))
                       (fed (fitters type) ++ (take k (circulator fitter i)).*2)
        /\ forall e, e ∈ ev -> (numPts (event_fit e) ≤ k)%nat)
  /\ (type ≠ CLOTHOID -> fitters CLOTHOID = newFitter CLOTHOID ->
      fs CLOTHOID = newFitter CLOTHOID).
Proof.
  unfold run_pair. intros Hrun.
  apply traverse_fed in Hrun as (k & Hk & -> & Hev).
  split; [|split].
  - intros t Hne. apply feed_other. exact Hne.
  - exists k. split; [exact Hk|]. split; [apply feed_same|].
    rewrite Forall_forall in Hev. exact Hev.
  - intros Hne Hfresh. rewrite feed_other by (apply not_eq_sym; exact Hne). exact Hfresh.
Qed.

(** *** The order of the output *)

Lemma run_types_start (fitter : Fitter) (types : list PrimitiveType) (i : nat) :
  forall (fitters : Fitters) (ev : list Event),
    run_types _adjust fitter types i fitters = Ok ev ->
    Forall (fun e => startIdx (event_fit e) = i) ev.
Proof.
  induction types as [|type types IH]; intros fitters ev Hrun; simpl in Hrun.
  { injection Hrun as <-. constructor. }
  apply bind_Ok in Hrun as ([fs ev1] & Hpair & Hrun).
  apply bind_Ok in Hrun as (ev2 & Hrest & Hrun). injection Hrun as <-.
  apply Forall_app. split; [|exact (IH _ _ Hrest)].
  apply Forall_forall. intros e He. unfold run_pair in Hpair.
  destruct (traverse_origin _ _ _ _ _ _ _ _ Hpair e He)
    as (k & idx & pt & evk & stop & _ & Hc & Hin & _).
  apply candidate_sound in Hc. rewrite Forall_forall in Hc.
  destruct (Hc e Hin) as ((Hi & _) & _). exact Hi.
Qed.

Lemma run_starts_order (fitter : Fitter) (starts : list nat) :
  forall ev : list Event,
    run_starts _adjust fitter starts = Ok ev ->
    Forall (fun e => startIdx (event_fit e) ∈ starts) ev
    /\ (StronglySorted le starts ->
        StronglySorted (fun e1 e2 => (startIdx (event_fit e1) ≤ startIdx (event_fit e2))%nat)
                       ev).
Proof.
  induction starts as [|i starts IH]; intros ev Hrun; cbn [run_starts] in Hrun.
  { injection Hrun as <-. split; constructor. }
  apply bind_Ok in Hrun as (ev1 & Hfirst & Hrun).
  apply bind_Ok in Hrun as (ev2 & Hrest & Hrun). injection Hrun as <-.
  apply run_types_start in Hfirst. destruct (IH _ Hrest) as [Hin2 Hsorted2].
  split.
  - apply Forall_app. split.
    + eapply Forall_impl; [exact Hfirst|]. simpl. intros e ->. apply list_elem_of_here.
    + eapply Forall_impl; [exact Hin2|]. simpl. intros e He. apply list_elem_of_further. exact He.
  - intros Hstarts. apply StronglySorted_cons in Hstarts as [Hi Hstarts].
    apply StronglySorted_app_2; [| |exact (Hsorted2 Hstarts)].
    + intros e1 e2 He1 He2. rewrite Forall_forall in Hfirst, Hin2.
      rewrite (Hfirst e1 He1).
      exact (proj1 (Forall_forall _ _) Hi _ (Hin2 e2 He2)).
    + clear -Hfirst. induction Hfirst as [|e ev He Hev IHev]; constructor; [exact IHev|].
      eapply Forall_impl; [exact Hev|]. simpl. intros e' ->. rewrite He. lia.
Qed.

Lemma seq_sorted (a n : nat) : StronglySorted le (seq a n).
Proof.
  revert a. induction n as [|n IH]; intros a; simpl; constructor; [apply IH|].
  apply Forall_forall. intros b Hb. apply elem_of_seq in Hb. lia.
Qed.

(** X9.  The output of [_run] is ordered by start index: the candidates of
    start index 0 come first, then those of start index 1, and so on, and
    every start index is an index of the sample sequence. *)
Theorem run_output_order (fitter : Fitter) (ev : list Event) :
  _run _adjust fitter = Ok ev ->
  StronglySorted (fun a b => (startIdx a ≤ startIdx b)%nat) (primitives ev)
  /\ forall f, f ∈ primitives ev -> (startIdx f < pts_size fitter)%nat.
Proof.
  unfold _run. intros Hrun. apply run_starts_order in Hrun as [Hin Hsorted].
  split.
  - eapply StronglySorted_omap; [|exact (Hsorted (seq_sorted _ _))].
    intros x y a b Hle Hx Hy. destruct x, y; try discriminate.
    injection Hx as <-. injection Hy as <-. exact Hle.
  - intros f Hf. apply list_elem_of_omap in Hf as (e & He & Hpush).
    destruct e; try discriminate. injection Hpush as ->.
    rewrite Forall_forall in Hin. specialize (Hin _ He). simpl in Hin.
    apply elem_of_seq in Hin. lia.
Qed.

(** *** Under the contract of the fitters *)

Section FitterContract.
Hypothesis bestFit_type : forall t pts, getType (bestFit t pts) = t.
Hypothesis zeroCurvature_type :
  forall pts offset, getType (bestFitZeroCurvature pts offset) = CLOTHOID.
Hypothesis constant_curvature :
  forall c, getType c ≠ CLOTHOID -> startCurvature c = endCurvature c.

Lemma candidate_no_split (fitter : Fitter) (fitters : Fitters) (type : PrimitiveType)
    (i idx n : nat) (ev : list Event) (stop : bool) :
  family (fitters type) = type -> type ≠ CLOTHOID ->
  candidate _adjust fitter fitters type i idx n = Ok (ev, stop) ->
  Forall (fun e => split_tested e = None) ev.
Proof.
  intros Hfam Hne Hc.
  apply candidate_shape in Hc as (m & _ & _ & Hs & He & _ & Hstop & Hgo).
  destruct stop; [rewrite (Hstop eq_refl); repeat constructor|].
  destruct (Hgo eq_refl) as (extra & -> & Hextra).
  rewrite (same_sign_no_split bestFit_type constant_curvature fitters type m _ _
             Hfam Hne Hs He) in Hextra.
  destruct Hextra as [[_ ->]|[Hdiff _]]; [|discriminate].
  rewrite app_nil_r.
  destruct (bool_decide (type = LINE) && inflectionAccounting fitter); repeat constructor.
Qed.

(** X10.  With fitters that return curves of their own family, every
    candidate of the search for a type carries that type's tag, and the
    searches for Lines and for Arcs never build an inflection-split
    candidate: only a Clothoid can have different curvature signs at its two
    ends. *)
Theorem split_only_for_clothoid (fitter : Fitter) (type : PrimitiveType) (i : nat)
    (fitters fs : Fitters) (ev : list Event) :
  family (fitters type) = type ->
  run_pair _adjust fitter type i fitters = Ok (fs, ev) ->
  (forall e, e ∈ ev -> getType (curve (event_fit e)) = type)
  /\ (type ≠ CLOTHOID -> omap split_tested ev = []).
Proof.
  unfold run_pair. intros Hfam Hrun.
  assert (Hfed : forall pts, family (feed fitters type pts type) = type).
  { intros pts. rewrite feed_same. exact Hfam. }
  split.
  - intros e He.
    destruct (traverse_origin _ _ _ _ _ _ _ _ Hrun e He)
      as (k & idx & pt & evk & stop & _ & Hc & Hin & _).
    pose proof (candidate_types _adjust bestFit_type zeroCurvature_type constant_curvature
                  _ _ _ _ _ _ _ _ (Hfed _) Hc) as Htypes.
    rewrite Forall_forall in Htypes. exact (Htypes e Hin).
  - intros Hne.
    assert (Hnone : forall e, e ∈ ev -> split_tested e = None).
    { intros e He.
      destruct (traverse_origin _ _ _ _ _ _ _ _ Hrun e He)
        as (k & idx & pt & evk & stop & _ & Hc & Hin & _).
      pose proof (candidate_no_split _ _ _ _ _ _ _ _ (Hfed _) Hne Hc) as Hno.
      rewrite Forall_forall in Hno. exact (Hno e Hin). }
    clear -Hnone. induction ev as [|e ev IH]; [reflexivity|]. simpl.
    rewrite (Hnone e (list_elem_of_here _ _)). apply IH.
    intros e' He'. apply Hnone. apply list_elem_of_further. exact He'.
Qed.

End FitterContract.

End GeneratorExtras.

(** *** Without refinement *)

Section Unrefined.
Context `{ParamLayout} `{Geometry}.

Lemma candidate_unrefined (fitter : Fitter) (fitters : Fitters) (type : PrimitiveType)
    (i idx n : nat) (ev : list Event) (stop : bool) :
  candidate false fitter fitters type i idx n = Ok (ev, stop) ->
  Forall (fun e =>
            match e with
            | Materialize m => curve m = getPrimitive (fitters type)
            | Split s =>
                curve s = getCurveWithZeroCurvature (fitters CLOTHOID) 0
                \/ curve s = getCurveWithZeroCurvature (fitters CLOTHOID)
                               (idxToParam fitter idx - idxToParam fitter i)
            | PushBack _ => True
            end) ev.
Proof.
  unfold candidate, adjusted, inflection_split, split_candidate, adjusted. intros Hc.
  cbn in Hc.
  repeat match type of Hc with
         | context [divide ?a ?b] =>
             destruct (divide a b) eqn:?; cbn in Hc; [|discriminate Hc]
         | context [if ?b then _ else _] => destruct b eqn:?; cbn in Hc
         end;
    injection Hc as <- <-;
    repeat (apply Forall_cons; split;
            [first [reflexivity | exact I | left; reflexivity | right; reflexivity]|]);
    apply Forall_nil; exact I.
Qed.

(** X11.  Without refinement ([Default] fitter), started with an empty
    fitter, every candidate built for a pair is the best fit of the fitter's
    family over exactly the first [numPts] samples of the traversal, and in
    the Clothoid search the two inflection-split candidates are the
    zero-curvature fits over those same samples, at offset 0 and at the
    arc-length distance between the two ends of the span. *)
Theorem unrefined_candidate_is_prefix_fit (fitter : Fitter) (type : PrimitiveType) (i : nat)
    (fitters fs : Fitters) (ev : list Event) :
  fed (fitters type) = [] ->
  run_pair false fitter type i fitters = Ok (fs, ev) ->
  (forall m, Materialize m ∈ ev ->
     curve m = bestFit (family (fitters type))
                 (take (numPts m) (circulator fitter i)).*2)
  /\ (type = CLOTHOID ->
      forall s, Split s ∈ ev ->
        curve s = bestFitZeroCurvature (take (numPts s) (circulator fitter i)).*2 0
        \/ curve s = bestFitZeroCurvature (take (numPts s) (circulator fitter i)).*2
                       (idxToParam fitter (endIdx s) - idxToParam fitter (startIdx s))).
Proof.
  unfold run_pair. intros Hempty Hrun.
  assert (Hevent : forall e, e ∈ ev ->
            exists k idx,
              spans_to i idx (S k) (event_fit e)
              /\ match e with
                 | Materialize m =>
                     curve m = getPrimitive
                                 (feed fitters type (take (S k) (circulator fitter i)).*2 type)
                 | Split s =>
                     curve s = getCurveWithZeroCurvature
                                 (feed fitters type (take (S k) (circulator fitter i)).*2
                                    CLOTHOID) 0
                     \/ curve s = getCurveWithZeroCurvature
                                    (feed fitters type (take (S k) (circulator fitter i)).*2
                                       CLOTHOID)
                                    (idxToParam fitter idx - idxToParam fitter i)
                 | PushBack _ => True
                 end).
  { intros e He.
    destruct (traverse_origin _ _ _ _ _ _ _ _ _ Hrun e He)
      as (k & idx & pt & evk & stop & _ & Hc & Hin & _).
    exists k, idx. split.
    - apply candidate_sound in Hc. rewrite Forall_forall in Hc.
      exact (proj1 (Hc e Hin)).
    - apply candidate_unrefined in Hc. rewrite Forall_forall in Hc. exact (Hc e Hin). }
  split.
  - intros m Hm. destruct (Hevent _ Hm) as (k & idx & (_ & _ & Hn) & ->). simpl in Hn.
    unfold getPrimitive. rewrite feed_same, Hn. simpl. rewrite Hempty. reflexivity.
  - intros -> s Hs. destruct (Hevent _ Hs) as (k & idx & (Hi & Hj & Hn) & Hcurve).
    simpl in Hi, Hj, Hn. unfold getCurveWithZeroCurvature in Hcurve.
    rewrite feed_same in Hcurve. simpl in Hcurve. rewrite Hempty in Hcurve.
    simpl in Hcurve. rewrite Hn, Hi, Hj. exact Hcurve.
Qed.

End Unrefined.

(** ** The candidate generator in double precision *)

Section DoubleComparison.
Import PrimFloat SpecFloat FloatOps FloatAxioms.

Lemma SFcompare_Lt_Gt (x y : spec_float) :
  SFcompare x y = Some Lt -> SFcompare y x = Some Gt.
Proof.
  destruct x as [sx|sx| |sx mx ex], y as [sy|sy| |sy my ey]; simpl;
    try discriminate; try (destruct sx; discriminate || reflexivity);
    try (destruct sy; discriminate || reflexivity);
    try (destruct sx, sy; discriminate || reflexivity).
  destruct sx, sy; try discriminate; try reflexivity; intros [= Hlt]; f_equal;
    rewrite (Z.compare_antisym ex ey);
    change (Pos.compare_cont Eq my mx) with (Pos.compare my mx);
    change (Pos.compare_cont Eq mx my) with (Pos.compare mx my) in Hlt;
    rewrite (Pos.compare_antisym mx my);
    destruct (ex ?= ey)%Z; simpl in *; try discriminate; try reflexivity;
    destruct (mx ?= my)%positive; simpl in *; try discriminate; reflexivity.
Qed.

(** [a < b] excludes [b < a], for doubles as for numbers. *)
Lemma double_ltb_asym (a b : float) : (a <? b)%float = true -> (b <? a)%float = false.
Proof.
  rewrite !ltb_spec. unfold SFltb.
  destruct (SFcompare (Prim2SF a) (Prim2SF b)) as [[| |]|] eqn:Hab; try discriminate.
  intros _. rewrite (SFcompare_Lt_Gt _ _ Hab). reflexivity.
Qed.

End DoubleComparison.

Section DoubleGenerator.
Import PrimFloat Doubles.
Context `{ParamLayout} `{Geometry}.
Variable _adjust : bool.

(** What holds of every event of one iteration on the span [i .. idx]. *)
Lemma double_adjusted_span (fit fit' : Doubles.FitPrimitive) (fitter : Doubles.Fitter) :
  adjusted _adjust fit fitter = Ok fit' ->
  startIdx fit' = startIdx fit /\ endIdx fit' = endIdx fit.
Proof.
  unfold adjusted. destruct _adjust.
  - intros Hb. apply bind_Ok in Hb as (c & _ & Hb). injection Hb as <-. split; reflexivity.
  - intros [= <-]. split; reflexivity.
Qed.

Lemma double_split_candidate_sound (fitter : Doubles.Fitter) (fit fit' : Doubles.FitPrimitive)
    (c : Doubles.CurvePrimitive) (sign : Z) (ev : list Doubles.Event) :
  split_candidate _adjust fitter fit c sign
    (lengthFromTo fitter (startIdx fit) (endIdx fit)) = Ok (fit', ev) ->
  startIdx fit' = startIdx fit /\ endIdx fit' = endIdx fit
  /\ Forall (fun e => is_Some (pushed e) \/ (exists s, e = Split s)) ev
  /\ Forall (fun e => measured fitter (event_fit e)
                      /\ (is_Some (pushed e) -> over_threshold fitter (event_fit e) = false))
            ev.
Proof.
  unfold split_candidate. intros Hb. apply bind_Ok in Hb as (fa & Hadj & Hb).
  apply double_adjusted_span in Hadj as [Hs He]. cbn [with_signs with_curve startIdx endIdx] in Hs, He.
  set (m := with_error (computeError (errorComputer fitter) (curve fa)
                          (startIdx fa) (endIdx fa)) fa) in *.
  assert (Hm : measured fitter m) by reflexivity.
  assert (Hwithin : split_within_threshold (error m)
                      (lengthFromTo fitter (startIdx fit) (endIdx fit))
                      (scaledParameter fitter ERROR_THRESHOLD) = true ->
                    over_threshold fitter m = false).
  { unfold over_threshold, split_within_threshold, exceeds_threshold.
    unfold m. cbn [with_error startIdx endIdx error]. rewrite Hs, He. apply double_ltb_asym. }
  destruct (split_within_threshold _ _ _); injection Hb as <- <-.
  - split; [exact Hs|]. split; [exact He|]. split.
    + constructor; [right; eexists; reflexivity|]. constructor; [left; eexists; reflexivity|].
      constructor.
    + constructor; [split; [exact Hm | intros [? [=]]]|].
      constructor; [split; [exact Hm | intros _; apply Hwithin; reflexivity]|]. constructor.
  - split; [exact Hs|]. split; [exact He|]. split.
    + constructor; [right; eexists; reflexivity|]. constructor.
    + constructor; [split; [exact Hm | intros [? [=]]]|]. constructor.
Qed.

Lemma double_inflection_split_sound (fitter : Doubles.Fitter) (fitters : Doubles.Fitters)
    (fit : Doubles.FitPrimitive) (ev : list Doubles.Event) :
  inflection_split _adjust fitter fitters fit
    (lengthFromTo fitter (startIdx fit) (endIdx fit)) = Ok ev ->
  Forall (fun e => is_Some (pushed e) \/ (exists s, e = Split s)) ev
  /\ Forall (fun e => measured fitter (event_fit e)
                      /\ (is_Some (pushed e) -> over_threshold fitter (event_fit e) = false))
            ev.
Proof.
  unfold inflection_split. intros Hb.
  apply bind_Ok in Hb as ([f1 ev1] & H1 & Hb). apply bind_Ok in Hb as ([f2 ev2] & H2 & Hb).
  injection Hb as <-.
  apply double_split_candidate_sound in H1 as (Hs1 & He1 & Hk1 & Hev1).
  rewrite <- Hs1, <- He1 in H2.
  apply double_split_candidate_sound in H2 as (_ & _ & Hk2 & Hev2).
  split; apply Forall_app; split; assumption.
Qed.

Lemma double_candidate_sound (fitter : Doubles.Fitter) (fitters : Doubles.Fitters)
    (type : PrimitiveType) (i idx n : nat) (ev : list Doubles.Event) (stop : bool) :
  candidate _adjust fitter fitters type i idx n = Ok (ev, stop) ->
  Forall (fun e => measured fitter (event_fit e)
                   /\ (is_Some (pushed e) -> over_threshold fitter (event_fit e) = false))
         ev
  /\ (forall m, Materialize m ∈ ev -> over_threshold fitter m = false -> PushBack m ∈ ev).
Proof.
  unfold candidate. intros Hb. apply bind_Ok in Hb as (fa & Hadj & Hb).
  apply double_adjusted_span in Hadj as [Hs He]. cbn [startIdx endIdx] in Hs, He.
  set (m := with_error (computeError (errorComputer fitter) (curve fa) i (endIdx fa)) fa) in *.
  assert (Hm : measured fitter m).
  { unfold measured, m. cbn [with_error error curve startIdx endIdx]. rewrite Hs. reflexivity. }
  assert (Hover : over_threshold fitter m
                  = exceeds_threshold (error m) (lengthFromTo fitter i (endIdx m))
                      (scaledParameter fitter ERROR_THRESHOLD)).
  { unfold over_threshold, m. cbn [with_error startIdx endIdx]. rewrite Hs. reflexivity. }
  destruct (exceeds_threshold (error m) (lengthFromTo fitter i (endIdx m))
              (scaledParameter fitter ERROR_THRESHOLD)) eqn:Hex.
  { injection Hb as <- <-. split.
    - constructor; [split; [exact Hm | intros [? [=]]]|]. constructor.
    - intros m' Hin Hok. apply list_elem_of_singleton in Hin. injection Hin as ->.
      rewrite Hover in Hok. discriminate Hok. }
  assert (Hmirror : measured fitter (mirrored m)
                    /\ over_threshold fitter (mirrored m) = false).
  { split; [exact Hm|]. unfold over_threshold. cbn [mirrored with_signs error startIdx endIdx].
    exact Hover. }
  assert (Hbase : Forall (fun e => measured fitter (event_fit e)
                            /\ (is_Some (pushed e) -> over_threshold fitter (event_fit e) = false))
                    [Materialize m; PushBack m]).
  { constructor; [split; [exact Hm | intros [? [=]]]|].
    constructor; [split; [exact Hm | intros _; exact Hover]|]. constructor. }
  assert (Hhead : forall (rest : list Doubles.Event) (m' : Doubles.FitPrimitive),
            Forall (fun e => is_Some (pushed e) \/ (exists s, e = Split s)) rest ->
            Materialize m' ∈ Materialize m :: PushBack m :: rest ->
            PushBack m' ∈ Materialize m :: PushBack m :: rest).
  { intros rest m' Hrest Hin. apply elem_of_cons in Hin as [Heq|Hin].
    - injection Heq as ->. apply list_elem_of_further, list_elem_of_here.
    - apply elem_of_cons in Hin as [Heq|Hin]; [discriminate Heq|].
      rewrite Forall_forall in Hrest. destruct (Hrest _ Hin) as [[? [=]]|[s [=]]]. }
  destruct (bool_decide (type = LINE)
            && inflectionAccounting (params_get fitter INFLECTION_COST)).
  - destruct (bool_decide (startCurvSign (mirrored m) ≠ endCurvSign (mirrored m))
              && inflectionAccounting (params_get fitter INFLECTION_COST)).
    + apply bind_Ok in Hb as (ev' & Hsplit & Hb). injection Hb as <- <-.
      replace (lengthFromTo fitter i (endIdx m))
        with (lengthFromTo fitter (startIdx (mirrored m)) (endIdx (mirrored m))) in Hsplit
        by (unfold m; cbn [mirrored with_signs with_error startIdx endIdx]; rewrite Hs; reflexivity).
      apply double_inflection_split_sound in Hsplit as [Hkind Hev']. split.
      * apply (Forall_app_2 _ ([Materialize m; PushBack m] ++ [PushBack (mirrored m)]) ev');
          [|exact Hev'].
        apply (Forall_app_2 _ [Materialize m; PushBack m] [PushBack (mirrored m)]);
          [exact Hbase|].
        constructor; [split; [exact (proj1 Hmirror) | intros _; exact (proj2 Hmirror)]|].
        constructor.
      * intros m' Hin _. cbn [app] in Hin |- *. apply Hhead; [|exact Hin].
        constructor; [left; eexists; reflexivity | exact Hkind].
    + injection Hb as <- <-. split.
      * apply (Forall_app_2 _ [Materialize m; PushBack m] [PushBack (mirrored m)]);
          [exact Hbase|].
        constructor; [split; [exact (proj1 Hmirror) | intros _; exact (proj2 Hmirror)]|].
        constructor.
      * intros m' Hin _. cbn [app] in Hin |- *. apply Hhead; [|exact Hin].
        constructor; [left; eexists; reflexivity | constructor].
  - destruct (bool_decide (startCurvSign m ≠ endCurvSign m)
              && inflectionAccounting (params_get fitter INFLECTION_COST)).
    + apply bind_Ok in Hb as (ev' & Hsplit & Hb). injection Hb as <- <-.
      replace (lengthFromTo fitter i (endIdx m))
        with (lengthFromTo fitter (startIdx m) (endIdx m)) in Hsplit
        by (unfold m; cbn [with_error startIdx endIdx]; rewrite Hs; reflexivity).
      apply double_inflection_split_sound in Hsplit as [Hkind Hev']. split.
      * apply (Forall_app_2 _ [Materialize m; PushBack m] ev'); [exact Hbase | exact Hev'].
      * intros m' Hin _. cbn [app] in Hin |- *. apply Hhead; [exact Hkind | exact Hin].
    + injection Hb as <- <-. split; [exact Hbase|].
      intros m' Hin _. apply Hhead; [constructor | exact Hin].
Qed.

Lemma double_traverse_sound (fitter : Doubles.Fitter) (type : PrimitiveType) (i : nat)
    (circ : list (nat * (float * float))) :
  forall (n : nat) (fitters fs : Doubles.Fitters) (ev : list Doubles.Event),
    traverse _adjust fitter type i circ n fitters = Ok (fs, ev) ->
    Forall (fun e => measured fitter (event_fit e)
                     /\ (is_Some (pushed e) -> over_threshold fitter (event_fit e) = false))
           ev
    /\ (forall m, Materialize m ∈ ev -> over_threshold fitter m = false -> PushBack m ∈ ev).
Proof.
  induction circ as [|[idx pt] circ IH]; intros n fitters fs ev Ht; simpl in Ht.
  { injection Ht as <- <-. split; [constructor|]. intros m Hin. apply elem_of_nil in Hin.
    contradiction. }
  destruct (skip_type fitter type (S n)).
  { injection Ht as <- <-. split; [constructor|]. intros m Hin. apply elem_of_nil in Hin.
    contradiction. }
  apply bind_Ok in Ht as ([ev1 stop] & Hmeasure & Ht).
  assert (Hone : Forall (fun e => measured fitter (event_fit e)
                           /\ (is_Some (pushed e) ->
                               over_threshold fitter (event_fit e) = false)) ev1
                 /\ (forall m, Materialize m ∈ ev1 -> over_threshold fitter m = false ->
                       PushBack m ∈ ev1)).
  { unfold measure in Hmeasure. destruct (decide (2 + type_index type ≤ S n)%nat).
    - apply double_candidate_sound in Hmeasure. exact Hmeasure.
    - injection Hmeasure as <- <-. split; [constructor|]. intros m Hin.
      apply elem_of_nil in Hin. contradiction. }
  destruct stop; [injection Ht as <- <-; exact Hone|].
  destruct (corner_stop fitter (S n) idx); [injection Ht as <- <-; exact Hone|].
  apply bind_Ok in Ht as ([fs2 ev2] & Hrec & Ht). injection Ht as <- <-.
  apply IH in Hrec as [Hall2 Hpush2]. destruct Hone as [Hall1 Hpush1]. split.
  - apply Forall_app. split; assumption.
  - intros m Hin Hok. apply elem_of_app in Hin as [Hin|Hin]; apply elem_of_app.
    + left. exact (Hpush1 m Hin Hok).
    + right. exact (Hpush2 m Hin Hok).
Qed.

Lemma double_run_types_sound (fitter : Doubles.Fitter) (types : list PrimitiveType) (i : nat) :
  forall (fitters : Doubles.Fitters) (ev : list Doubles.Event),
    run_types _adjust fitter types i fitters = Ok ev ->
    Forall (fun e => measured fitter (event_fit e)
                     /\ (is_Some (pushed e) -> over_threshold fitter (event_fit e) = false))
           ev
    /\ (forall m, Materialize m ∈ ev -> over_threshold fitter m = false -> PushBack m ∈ ev).
Proof.
  induction types as [|type types IH]; intros fitters ev Hr; cbn [run_types] in Hr.
  { injection Hr as <-. split; [constructor|]. intros m Hin. apply elem_of_nil in Hin.
    contradiction. }
  apply bind_Ok in Hr as ([fs1 ev1] & Hpair & Hr). apply bind_Ok in Hr as (ev2 & Hrest & Hr).
  injection Hr as <-. apply double_traverse_sound in Hpair as [Hall1 Hpush1].
  apply IH in Hrest as [Hall2 Hpush2]. split.
  - apply Forall_app. split; assumption.
  - intros m Hin Hok. apply elem_of_app in Hin as [Hin|Hin]; apply elem_of_app.
    + left. exact (Hpush1 m Hin Hok).
    + right. exact (Hpush2 m Hin Hok).
Qed.

Lemma double_run_starts_sound (fitter : Doubles.Fitter) (starts : list nat) :
  forall ev : list Doubles.Event,
    run_starts _adjust fitter starts = Ok ev ->
    Forall (fun e => measured fitter (event_fit e)
                     /\ (is_Some (pushed e) -> over_threshold fitter (event_fit e) = false))
           ev
    /\ (forall m, Materialize m ∈ ev -> over_threshold fitter m = false -> PushBack m ∈ ev).
Proof.
  induction starts as [|i starts IH]; intros ev Hr; cbn [run_starts] in Hr.
  { injection Hr as <-. split; [constructor|]. intros m Hin. apply elem_of_nil in Hin.
    contradiction. }
  apply bind_Ok in Hr as (ev1 & Htypes & Hr). apply bind_Ok in Hr as (ev2 & Hrest & Hr).
  injection Hr as <-. apply double_run_types_sound in Htypes as [Hall1 Hpush1].
  apply IH in Hrest as [Hall2 Hpush2]. split.
  - apply Forall_app. split; assumption.
  - intros m Hin Hok. apply elem_of_app in Hin as [Hin|Hin]; apply elem_of_app.
    + left. exact (Hpush1 m Hin Hok).
    + right. exact (Hpush2 m Hin Hok).
Qed.

(** X3.  In the code's double arithmetic, every candidate that [_run]
    appends to [out.primitives], ordinary, mirrored or inflection-split,
    carries in [error] what the error computer returns for its own curve
    over its own span, measured after refinement, and its error divided by
    the length of its span does not compare greater than the squared error
    threshold.  Conversely a built candidate that does not compare greater
    is appended.  The comparison is the code's own: a span of zero length
    with zero error has the quotient NaN, compares not greater, and is
    appended. *)
Theorem emitted_not_over_threshold (fitter : Doubles.Fitter) (ev : list Doubles.Event) :
  _run _adjust fitter = Ok ev ->
  (forall f, f ∈ primitives ev ->
     error f = computeError (errorComputer fitter) (curve f) (startIdx f) (endIdx f)
     /\ (scaledParameter fitter ERROR_THRESHOLD * scaledParameter fitter ERROR_THRESHOLD
         <? error f / lengthFromTo fitter (startIdx f) (endIdx f))%float = false)
  /\ (forall m, Materialize m ∈ ev ->
        (scaledParameter fitter ERROR_THRESHOLD * scaledParameter fitter ERROR_THRESHOLD
         <? error m / lengthFromTo fitter (startIdx m) (endIdx m))%float = false ->
        m ∈ primitives ev).
Proof.
  unfold _run. intros Hrun. apply double_run_starts_sound in Hrun as [Hall Hpush]. split.
  - intros f Hf. apply list_elem_of_omap in Hf as (e & He & Hp).
    rewrite Forall_forall in Hall. destruct (Hall e He) as [Hm Hok].
    destruct e; try discriminate. injection Hp as ->.
    split; [exact Hm | apply Hok; eexists; reflexivity].
  - intros m Hin Hok. apply list_elem_of_omap. exists (PushBack m).
    split; [exact (Hpush m Hin Hok) | reflexivity].
Qed.

End DoubleGenerator.

(** ** The arc-length polyline *)

Module PolylineProperties.
Import Polyline.



(** The model meets the contract the spec gives for [paramToIdx]: it is
    non-decreasing in the parameter ... *)
Lemma locate_monotone (segs : list Qc) :
  forall a b, a ≤ b -> (locate segs a ≤ locate segs b)%nat.
Proof.
  induction segs as [|s segs IH]; intros a b Hab; simpl; [lia|].
  destruct (decide (s ≤ a)) as [Hsa|Hsa]; [|lia].
  destruct (decide (s ≤ b)) as [Hsb|Hsb].
  - apply le_n_S. apply IH. apply Qcplus_le_mono_r. exact Hab.
  - exfalso. apply Hsb. eapply Qcle_trans; eassumption.
Qed.

Lemma arc_length_nonneg (segs : list Qc) :
  Forall (fun s => 0 ≤ s) segs -> forall i, 0 ≤ arc_length_to segs i.
Proof.
  induction 1 as [|s segs Hs Hsegs IH]; intros i; destruct i; simpl;
    try apply Qcle_refl.
  rewrite <- (Qcplus_0_l 0). apply Qcplus_le_compat; [exact Hs | apply IH].
Qed.

(** ... and mapping the parameter of an index to an index and back to a
    parameter gives the parameter again. *)
Lemma locate_round_trip (segs : list Qc) :
  Forall (fun s => 0 ≤ s) segs ->
  forall i, arc_length_to segs (locate segs (arc_length_to segs i)) = arc_length_to segs i.
Proof.
  induction 1 as [|s segs Hs Hsegs IH]; intros i; [destruct i; reflexivity|].
  destruct i as [|i].
  - simpl. destruct (decide (s ≤ 0)) as [Hle|_]; [|reflexivity].
    assert (s = 0) as -> by (apply Qcle_antisym; assumption).
    simpl. replace (0 - 0) with 0 by ring.
    specialize (IH 0%nat). destruct segs; simpl in *; rewrite ?IH; ring.
  - simpl. pose proof (arc_length_nonneg segs Hsegs i) as Hnn.
    destruct (decide (s ≤ s + arc_length_to segs i)) as [_|Hno].
    + simpl. replace (s + arc_length_to segs i - s) with (arc_length_to segs i) by ring.
      rewrite IH. reflexivity.
    + exfalso. apply Hno. rewrite <- (Qcplus_0_r s) at 1.
      apply Qcplus_le_mono_l. exact Hnn.
Qed.


Lemma closed_reaches_size :
  length squared_distance unit_square = Qc_of_Z 4
  /\ paramToIdx squared_distance unit_square (length squared_distance unit_square)
     = Z.of_nat (size unit_square).
Proof. split; [apply Qc_is_canon|]; vm_compute; reflexivity. Qed.









End PolylineProperties.

(** * The statements on the concrete setting *)

Section Concrete.
Import Scenario.

Ltac qc_decide := apply (bool_decide_unpack _); vm_compute; exact I.

(** The search for Lines from sample 0 under [tight]: the two-point line is
    emitted, the three-point line fails the test and ends the search. *)
Lemma threshold_pruning_witness :
  let r := run_pair false tight LINE 0 fresh_fitters in
  let failed := default a_clothoid (event_fit <$> last (trace_of r)) in
  r = Ok (fitters_of r, trace_of r)
  /\ (summary <$> primitives (trace_of r)) = [(LINE, 0%nat, 1%nat, 2%nat, 1%Z, 1%Z)]
  /\ (summary <$> omap materialized (trace_of r))
     = [(LINE, 0%nat, 1%nat, 2%nat, 1%Z, 1%Z); (LINE, 0%nat, 2%nat, 3%nat, 1%Z, 1%Z)]
  /\ StronglySorted span_order (trace_of r)
  /\ StronglySorted (fun a b => (numPts a < numPts b)%nat) (omap materialized (trace_of r))
  /\ summary failed = (LINE, 0%nat, 2%nat, 3%nat, 1%Z, 1%Z)
  /\ acceptance tight failed = Ok false
  /\ (failed ∉ primitives (trace_of r))
  /\ forall f, f ∈ primitives (trace_of r) -> (numPts f < numPts failed)%nat.
Proof.
  cbv zeta.
  assert (Hrun : run_pair false tight LINE 0 fresh_fitters
                 = Ok (fitters_of (run_pair false tight LINE 0 fresh_fitters),
                       trace_of (run_pair false tight LINE 0 fresh_fitters)))
    by (vm_compute; reflexivity).
  split; [exact Hrun|]. split; [vm_compute; reflexivity|]. split; [vm_compute; reflexivity|].
  destruct (threshold_pruning false tight LINE 0 fresh_fitters _ _ Hrun)
    as (H1 & H2 & _ & Hpruned).
  split; [exact H1|]. split; [exact H2|]. split; [vm_compute; reflexivity|].
  assert (Hfails : acceptance tight
                     (default a_clothoid
                        (event_fit <$> last (trace_of (run_pair false tight LINE 0
                                                         fresh_fitters))))
                   = Ok false) by (vm_compute; reflexivity).
  split; [exact Hfails|].
  refine (proj2 (Hpruned _ _ Hfails)).
  apply list_elem_of_lookup. exists 2%nat. vm_compute. reflexivity.
Defined.

(** With inflection accounting a straight five-point span gives, from
    sample 0, every Line span twice in a row: the emitted spans do not grow
    strictly. *)
Lemma mirrored_line_repeats_span :
  let r := run_pair false (exact_fit no_corner) LINE 0 fresh_fitters in
  inflectionAccounting (exact_fit no_corner) = true
  /\ (numPts <$> primitives (trace_of r)) = [2; 2; 3; 3; 4; 4; 5; 5]%nat
  /\ ~ StronglySorted (fun a b => (numPts a < numPts b)%nat) (primitives (trace_of r)).
Proof.
  cbv zeta.
  assert (Hnum : (numPts <$> primitives
                    (trace_of (run_pair false (exact_fit no_corner) LINE 0 fresh_fitters)))
                 = [2; 2; 3; 3; 4; 4; 5; 5]%nat) by (vm_compute; reflexivity).
  split; [vm_compute; reflexivity|]. split; [exact Hnum|].
  intros Hsorted.
  destruct (primitives (trace_of (run_pair false (exact_fit no_corner) LINE 0 fresh_fitters)))
    as [|a [|b rest]]; try discriminate Hnum.
  injection Hnum as Ha Hb _.
  apply StronglySorted_cons in Hsorted as [Hfirst _].
  apply Forall_cons in Hfirst as [Hab _]. lia.
Qed.

(** Without inflection accounting the refinement of a Clothoid is given the
    minimum-length constraint alone: no constraint on the DCURVATURE slot. *)
Lemma sign_constraint_absent_without_inflection_accounting :
  inflectionAccounting tight = false
  /\ getType (curve a_clothoid) = CLOTHOID
  /\ adjust_constraints a_clothoid tight
     = [mkBox LENGTH (curve_length (curve a_clothoid) * half) 1]
  /\ ~ (mkBox DCURVATURE 0 (endCurvSign a_clothoid) ∈ adjust_constraints a_clothoid tight)
  /\ ~ (exists b, b ∈ adjust_constraints a_clothoid tight /\ box_index b = DCURVATURE).
Proof.
  assert (Hlist : adjust_constraints a_clothoid tight
                  = [mkBox LENGTH (curve_length (curve a_clothoid) * half) 1])
    by (vm_compute; reflexivity).
  split; [vm_compute; reflexivity|]. split; [reflexivity|]. split; [exact Hlist|].
  rewrite Hlist. split.
  - intros Hin. apply list_elem_of_singleton in Hin. discriminate Hin.
  - intros (b & Hin & Hidx). apply list_elem_of_singleton in Hin. subst b.
    discriminate Hidx.
Qed.

Lemma adjust_constraints_contents_witness :
  mkBox LENGTH (curve_length (curve a_clothoid) * half) 1
    ∈ adjust_constraints a_clothoid (exact_fit no_corner)
  /\ mkBox DCURVATURE 0 (endCurvSign a_clothoid)
       ∈ adjust_constraints a_clothoid (exact_fit no_corner)
  /\ adjust_constraints an_arc tight
     = [mkBox LENGTH (curve_length (curve an_arc) * half) 1].
Proof.
  destruct (adjust_constraints_contents a_clothoid (exact_fit no_corner))
    as (Hmin & Hsign & _).
  destruct (adjust_constraints_contents an_arc tight) as (_ & _ & Honly & _).
  split; [exact Hmin|]. split.
  - apply Hsign; [vm_compute; reflexivity | reflexivity].
  - apply Honly. vm_compute. reflexivity.
Defined.

Lemma eval_jacobian_chain_rule_witness :
  exists (p' : OneCurveProblem) (J' : list (list Qc)),
    OneCurveProblem_eval a_working_vector a_problem = Ok (p', mkEvalData [0] J')
    /\ J' !! DCURVATURE = Some [q 6 / 2]
    /\ J' !! CURVATURE = Some [q 5 - q 6 / 2]
    /\ J' !! LENGTH = Some [q 4 - q 6 / 2 * ((q 7 - 1) / 2)]
    /\ J' !! 0%nat = Some [1].
Proof.
  destruct (eval_jacobian_chain_rule a_problem a_working_vector) as [Hclothoid _].
  destruct (Hclothoid eq_refl 2 1 (q 7) [q 4] [q 5] [q 6]
              eq_refl eq_refl eq_refl ltac:(qc_decide) eq_refl eq_refl eq_refl)
    as (J' & Heval & HD & HK & HL & Hother).
  eexists. exists J'. split; [exact Heval|]. split; [exact HD|]. split; [exact HK|].
  split; [exact HL|]. rewrite Hother by discriminate. reflexivity.
Defined.

Lemma length_division_unreachable_witness :
  OneCurveProblem_setParams a_working_vector a_problem ≠ Fault DivisionByZero
  /\ OneCurveProblem_eval a_working_vector a_problem ≠ Fault DivisionByZero
  /\ OneCurveProblem_setParams [0; 0; 0; 0; 1; q 7] a_problem = Fault DivisionByZero
  /\ adjustPrimitive a_clothoid (exact_fit no_corner) ≠ Fault DivisionByZero.
Proof.
  destruct (length_division_unreachable a_clothoid (exact_fit no_corner) a_working_vector
              eq_refl) as (_ & _ & Hfeasible & Hadjust).
  destruct (length_division_unreachable a_clothoid (exact_fit no_corner)
              [0; 0; 0; 0; 1; q 7] eq_refl) as (Hzero & _).
  assert (Hpos : 0 < curve_length (curve a_clothoid)) by reflexivity.
  assert (Hlist : adjust_constraints a_clothoid (exact_fit no_corner)
                  = [mkBox LENGTH (curve_length (curve a_clothoid) * half) 1;
                     mkBox CURVATURE 0 1; mkBox DCURVATURE 0 1])
    by (vm_compute; reflexivity).
  assert (Hall : forall x : list Qc,
            x !! LENGTH = Some 2 -> x !! CURVATURE = Some 1 -> x !! DCURVATURE = Some (q 7) ->
            Forall (satisfies x) (adjust_constraints a_clothoid (exact_fit no_corner))).
  { intros x HxL HxK HxD. rewrite Hlist.
    simpl in HxL, HxK, HxD.
    repeat (apply Forall_cons; split;
            [unfold satisfies; simpl; rewrite ?HxL, ?HxK, ?HxD; qc_decide|]).
    apply Forall_nil. exact I. }
  destruct (Hfeasible Hpos (Hall a_working_vector eq_refl eq_refl eq_refl))
    as (_ & Hset & Heval & _).
  split; [exact Hset|]. split; [exact Heval|]. split.
  - exact (proj1 (Hzero 1 (q 7) eq_refl eq_refl eq_refl)).
  - apply Hadjust; [exact Hpos|]. intros x0 Hx0.
    vm_compute in Hx0. injection Hx0 as <-.
    apply Hall; simpl; apply f_equal; apply Qc_is_canon; reflexivity.
Defined.

Lemma scenario_bestFit_type (t : PrimitiveType) (pts : list (Qc * Qc)) :
  getType (bestFit t pts) = t.
Proof. destruct t; reflexivity. Qed.

Lemma scenario_zeroCurvature_type (pts : list (Qc * Qc)) (offset : Qc) :
  getType (bestFitZeroCurvature pts offset) = CLOTHOID.
Proof. reflexivity. Qed.

Lemma scenario_constant_curvature (c : CurvePrimitive) :
  getType c ≠ CLOTHOID -> startCurvature c = endCurvature c.
Proof. destruct c as [[] raw]; simpl; intros Hne; [reflexivity | reflexivity | contradiction]. Qed.

(** C3, on the code.  Under [on_threshold] the search for Clothoids from
    sample 0 builds the four-point candidate, whose two end signs differ; its
    error over the span length is 9, the squared threshold, and it is
    emitted.  Both inflection-split candidates are built; each has error
    over length 9 as well and passes the test of the ordinary candidate
    (verdict [Ok true]), yet neither is emitted: their test is the strict
    [error / length < errorThreshold * errorThreshold].  The same happens
    with a zero threshold when every curve fits its span without error: the
    ordinary candidates of both spans are emitted, none of the four split
    candidates is. *)
Lemma split_rejected_on_threshold :
  report on_threshold (run_pair false on_threshold CLOTHOID 0 fresh_fitters)
  = Some ([(CLOTHOID, 0%nat, 3%nat, 4%nat, (-1)%Z, 1%Z)],
          [(CLOTHOID, 0%nat, 3%nat, 4%nat, 1%Z, 1%Z, Ok true);
           (CLOTHOID, 0%nat, 3%nat, 4%nat, (-1)%Z, (-1)%Z, Ok true)])
  /\ report zero_threshold (run_pair false zero_threshold CLOTHOID 0 fresh_fitters)
     = Some ([(CLOTHOID, 0%nat, 3%nat, 4%nat, (-1)%Z, 1%Z);
              (CLOTHOID, 0%nat, 4%nat, 5%nat, (-1)%Z, 1%Z)],
             [(CLOTHOID, 0%nat, 3%nat, 4%nat, 1%Z, 1%Z, Ok true);
              (CLOTHOID, 0%nat, 3%nat, 4%nat, (-1)%Z, (-1)%Z, Ok true);
              (CLOTHOID, 0%nat, 4%nat, 5%nat, 1%Z, 1%Z, Ok true);
              (CLOTHOID, 0%nat, 4%nat, 5%nat, (-1)%Z, (-1)%Z, Ok true)]).
Proof. split; vm_compute; reflexivity. Qed.

(** A straight five-point span with inflection accounting: every valid Line
    span from sample 0 is emitted twice, once per orientation. *)
Lemma line_emitted_twice_witness :
  let r := run_pair false (exact_fit no_corner) LINE 0 fresh_fitters in
  r = Ok (fitters_of r, trace_of r)
  /\ (summary <$> primitives (trace_of r))
     = [(LINE, 0, 1, 2, 1%Z, 1%Z); (LINE, 0, 1, 2, (-1)%Z, (-1)%Z);
        (LINE, 0, 2, 3, 1%Z, 1%Z); (LINE, 0, 2, 3, (-1)%Z, (-1)%Z);
        (LINE, 0, 3, 4, 1%Z, 1%Z); (LINE, 0, 3, 4, (-1)%Z, (-1)%Z);
        (LINE, 0, 4, 5, 1%Z, 1%Z); (LINE, 0, 4, 5, (-1)%Z, (-1)%Z)]%nat
  /\ primitives (trace_of r)
     = flat_map both_orientations (accepted (exact_fit no_corner) (trace_of r)).
Proof.
  cbv zeta.
  assert (Hrun : run_pair false (exact_fit no_corner) LINE 0 fresh_fitters
                 = Ok (fitters_of (run_pair false (exact_fit no_corner) LINE 0 fresh_fitters),
                       trace_of (run_pair false (exact_fit no_corner) LINE 0 fresh_fitters)))
    by (vm_compute; reflexivity).
  split; [exact Hrun|]. split; [vm_compute; reflexivity|].
  refine (proj1 (line_emitted_twice false scenario_bestFit_type scenario_constant_curvature
                   (exact_fit no_corner) 0 fresh_fitters _ _ _ eq_refl Hrun)).
  vm_compute. reflexivity.
Defined.

(** With a corner at sample 2, the search for Lines from sample 0 has fed
    two points when sample 2 is the next one, and goes on: sample 2 is fed
    and the line over samples 0..2 is emitted.  The search stops after the
    corner has been fed, not before. *)
Lemma next_corner_is_fed :
  corners (fitter_of 5 (corner_at 2) 0 1 0) 2 = true
  /\ corners (fitter_of 5 (corner_at 2) 0 1 0) 1 = false
  /\ spans (run_pair false (fitter_of 5 (corner_at 2) 0 1 0) LINE 0 fresh_fitters)
     = Some [(0, 1); (0, 2)]%nat
  /\ spans (traverse false (fitter_of 5 (corner_at 2) 0 1 0) LINE 0
              [(1%nat, sample 1); (2%nat, sample 2); (3%nat, sample 3)] 1
              (set_fitter fresh_fitters LINE (addPoint (newFitter LINE) (sample 0))))
     = Some [(0, 1); (0, 2)]%nat.
Proof. repeat split; vm_compute; reflexivity. Qed.

(** A corner at the start index does not stop the traversal: the first
    sample is fed, no candidate is built yet, and the search goes on with
    the rest of the circulator. *)
Lemma corner_stop_at_fed_sample_witness :
  let fitter := fitter_of 5 (corner_at 0) 0 1 0 in
  let fed_one := set_fitter fresh_fitters LINE (addPoint (fresh_fitters LINE) (sample 0)) in
  corners fitter 0 = true
  /\ (forall circ,
        traverse false fitter LINE 0 ((0%nat, sample 0) :: circ) 0 fresh_fitters
        = (traverse false fitter LINE 0 circ 1 fed_one ≫= fun r => Ok (r.1, [] ++ r.2)))
  /\ spans (run_pair false fitter LINE 0 fresh_fitters)
     = Some [(0, 1); (0, 2); (0, 3); (0, 4)]%nat.
Proof.
  cbv zeta. split; [reflexivity|]. split; [|vm_compute; reflexivity].
  refine (proj2 (proj2 (corner_stop_at_fed_sample false (fitter_of 5 (corner_at 0) 0 1 0)
                          LINE 0 0 (sample 0) 0 fresh_fitters [] _ _)) eq_refl).
  - vm_compute. reflexivity.
  - vm_compute. reflexivity.
Defined.

Lemma minimum_points_witness :
  let r := _run false (exact_fit no_corner) in
  r = Ok (events_of r)
  /\ length (events_of r) = 60%nat
  /\ forall e, e ∈ events_of r ->
       (type_index (getType (curve (event_fit e))) + 2 ≤ numPts (event_fit e))%nat.
Proof.
  cbv zeta.
  assert (Hrun : _run false (exact_fit no_corner)
                 = Ok (events_of (_run false (exact_fit no_corner))))
    by (vm_compute; reflexivity).
  split; [exact Hrun|]. split; [vm_compute; reflexivity|].
  intros e He.
  exact (proj1 (minimum_points false scenario_bestFit_type scenario_zeroCurvature_type
                  scenario_constant_curvature (exact_fit no_corner) _ Hrun e He)).
Defined.

End Concrete.

(** ** The double-precision statements on concrete curves *)

Section ConcreteDoubles.
Import PrimFloat Scenario DoubleScenario.
Local Open Scope float_scope.

(** A clothoid of length 3, start curvature 0.1 and curvature rate 0.2:
    the round trip returns the rate 0.20000000000000004.  With length
    1, start curvature 1e16 and rate 1 it returns the rate 0.  Both lengths
    are nonzero; the composition is not the identity on the raw parameter
    vector. *)
Lemma round_trip_inexact_in_doubles :
  let p := Doubles.mkProblem (clothoid 3 tenth fifth) no_error in
  let p' := Doubles.mkProblem (clothoid 3 tenth 0x1.999999999999bp-3) no_error in
  let r := Doubles.mkProblem (clothoid 1 1e16 1) no_error in
  let r' := Doubles.mkProblem (clothoid 1 1e16 0) no_error in
  (Doubles.OneCurveProblem_params p ≫= fun x => Doubles.OneCurveProblem_setParams x p) = Ok p'
  /\ Doubles.curve_params (Doubles.curve (Doubles._primitive p'))
     ≠ Doubles.curve_params (Doubles.curve (Doubles._primitive p))
  /\ (Doubles.OneCurveProblem_params r ≫= fun x => Doubles.OneCurveProblem_setParams x r) = Ok r'
  /\ Doubles.curve_params (Doubles.curve (Doubles._primitive r'))
     ≠ Doubles.curve_params (Doubles.curve (Doubles._primitive r)).
Proof.
  cbv zeta. split; [vm_compute; reflexivity|]. split.
  - intros Hsame. apply (f_equal (fun v => default 0 (v !! 5%nat))) in Hsame.
    revert Hsame. apply double_differs; vm_compute; reflexivity.
  - split; [vm_compute; reflexivity|].
    intros Hsame. apply (f_equal (fun v => default 0 (v !! 5%nat))) in Hsame.
    revert Hsame. apply double_differs; vm_compute; reflexivity.
Qed.

Lemma round_trip_up_to_rounding_witness :
  let p := Doubles.mkProblem (clothoid 3 tenth fifth) no_error in
  Doubles.OneCurveProblem_params p = Ok [0; 0; 0; 3; tenth; 0x1.6666666666667p-1]
  /\ Doubles.OneCurveProblem_setParams [0; 0; 0; 3; tenth; 0x1.6666666666667p-1] p
     = Ok (Doubles.mkProblem (clothoid 3 tenth 0x1.999999999999bp-3) no_error)
  /\ (Doubles.OneCurveProblem_params p ≫= fun x => Doubles.OneCurveProblem_setParams x p)
     = Ok (Doubles.mkProblem (clothoid 3 tenth 0x1.999999999999bp-3) no_error)
  /\ Doubles.OneCurveProblem_params (Doubles.mkProblem (arc 3 tenth) no_error)
     = Ok [0; 0; 0; 3; tenth]
  /\ (OneCurveProblem_params a_problem ≫= fun x => OneCurveProblem_setParams x a_problem)
     = Ok a_problem.
Proof.
  cbv zeta.
  destruct round_trip_up_to_rounding as [Hdouble Hexact].
  destruct (Hdouble (Doubles.mkProblem (clothoid 3 tenth fifth) no_error)) as [Hclothoid _].
  destruct (Hclothoid eq_refl 3 tenth fifth eq_refl eq_refl eq_refl) as (Hfwd & Hset & Hround).
  destruct (Hdouble (Doubles.mkProblem (arc 3 tenth) no_error)) as [_ Harc].
  destruct (Harc ltac:(discriminate)) as (Hid & _).
  assert (Hnz : 2%Qc ≠ 0%Qc) by (apply (bool_decide_unpack _); vm_compute; exact I).
  destruct (Hexact a_problem 2%Qc 1%Qc (q 3) eq_refl eq_refl eq_refl eq_refl Hnz)
    as [_ Hsame].
  split; [rewrite Hfwd; vm_compute; reflexivity|].
  split.
  { rewrite (Hset [0; 0; 0; 3; tenth; 0x1.6666666666667p-1] 3 tenth 0x1.6666666666667p-1
               eq_refl eq_refl eq_refl).
    vm_compute. reflexivity. }
  split; [rewrite Hround; vm_compute; reflexivity|].
  split; [exact Hid | exact Hsame].
Defined.

(** The solver answers length 0.3, start curvature 0.7 and end
    curvature 0: the refined clothoid reads back with end curvature -2^-53,
    below zero, every other entry as the solver gave it. *)
Lemma refined_curve_reads_back_witness :
  let answer := [0; 0; 0; three_tenths; seven_tenths; 0] in
  let c' := Doubles.mkCurve CLOTHOID [0; 0; 0; three_tenths; seven_tenths;
                                     -0x1.2aaaaaaaaaaabp+1] in
  Doubles.adjustPrimitive length_of (answers answer) 1 1 (clothoid 3 tenth fifth) no_error
  = Ok c'
  /\ exists x',
       Doubles.OneCurveProblem_params
         (Doubles.mkProblem (Doubles.with_curve c' (clothoid 3 tenth fifth)) no_error) = Ok x'
       /\ (forall j, j ≠ DCURVATURE -> x' !! j = answer !! j)
       /\ x' !! DCURVATURE = Some (-0x1p-53)
       /\ (-0x1p-53 <? 0) = true.
Proof.
  cbv zeta.
  assert (Hrun : Doubles.adjustPrimitive length_of
                   (answers [0; 0; 0; three_tenths; seven_tenths; 0]) 1 1
                   (clothoid 3 tenth fifth) no_error
                 = Ok (Doubles.mkCurve CLOTHOID
                         [0; 0; 0; three_tenths; seven_tenths; -0x1.2aaaaaaaaaaabp+1]))
    by (vm_compute; reflexivity).
  split; [exact Hrun|].
  destruct (refined_curve_reads_back length_of
              (answers [0; 0; 0; three_tenths; seven_tenths; 0]) 1 1
              (clothoid 3 tenth fifth) no_error _ Hrun)
    as (_ & x0 & x' & _ & Hx' & _ & Hother & _ & Hrate).
  exists x'. split; [exact Hx'|]. split; [exact Hother|].
  destruct (Hrate eq_refl) as (l & k & e & Hl & Hk & He & Hback).
  apply (inj Some) in Hl, Hk, He. subst l k e.
  split; [rewrite Hback; vm_compute; reflexivity | vm_compute; reflexivity].
Defined.

(** With an idle solver the arc comes back as it was; the clothoid
    of length 3, start curvature 0.1 and rate 0.2 comes back with the rate
    0.20000000000000004. *)
Lemma idle_solver_refinement_witness :
  Doubles.adjustPrimitive length_of idle 1 1 (arc 3 tenth) no_error
  = Ok (Doubles.curve (arc 3 tenth))
  /\ Doubles.adjustPrimitive length_of idle 1 1 (clothoid 3 tenth fifth) no_error
     = Ok (Doubles.mkCurve CLOTHOID [0; 0; 0; 3; tenth; 0x1.999999999999bp-3]).
Proof.
  split.
  - apply (proj1 (idle_solver_refinement length_of idle 1 1 (arc 3 tenth) no_error
                    [0; 0; 0; 3; tenth] eq_refl eq_refl)).
    discriminate.
  - assert (Hx0 : Doubles.OneCurveProblem_params
                    (Doubles.mkProblem (clothoid 3 tenth fifth) no_error)
                  = Ok [0; 0; 0; 3; tenth; 0x1.6666666666667p-1])
      by (vm_compute; reflexivity).
    destruct (proj2 (idle_solver_refinement length_of idle 1 1 (clothoid 3 tenth fifth)
                       no_error _ Hx0 eq_refl) eq_refl)
      as (l & k & d & Hl & Hk & Hd & Hrun).
    apply (inj Some) in Hl, Hk, Hd. subst l k d.
    rewrite Hrun. vm_compute. reflexivity.
Defined.

(** Two coincident samples: the line over them has error 0 over a
    span of length 0, the quotient is NaN, which does not compare greater
    than the squared threshold, and the line is appended. *)
Lemma emitted_not_over_threshold_witness :
  let r := Doubles._run false coincident in
  r = Ok (DoubleScenario.trace_of r)
  /\ (Doubles.numPts <$> Doubles.primitives (DoubleScenario.trace_of r)) = [2%nat]
  /\ forall f, f ∈ Doubles.primitives (DoubleScenario.trace_of r) ->
       is_nan (Doubles.error f
               / Doubles.lengthFromTo coincident (Doubles.startIdx f) (Doubles.endIdx f)) = true
       /\ (1 * 1 <? Doubles.error f
                    / Doubles.lengthFromTo coincident (Doubles.startIdx f) (Doubles.endIdx f))
          = false.
Proof.
  cbv zeta.
  assert (Hrun : Doubles._run false coincident
                 = Ok (DoubleScenario.trace_of (Doubles._run false coincident)))
    by (vm_compute; reflexivity).
  split; [exact Hrun|]. split; [vm_compute; reflexivity|].
  destruct (emitted_not_over_threshold false coincident _ Hrun) as [Hall _].
  intros f Hf. split; [|exact (proj2 (Hall f Hf))].
  assert (Hone : Doubles.primitives (DoubleScenario.trace_of (Doubles._run false coincident))
                 = [Doubles.mkFit (Doubles.mkCurve LINE [0; 0; 0; 1; 0; 0]) 0 1 2 1 1 0])
    by (vm_compute; reflexivity).
  rewrite Hone in Hf. apply list_elem_of_singleton in Hf. subst f. vm_compute. reflexivity.
Defined.

End ConcreteDoubles.

(** * The further properties on the concrete settings *)

Section ConcreteExtras.
Import Scenario MoreScenarios.

Ltac qc_holds := apply (bool_decide_unpack _); vm_compute; exact I.

(** The Clothoid search from sample 0 over five samples: spans of four and
    five points, each ending where the circulator is after that many
    samples. *)
Lemma candidate_span_indices_witness :
  let r := run_pair false (exact_fit no_corner) CLOTHOID 0 fresh_fitters in
  r = Ok (fitters_of r, trace_of r)
  /\ length (trace_of r) = 12%nat
  /\ forall e, e ∈ trace_of r ->
       startIdx (event_fit e) = 0%nat
       /\ (4 ≤ numPts (event_fit e))%nat
       /\ (numPts (event_fit e) ≤ 5)%nat
       /\ exists pt,
            circulator (exact_fit no_corner) 0 !! (numPts (event_fit e) - 1)%nat
            = Some (endIdx (event_fit e), pt).
Proof.
  cbv zeta.
  assert (Hrun : run_pair false (exact_fit no_corner) CLOTHOID 0 fresh_fitters
                 = Ok (fitters_of (run_pair false (exact_fit no_corner) CLOTHOID 0
                                     fresh_fitters),
                       trace_of (run_pair false (exact_fit no_corner) CLOTHOID 0
                                   fresh_fitters)))
    by (vm_compute; reflexivity).
  split; [exact Hrun|]. split; [vm_compute; reflexivity|].
  intros e He.
  exact (candidate_span_indices false (exact_fit no_corner) CLOTHOID 0 fresh_fitters
           _ _ Hrun e He).
Defined.

(** A corner at sample 2: the Line spans from sample 0 end at sample 2 at
    the latest, and sample 1, inside the span 0..2, is not a corner. *)
Lemma no_corner_inside_span_witness :
  let fitter := exact_fit (corner_at 2) in
  let r := run_pair false fitter LINE 0 fresh_fitters in
  r = Ok (fitters_of r, trace_of r)
  /\ spans r = Some [(0, 1); (0, 1); (0, 2); (0, 2)]%nat
  /\ forall e, e ∈ trace_of r ->
     forall j idx pt,
       (1 ≤ j)%nat -> (j + 1 < numPts (event_fit e))%nat ->
       circulator fitter 0 !! j = Some (idx, pt) ->
       corners fitter idx = false.
Proof.
  cbv zeta.
  assert (Hrun : run_pair false (exact_fit (corner_at 2)) LINE 0 fresh_fitters
                 = Ok (fitters_of (run_pair false (exact_fit (corner_at 2)) LINE 0
                                     fresh_fitters),
                       trace_of (run_pair false (exact_fit (corner_at 2)) LINE 0
                                   fresh_fitters)))
    by (vm_compute; reflexivity).
  split; [exact Hrun|]. split; [vm_compute; reflexivity|].
  exact (no_corner_inside_span false (exact_fit (corner_at 2)) LINE 0 fresh_fitters
           _ _ Hrun).
Defined.

Lemma curvature_signs_witness :
  let r := run_pair false (exact_fit no_corner) CLOTHOID 0 fresh_fitters in
  r = Ok (fitters_of r, trace_of r)
  /\ length (omap split_tested (trace_of r)) = 4%nat
  /\ (forall e, e ∈ trace_of r ->
        unit_sign (startCurvSign (event_fit e)) /\ unit_sign (endCurvSign (event_fit e)))
  /\ (forall s, Split s ∈ trace_of r -> startCurvSign s = endCurvSign s).
Proof.
  cbv zeta.
  assert (Hrun : run_pair false (exact_fit no_corner) CLOTHOID 0 fresh_fitters
                 = Ok (fitters_of (run_pair false (exact_fit no_corner) CLOTHOID 0
                                     fresh_fitters),
                       trace_of (run_pair false (exact_fit no_corner) CLOTHOID 0
                                   fresh_fitters)))
    by (vm_compute; reflexivity).
  split; [exact Hrun|]. split; [vm_compute; reflexivity|].
  exact (curvature_signs false (exact_fit no_corner) CLOTHOID 0 fresh_fitters _ _ Hrun).
Defined.

(** From sample 2 of five only three samples are left: no Clothoid.  With a
    single sample nothing is fitted at all. *)
Lemma too_few_samples_witness :
  (exists fs, run_pair true (exact_fit no_corner) CLOTHOID 2 fresh_fitters = Ok (fs, []))
  /\ _run true single_sample = Ok [].
Proof.
  split.
  - apply (proj1 (too_few_samples true (exact_fit no_corner))). simpl. lia.
  - apply (proj2 (too_few_samples true single_sample)).
    intros i Hi. simpl in Hi. assert (i = 0%nat) as -> by lia. simpl. lia.
Defined.

Lemma one_candidate_per_span_witness :
  let fitter := fitter_of 5 no_corner 0 1 0 in
  let r := run_pair false fitter CLOTHOID 0 fresh_fitters in
  r = Ok (fitters_of r, trace_of r)
  /\ spans r = Some [(0, 3); (0, 4)]%nat
  /\ primitives (trace_of r) = accepted fitter (trace_of r)
  /\ omap split_tested (trace_of r) = []
  /\ StronglySorted (fun a b => (numPts a < numPts b)%nat) (primitives (trace_of r)).
Proof.
  cbv zeta.
  assert (Hrun : run_pair false (fitter_of 5 no_corner 0 1 0) CLOTHOID 0 fresh_fitters
                 = Ok (fitters_of (run_pair false (fitter_of 5 no_corner 0 1 0) CLOTHOID 0
                                     fresh_fitters),
                       trace_of (run_pair false (fitter_of 5 no_corner 0 1 0) CLOTHOID 0
                                   fresh_fitters)))
    by (vm_compute; reflexivity).
  assert (Hinfl : inflectionAccounting (fitter_of 5 no_corner 0 1 0) = false)
    by (vm_compute; reflexivity).
  split; [exact Hrun|]. split; [vm_compute; reflexivity|].
  exact (one_candidate_per_span false (fitter_of 5 no_corner 0 1 0) CLOTHOID 0
           fresh_fitters _ _ Hinfl Hrun).
Defined.

(** Lines made too expensive: the two-point line from sample 0 is still
    built and emitted (twice, inflection accounting being enabled), nothing
    longer.  Arcs made too expensive, with a corner at sample 1: nothing is
    built. *)
Lemma unneeded_type_minimal_span_witness :
  let fitter := without_type (exact_fit no_corner) LINE in
  let r := run_pair false fitter LINE 0 fresh_fitters in
  let cornered := without_type (exact_fit (corner_at 1)) ARC in
  let r' := run_pair false cornered ARC 0 fresh_fitters in
  needType fitter LINE = false
  /\ r = Ok (fitters_of r, trace_of r)
  /\ spans r = Some [(0, 1); (0, 1)]%nat
  /\ (forall e, e ∈ trace_of r -> numPts (event_fit e) = 2%nat)
  /\ (exists m rest,
        trace_of r = Materialize m :: rest
        /\ omap materialized (trace_of r) = [m]
        /\ startIdx m = 0%nat /\ numPts m = 2%nat)
  /\ r' = Ok (fitters_of r', trace_of r')
  /\ trace_of r' = [].
Proof.
  cbv zeta.
  assert (Hneed : needType (without_type (exact_fit no_corner) LINE) LINE = false)
    by (vm_compute; reflexivity).
  assert (Hrun : run_pair false (without_type (exact_fit no_corner) LINE) LINE 0 fresh_fitters
                 = Ok (fitters_of (run_pair false (without_type (exact_fit no_corner) LINE)
                                     LINE 0 fresh_fitters),
                       trace_of (run_pair false (without_type (exact_fit no_corner) LINE)
                                   LINE 0 fresh_fitters)))
    by (vm_compute; reflexivity).
  assert (Hneed' : needType (without_type (exact_fit (corner_at 1)) ARC) ARC = false)
    by (vm_compute; reflexivity).
  assert (Hrun' : run_pair false (without_type (exact_fit (corner_at 1)) ARC) ARC 0
                    fresh_fitters
                  = Ok (fitters_of (run_pair false (without_type (exact_fit (corner_at 1)) ARC)
                                      ARC 0 fresh_fitters),
                        trace_of (run_pair false (without_type (exact_fit (corner_at 1)) ARC)
                                    ARC 0 fresh_fitters)))
    by (vm_compute; reflexivity).
  destruct (unneeded_type_minimal_span false _ LINE 0 fresh_fitters _ _ Hneed Hrun)
    as (_ & Hpoints & _ & Hbuilt & _).
  destruct (unneeded_type_minimal_span false _ ARC 0 fresh_fitters _ _ Hneed' Hrun')
    as (_ & _ & _ & _ & _ & Hcorner).
  split; [exact Hneed|]. split; [exact Hrun|]. split; [vm_compute; reflexivity|].
  split; [exact Hpoints|]. split.
  - apply Hbuilt; [discriminate | simpl; lia|].
    intros j idx pt Hj1 Hj2. simpl in Hj2. lia.
  - split; [exact Hrun'|].
    apply (Hcorner 1%nat 1%nat (sample 1)); [lia | simpl; lia | reflexivity | reflexivity].
Defined.

Lemma only_own_fitter_fed_witness :
  let r := run_pair false tight LINE 0 fresh_fitters in
  r = Ok (fitters_of r, trace_of r)
  /\ fitters_of r ARC = newFitter ARC
  /\ fitters_of r CLOTHOID = newFitter CLOTHOID
  /\ fitters_of r LINE = mkFitter LINE [sample 0; sample 1; sample 2].
Proof.
  cbv zeta.
  assert (Hrun : run_pair false tight LINE 0 fresh_fitters
                 = Ok (fitters_of (run_pair false tight LINE 0 fresh_fitters),
                       trace_of (run_pair false tight LINE 0 fresh_fitters)))
    by (vm_compute; reflexivity).
  destruct (only_own_fitter_fed false tight LINE 0 fresh_fitters _ _ Hrun)
    as (Hother & _ & Hclothoid).
  split; [exact Hrun|]. split; [apply Hother; discriminate|].
  split; [apply Hclothoid; [discriminate | reflexivity]|].
  vm_compute. reflexivity.
Defined.

Lemma run_output_order_witness :
  let r := _run false (exact_fit no_corner) in
  r = Ok (events_of r)
  /\ (startIdx <$> primitives (events_of r))
     = (replicate 17 0 ++ replicate 11 1 ++ replicate 5 2 ++ replicate 2 3)%nat
  /\ StronglySorted (fun a b => (startIdx a ≤ startIdx b)%nat) (primitives (events_of r))
  /\ forall f, f ∈ primitives (events_of r) -> (startIdx f < 5)%nat.
Proof.
  cbv zeta.
  assert (Hrun : _run false (exact_fit no_corner)
                 = Ok (events_of (_run false (exact_fit no_corner))))
    by (vm_compute; reflexivity).
  split; [exact Hrun|]. split; [vm_compute; reflexivity|].
  exact (run_output_order false (exact_fit no_corner) _ Hrun).
Defined.

Lemma split_only_for_clothoid_witness :
  let r := run_pair false (exact_fit no_corner) ARC 0 fresh_fitters in
  r = Ok (fitters_of r, trace_of r)
  /\ spans r = Some [(0, 2); (0, 3); (0, 4)]%nat
  /\ (forall e, e ∈ trace_of r -> getType (curve (event_fit e)) = ARC)
  /\ omap split_tested (trace_of r) = [].
Proof.
  cbv zeta.
  assert (Hrun : run_pair false (exact_fit no_corner) ARC 0 fresh_fitters
                 = Ok (fitters_of (run_pair false (exact_fit no_corner) ARC 0 fresh_fitters),
                       trace_of (run_pair false (exact_fit no_corner) ARC 0 fresh_fitters)))
    by (vm_compute; reflexivity).
  destruct (split_only_for_clothoid false scenario_bestFit_type scenario_zeroCurvature_type
              scenario_constant_curvature (exact_fit no_corner) ARC 0 fresh_fitters _ _
              eq_refl Hrun) as [Htypes Hnone].
  split; [exact Hrun|]. split; [vm_compute; reflexivity|].
  split; [exact Htypes|]. apply Hnone. discriminate.
Defined.

Lemma unrefined_candidate_is_prefix_fit_witness :
  let r := run_pair false (exact_fit no_corner) CLOTHOID 0 fresh_fitters in
  r = Ok (fitters_of r, trace_of r)
  /\ (numPts <$> omap materialized (trace_of r)) = [4; 5]%nat
  /\ forall m, Materialize m ∈ trace_of r ->
       curve m = bestFit CLOTHOID (take (numPts m) (circulator (exact_fit no_corner) 0)).*2.
Proof.
  cbv zeta.
  assert (Hrun : run_pair false (exact_fit no_corner) CLOTHOID 0 fresh_fitters
                 = Ok (fitters_of (run_pair false (exact_fit no_corner) CLOTHOID 0
                                     fresh_fitters),
                       trace_of (run_pair false (exact_fit no_corner) CLOTHOID 0
                                   fresh_fitters)))
    by (vm_compute; reflexivity).
  split; [exact Hrun|]. split; [vm_compute; reflexivity|].
  exact (proj1 (unrefined_candidate_is_prefix_fit (exact_fit no_corner) CLOTHOID 0
                  fresh_fitters _ _ eq_refl Hrun)).
Defined.

(** After a probe at one vector, a probe at another gives what it would
    have given first. *)
Lemma probes_leave_no_trace_witness :
  exists p1,
    OneCurveProblem_setParams a_working_vector a_problem = Ok p1
    /\ OneCurveProblem_error [0; 0; 0; 1; 1; 2] p1
       = OneCurveProblem_error [0; 0; 0; 1; 1; 2] a_problem
    /\ OneCurveProblem_eval [0; 0; 0; 1; 1; 2] p1
       = OneCurveProblem_eval [0; 0; 0; 1; 1; 2] a_problem.
Proof.
  destruct (OneCurveProblem_setParams a_working_vector a_problem) as [p1|] eqn:Hset;
    [|vm_compute in Hset; discriminate Hset].
  exists p1. split; [reflexivity|].
  exact (proj2 (probes_leave_no_trace a_problem p1 a_working_vector [0; 0; 0; 1; 1; 2] Hset)).
Defined.

Lemma constraints_per_type_witness :
  (forall b, b ∈ adjust_constraints an_arc (exact_fit no_corner) ->
     box_index b ≠ DCURVATURE)
  /\ NoDup (box_index <$> adjust_constraints a_clothoid (exact_fit no_corner))
  /\ length (adjust_constraints a_clothoid (exact_fit no_corner)) = 3%nat.
Proof.
  destruct (constraints_per_type an_arc (exact_fit no_corner)) as (_ & Harc & _).
  destruct (constraints_per_type a_clothoid (exact_fit no_corner)) as (_ & _ & Hnodup & _).
  split; [exact (Harc eq_refl)|]. split; [exact Hnodup | reflexivity].
Defined.

Lemma start_point_feasible_witness :
  exists x0,
    OneCurveProblem_params a_problem = Ok x0
    /\ Forall (satisfies x0) (adjust_constraints a_clothoid (exact_fit no_corner)).
Proof.
  apply (start_point_feasible a_clothoid (exact_fit no_corner) (q 3)).
  - reflexivity.
  - qc_holds.
  - intros _. reflexivity.
  - intros _. split; reflexivity.
  - vm_compute. reflexivity.
  - vm_compute. reflexivity.
Defined.

End ConcreteExtras.
